(** * Package Tracking System: repository reconciliation, task runner and
      the space delimited field

    A shallow embedding of
    - [pts/core/utils/__init__.py]  ([PrettyPrintList], [SpaceDelimitedTextField]),
    - [distro_tracker/core/management/commands/pts_run_task.py] ([Command.handle]),
    - [pts/core/retrieve_data.py]  ([update_pseudo_package_list],
      [UpdateRepositoriesTask]),
    together with the properties the specification states about them, and
    of the code around them: [get_or_none] and [get_vcs_name],
    [retrieve_repository_info], the index files of [AptCache], and the tasks
    [ExtractSourcePackageFiles], [GenerateNewsFromRepositoryUpdates],
    [UpdatePackageGeneralInformation], [UpdateVersionInformation] and
    [UpdateSourceToBinariesInformation]. *)

From Stdlib Require Import Ascii.
From stdpp Require Import base option list strings pretty gmap.

#[local] Set Warnings "-clear-no-such-hyp".

(** ** Code that raises

    The outcome of a Python call: the value it returns or the exception it
    raises. *)
Inductive Result (E A : Type) :=
| Return (a : A)
| Raise (e : E).
Arguments Return {E A} a.
Arguments Raise {E A} e.

(** ** pts/core/utils/__init__.py *)
Module Utils.

(** Characters that [split()] without an argument treats as separators
    (text strings; code points below 256). *)
Definition is_whitespace (c : ascii) : bool :=
  let n := nat_of_ascii c in
  ((9 <=? n)%nat && (n <=? 13)%nat) || ((28 <=? n)%nat && (n <=? 32)%nat)
  || (n =? 133)%nat || (n =? 160)%nat.

(** [s.split()]: runs of whitespace separate the words, no empty word is
    produced.  [word] is the word being read. *)
Fixpoint split_from (word : string) (s : string) : list string :=
  match s with
  | EmptyString => if decide (word = "") then [] else [word]
  | String c s' =>
      if is_whitespace c
      then (if decide (word = "") then split_from "" s'
            else word :: split_from "" s')
      else split_from (word +:+ String c "") s'
  end.

Definition split (s : string) : list string := split_from "" s.

(** The separators of [split()] on a byte string. *)
Definition is_byte_whitespace (c : ascii) : bool :=
  let n := nat_of_ascii c in
  ((9 <=? n)%nat && (n <=? 13)%nat) || (n =? 32)%nat.

Fixpoint byte_split_from (word : string) (s : string) : list string :=
  match s with
  | EmptyString => if decide (word = "") then [] else [word]
  | String c s' =>
      if is_byte_whitespace c
      then (if decide (word = "") then byte_split_from "" s'
            else word :: byte_split_from "" s')
      else byte_split_from (word +:+ String c "") s'
  end.

Definition byte_split (s : string) : list string := byte_split_from "" s.

(** [delimiter.join(l)] *)
Fixpoint join (delimiter : string) (l : list string) : string :=
  match l with
  | [] => ""
  | [x] => x
  | x :: rest => x +:+ delimiter +:+ join delimiter rest
  end.

(** The two string types of the interpreter the code runs on: a byte
    string ([str]) and a text ([unicode], which every literal of the module
    is, by [unicode_literals]); the characters are bytes, or code points
    below 256. *)
Inductive Str :=
| Bytes (s : string)
| Text (s : string).

Definition content (x : Str) : string :=
  match x with Bytes s | Text s => s end.

Global Instance Str_eq_dec : EqDecision Str.
Proof. solve_decision. Defined.

(** What the [ascii] codec accepts. *)
Fixpoint is_ascii (s : string) : bool :=
  match s with
  | EmptyString => true
  | String c s' => (nat_of_ascii c <? 128)%nat && is_ascii s'
  end.

Inductive UnicodeError :=
| UnicodeEncodeError (object : string)
| UnicodeDecodeError (object : string).

(** [str(x)]: a byte string is returned as it is, a text is encoded with
    the [ascii] codec, which raises on a character above 127. *)
Definition str (x : Str) : Result UnicodeError string :=
  match x with
  | Bytes s => Return s
  | Text s => if is_ascii s then Return s else Raise (UnicodeEncodeError s)
  end.

(** [map(str, value)] *)
Fixpoint map_str (value : list Str) : Result UnicodeError (list string) :=
  match value with
  | [] => Return []
  | x :: rest =>
      match str x with
      | Raise e => Raise e
      | Return s =>
          match map_str rest with
          | Raise e => Raise e
          | Return l => Return (s :: l)
          end
      end
  end.

(** [delimiter.join(l)] for a text [delimiter] and byte strings [l]: the
    result is a text, and each item is decoded with the [ascii] codec,
    which raises on a byte above 127. *)
Definition text_join (delimiter : string) (l : list string)
  : Result UnicodeError string :=
  match list_find (λ s, is_ascii s = false) l with
  | Some (_, s) => Raise (UnicodeDecodeError s)
  | None => Return (join delimiter l)
  end.

(** [x == y] on strings: a byte string and a text are equal when the byte
    string decodes ([ascii]) to the text. *)
Definition str_eq (x y : Str) : bool :=
  match x, y with
  | Bytes a, Bytes b | Text a, Text b => bool_decide (a = b)
  | Bytes a, Text b | Text b, Bytes a => is_ascii a && bool_decide (a = b)
  end.

(** [l1 == l2] on lists. *)
Fixpoint list_eq (l1 l2 : list Str) : bool :=
  match l1, l2 with
  | [], [] => true
  | x :: l1', y :: l2' => str_eq x y && list_eq l1' l2'
  | _, _ => false
  end.

(** The values that reach the field: [None], a ready [PrettyPrintList], a
    plain list, or a string. *)
Record PrettyPrintList := mkPrettyPrintList {
  _list : list Str;
  delimiter : string
}.

Inductive Value :=
| VNone
| VPrettyPrintList (p : PrettyPrintList)
| VList (l : list Str)
| VStr (s : Str).

(** [PrettyPrintList.__init__(l=None, delimiter=' ')] *)
Definition PrettyPrintList_init (l : option (list Str)) : PrettyPrintList :=
  match l with
  | None => mkPrettyPrintList [] " "
  | Some l => mkPrettyPrintList l " "
  end.

(** [PrettyPrintList.__str__] *)
Definition PrettyPrintList_str (p : PrettyPrintList)
  : Result UnicodeError string :=
  match map_str (_list p) with
  | Raise e => Raise e
  | Return l => text_join (delimiter p) l
  end.

(** [PrettyPrintList.__eq__(self, other)]: against another
    [PrettyPrintList] the wrapped lists are compared, otherwise the wrapped
    list is compared with [other] itself (a list never equals a string or
    [None]). *)
Definition PrettyPrintList_eq (self : PrettyPrintList) (other : Value) : bool :=
  match other with
  | VPrettyPrintList o => list_eq (_list self) (_list o)
  | VList l => list_eq (_list self) l
  | VStr _ | VNone => false
  end.

(** Iterating a string yields its characters, strings of its own type. *)
Fixpoint chars (s : string) : list string :=
  match s with
  | EmptyString => []
  | String c s' => String c "" :: chars s'
  end.

(** [value.split()] *)
Definition Str_split (value : Str) : list Str :=
  match value with
  | Bytes s => Bytes <$> byte_split s
  | Text s => Text <$> split s
  end.

(** [SpaceDelimitedTextField.to_python] *)
Definition to_python (value : Value) : Value :=
  match value with
  | VNone => VNone
  | VPrettyPrintList p => VPrettyPrintList p
  | VList l => VPrettyPrintList (PrettyPrintList_init (Some l))
  | VStr s => VPrettyPrintList (PrettyPrintList_init (Some (Str_split s)))
  end.

(** What [for x in value] yields. *)
Definition iterate (value : Value) : list Str :=
  match value with
  | VNone => []
  | VPrettyPrintList p => _list p
  | VList l => l
  | VStr (Bytes s) => Bytes <$> chars s
  | VStr (Text s) => Text <$> chars s
  end.

(** [SpaceDelimitedTextField.get_prep_value]: [None] stays [None], every
    other iterable is joined with single spaces, after [str] has been
    applied to each of its elements; the result is a text. *)
Definition get_prep_value (value : Value) : Result UnicodeError Value :=
  match value with
  | VNone => Return VNone
  | _ =>
      match map_str (iterate value) with
      | Raise e => Raise e
      | Return l =>
          match text_join " " l with
          | Raise e => Raise e
          | Return s => Return (VStr (Text s))
          end
      end
  end.

Definition get_db_prep_value (value : Value) : Result UnicodeError Value :=
  get_prep_value value.


(** A list element the round trip is stated for: not empty and free of
    whitespace. *)
Fixpoint no_whitespace (s : string) : bool :=
  match s with
  | EmptyString => true
  | String c s' => negb (is_whitespace c) && no_whitespace s'
  end.

Definition plain_word (s : string) : Prop :=
  s ≠ "" ∧ no_whitespace s = true.



Lemma append_nil_l (s : string) : "" +:+ s = s.
Proof. reflexivity. Qed.








(** *** What [get_prep_value] does with a list *)











(** The word made of the one character 233 (e with an acute accent in
    Latin-1) is not empty and has no whitespace, yet a list that holds it
    cannot be stored: [str] raises for the text, [join] for the byte
    string. *)
Lemma non_ascii_word_not_stored :
  let word := String (ascii_of_nat 233) "" in
  plain_word word
  ∧ get_prep_value (VList [Text word]) = Raise (UnicodeEncodeError word)
  ∧ get_prep_value (VList [Bytes word]) = Raise (UnicodeDecodeError word)
  ∧ ¬ ∃ stored p,
        get_prep_value (VList [Text word]) = Return stored
        ∧ to_python stored = VPrettyPrintList p
        ∧ PrettyPrintList_eq p (VList [Text word]) = true.
Proof.
  intros word. split_and!; [done|by vm_compute..|].
  intros (stored & p & Hstored & _). by vm_compute in Hstored.
Qed.

(** *** Further properties of the field *)







End Utils.

(** ** Code that raises: a state and exception monad

    A Python function that mutates its receiver and may raise is a function
    from the state to an outcome and the state it leaves behind. *)
Definition M (S E A : Type) : Type := S → Result E A * S.

Global Instance M_ret {S E} : MRet (M S E) :=
  λ A (a : A) (s : S), (Return a, s).

Global Instance M_bind {S E} : MBind (M S E) :=
  λ A B (k : A → M S E B) (c : M S E A) (s : S),
    match c s with
    | (Return a, s') => k a s'
    | (Raise e, s') => (Raise e, s')
    end.

(** [raise e] *)
Definition raise {S E A} (e : E) : M S E A := λ s, (Raise e, s).

(** [try: body except: handler(e)] with a bare [except], which catches
    everything. *)
Definition try_except {S E A} (body : M S E A) (handler : E → M S E A)
  : M S E A :=
  λ s, match body s with
       | (Return a, s') => (Return a, s')
       | (Raise e, s') => handler e s'
       end.

(** [for x in l: body(x)]: an exception that leaves the body ends the
    loop. *)
Fixpoint for_each {S E A} (l : list A) (body : A → M S E unit) : M S E unit :=
  match l with
  | [] => mret tt
  | x :: rest => body x ;; for_each rest body
  end.

Definition get {S E} : M S E S := λ s, (Return s, s).
Definition modify {S E} (f : S → S) : M S E unit := λ s, (Return tt, f s).

Lemma for_each_app {S E A} (l1 l2 : list A) (body : A → M S E unit) (s : S) :
  for_each (l1 ++ l2) body s =
  match for_each l1 body s with
  | (Return _, s') => for_each l2 body s'
  | (Raise e, s') => (Raise e, s')
  end.
Proof.
  revert s. induction l1 as [|x l1 IH]; intros s; [done|].
  cbn [for_each app]. unfold mbind, M_bind.
  destruct (body x s) as [[[]|e] s1]; [apply IH | done].
Qed.

(** ** pts/core/utils/__init__.py: [get_or_none] and [get_vcs_name] *)
Module Lookup.

(** What [model.objects.get] raises. *)
Inductive GetError :=
| DoesNotExist
| MultipleObjectsReturned.

(** [model.objects.get] with the rows of the model and the test
    the keyword arguments stand for: the one matching row, or an exception
    when none or several match. *)
Definition objects_get {A} (matches : A → bool) (rows : list A)
  : Result GetError A :=
  match filter (λ x, matches x = true) rows with
  | [] => Raise DoesNotExist
  | [x] => Return x
  | _ :: _ :: _ => Raise MultipleObjectsReturned
  end.

(** [get_or_none]: only [DoesNotExist] is caught. *)
Definition get_or_none {A} (matches : A → bool) (rows : list A)
  : Result GetError (option A) :=
  match objects_get matches rows with
  | Return x => Return (Some x)
  | Raise DoesNotExist => Return None
  | Raise e => Raise e
  end.

(** X3.  [get_or_none] answers by the number of matching rows: [None] when
    there is none, the row when there is exactly one, and with several the
    exception [MultipleObjectsReturned] goes through.  It never raises
    [DoesNotExist]. *)
Theorem get_or_none_by_matches {A} (matches : A → bool) (rows : list A) :
  let found := filter (λ x, matches x = true) rows in
  match get_or_none matches rows with
  | Return None => found = []
  | Return (Some x) => found = [x] ∧ x ∈ rows ∧ matches x = true
  | Raise MultipleObjectsReturned => 2 ≤ length found
  | Raise DoesNotExist => False
  end.
Proof.
  intros found. unfold get_or_none, objects_get. fold found.
  destruct found as [|x [|y found']] eqn:Hfound; cbn; [done| |lia].
  assert (Hx : x ∈ filter (λ x, matches x = true) rows).
  { fold found. rewrite Hfound. by left. }
  apply list_elem_of_filter in Hx as [Hm Hx]. done.
Qed.

(** [VCS_SHORTHAND_TO_NAME] *)
Definition VCS_SHORTHAND_TO_NAME : list (string * string) :=
  [ ("svn", "Subversion");
    ("git", "Git");
    ("bzr", "Bazaar");
    ("cvs", "CVS");
    ("darcs", "Darcs");
    ("hg", "Mercurial");
    ("mtn", "Monotone") ].

(** [d.get(key, default)] for a dictionary given by its items. *)
Fixpoint dict_get (d : list (string * string)) (key default : string)
  : string :=
  match d with
  | [] => default
  | (k, v) :: rest => if decide (k = key) then v else dict_get rest key default
  end.

(** [get_vcs_name(shorthand)] *)
Definition get_vcs_name (shorthand : string) : string :=
  dict_get VCS_SHORTHAND_TO_NAME shorthand "".

(** X4.  [get_vcs_name] answers with the empty text exactly for a shorthand
    that is not in the table, and two shorthands of the table never share a
    name. *)
Theorem get_vcs_name_known (shorthand other : string) :
  (get_vcs_name shorthand = "" ↔ shorthand ∉ VCS_SHORTHAND_TO_NAME.*1)
  ∧ (get_vcs_name shorthand ≠ "" →
     get_vcs_name shorthand = get_vcs_name other → shorthand = other).
Proof.
  unfold get_vcs_name, VCS_SHORTHAND_TO_NAME. cbn [dict_get fmap list_fmap fst].
  split.
  - rewrite !not_elem_of_cons.
    repeat (destruct (decide (_ = shorthand)) as [<-|?];
            [split; [done|naive_solver]|]).
    split; [|done]. intros _. split_and!; try done. apply not_elem_of_nil.
  - repeat (destruct (decide (_ = shorthand)) as [<-|?];
            [intros _;
             repeat (destruct (decide (_ = other)) as [<-|?]; [done|]);
             done|]).
    done.
Qed.

End Lookup.

(** ** distro_tracker/core/management/commands/pts_run_task.py *)
Module PtsRunTask.

Section Command.
(** Everything the tasks act on. *)
Variable World : Type.
(** The exceptions that may be raised, and the text [traceback.print_exc]
    prints for one. *)
Variable Exn : Type.
Variable format_exc : Exn → string.
(** [name.decode('utf-8')] for a name of the command line, a byte string:
    the name as a text, or the [UnicodeDecodeError] raised when the bytes
    are not UTF-8. *)
Variable decode : string → Result Exn string.
(** [distro_tracker.core.tasks.run_task(task_name, parameters)]: resolves
    the name and runs the task; it returns nothing or raises. *)
Variable run_task :
  string → option (list (string * bool)) → M World Exn unit.

(** The command owns the world the tasks act on and [self.stdout]. *)
Record Process := mkProcess {
  world : World;
  stdout : list string
}.

Definition lift {A} (c : M World Exn A) : M Process Exn A :=
  λ p, let '(r, w) := c (world p) in (r, mkProcess w (stdout p)).

(** A call that reads no state: its outcome. *)
Definition outcome {A} (r : Result Exn A) : M Process Exn A :=
  λ p, (r, p).

(** [self.stdout.write(text)] *)
Definition stdout_write (text : string) : M Process Exn unit :=
  modify (λ p, mkProcess (world p) (stdout p ++ [text])).

(** [traceback.print_exc(file=self.stdout)] *)
Definition print_exc (e : Exn) : M Process Exn unit :=
  stdout_write (format_exc e).

(** The keyword arguments [handle] reads. *)
Record Options := mkOptions {
  verbosity : option Z;  (* [kwargs.get('verbosity', 1)] *)
  force : bool           (* [kwargs['force']] *)
}.

(** [Command.handle].  The name is decoded before the [try]: an exception
    of [decode] leaves the loop and [handle]. *)
Definition handle (args : list string) (kwargs : Options)
  : M Process Exn unit :=
  let verbose := bool_decide (1 < default 1 (verbosity kwargs))%Z in
  let additional_arguments :=
    if force kwargs then Some [("force_update", true)] else None in
  for_each args (λ task_name,
    task_name ← outcome (decode task_name);
    try_except
      (lift (run_task task_name additional_arguments))
      (λ e,
         if verbose then
           stdout_write (task_name +:+ " failed!") ;;
           print_exc e
         else mret tt)).











(** X5.  Running a list of names is running its first part and then, when
    that returned, the rest from where the first part ended: one invocation
    with all names does what successive invocations with the same options
    do.  When the first part raises, at a name that cannot be decoded, the
    names of the rest are not attempted. *)
Theorem handle_in_parts (first rest : list string) kwargs (p : Process) :
  handle (first ++ rest) kwargs p
  = match handle first kwargs p with
    | (Return _, p') => handle rest kwargs p'
    | (Raise e, p') => (Raise e, p')
    end.
Proof. unfold handle. apply for_each_app. Qed.

End Command.

(** *** A command line with a name that is not UTF-8 *)

Inductive ExampleError :=
| UnicodeDecodeError (object : string)
| TaskError.

(** [decode('utf-8')] on the names of the example, which are made of bytes
    below 128 and of the byte 255: a name of bytes below 128 is decoded to
    the text of the same characters, and the byte 255 belongs to no UTF-8
    sequence. *)
Definition example_decode (name : string) : Result ExampleError string :=
  if Utils.is_ascii name then Return name
  else Raise (UnicodeDecodeError name).

(** A [run_task] that writes down the name it was called with. *)
Definition example_run_task (task_name : string)
    (parameters : option (list (string * bool)))
  : M (list string) ExampleError unit :=
  modify (λ called, called ++ [task_name]).

(** With the names [b'\xff'] and [b'UpdateRepositoriesTask'], [handle]
    raises at the first and [run_task] is never called: the second name is
    not attempted. *)
Lemma undecodable_name_ends_handle :
  let args := [String (ascii_of_nat 255) ""; "UpdateRepositoriesTask"] in
  let run args :=
    handle (list string) ExampleError (λ _, "Traceback") example_decode
      example_run_task args (mkOptions None false)
      (mkProcess (list string) [] []) in
  run args
  = (Raise (UnicodeDecodeError (String (ascii_of_nat 255) "")),
     mkProcess (list string) [] [])
  ∧ run ["UpdateRepositoriesTask"]
    = (Return tt, mkProcess (list string) ["UpdateRepositoriesTask"] []).
Proof. by vm_compute. Qed.

End PtsRunTask.

(** ** pts/core/retrieve_data.py *)
Module RetrieveData.

(** *** The record store ([pts.core.models])

    The model classes are not part of the sources at hand.  The entities
    are those of the specification's data model; each table is a list of
    rows in insertion order, with the columns the retrieval code reads and
    writes. *)

Inductive PackageType :=
| SOURCE_PACKAGE_TYPE
| PSEUDO_PACKAGE_TYPE
| SUBSCRIPTION_ONLY_PACKAGE_TYPE.

Global Instance PackageType_eq_dec : EqDecision PackageType.
Proof. solve_decision. Defined.

(** Modelled from the spec: the model [PackageName] ([pts.core.models]) is
    not part of the sources.  A package name has the unique key [name] and
    a [package_type]; [SourcePackageName] and [PseudoPackageName] are the
    package names of the matching type. *)
Record PackageName := mkPackageName {
  pn_name : string;
  package_type : PackageType
}.

Global Instance PackageName_eq_dec : EqDecision PackageName.
Proof. solve_decision. Defined.

Record ContributorName := mkContributorName {
  contributor_email : string;
  contributor_name : string
}.

Global Instance ContributorName_eq_dec : EqDecision ContributorName.
Proof. solve_decision. Defined.

(** Modelled from the spec: the model [SourcePackage] ([pts.core.models])
    is not part of the sources.  A row is one version of a source package,
    with the data extracted for it; the name row it belongs to is
    referenced by its unique key, the name. *)
Record SourcePackage := mkSourcePackage {
  sp_pk : nat;
  sp_name : string;                         (* [source_package_name.name] *)
  sp_version : string;
  sp_architectures : list string;
  sp_binary_packages : list string;
  sp_maintainer : option ContributorName;
  sp_uploaders : list ContributorName;
  sp_fields : list (string * string)        (* the remaining plain columns *)
}.

Global Instance SourcePackage_eq_dec : EqDecision SourcePackage.
Proof. solve_decision. Defined.

(** A repository is known by its unique name. *)
Definition Repository := string.

(** Modelled from the spec: the model [SourcePackageRepositoryEntry]
    ([pts.core.models]) is not part of the sources.  A row links a version
    into a repository and carries the repository-local fields;
    [entry_source_package] is the row reached through the foreign key, as
    [entry.source_package] is. *)
Record SourcePackageRepositoryEntry := mkEntry {
  entry_id : nat;
  entry_repository : Repository;
  entry_source_package : SourcePackage;
  entry_priority : string;
  entry_section : string
}.

Global Instance Entry_eq_dec : EqDecision SourcePackageRepositoryEntry.
Proof. solve_decision. Defined.

(** Modelled from the spec: the persistent record store is not part of the
    sources; it offers create, query, delete and count on its tables.  The
    two counters are the primary keys the store hands out next. *)
Record Store := mkStore {
  package_names : list PackageName;
  source_packages : list SourcePackage;
  repository_entries : list SourcePackageRepositoryEntry;
  binary_package_names : list string;
  contributor_emails : list string;
  contributor_names : list ContributorName;
  architectures : list string;
  next_source_package_pk : nat;
  next_entry_id : nat
}.

Definition set_package_names (l : list PackageName) (s : Store) : Store :=
  mkStore l (source_packages s) (repository_entries s)
    (binary_package_names s) (contributor_emails s) (contributor_names s)
    (architectures s) (next_source_package_pk s) (next_entry_id s).

Definition set_source_packages (l : list SourcePackage) (s : Store) : Store :=
  mkStore (package_names s) l (repository_entries s)
    (binary_package_names s) (contributor_emails s) (contributor_names s)
    (architectures s) (next_source_package_pk s) (next_entry_id s).

Definition set_repository_entries
    (l : list SourcePackageRepositoryEntry) (s : Store) : Store :=
  mkStore (package_names s) (source_packages s) l
    (binary_package_names s) (contributor_emails s) (contributor_names s)
    (architectures s) (next_source_package_pk s) (next_entry_id s).

Definition set_binary_package_names (l : list string) (s : Store) : Store :=
  mkStore (package_names s) (source_packages s) (repository_entries s)
    l (contributor_emails s) (contributor_names s)
    (architectures s) (next_source_package_pk s) (next_entry_id s).

Definition set_contributor_emails (l : list string) (s : Store) : Store :=
  mkStore (package_names s) (source_packages s) (repository_entries s)
    (binary_package_names s) l (contributor_names s)
    (architectures s) (next_source_package_pk s) (next_entry_id s).

Definition set_contributor_names (l : list ContributorName) (s : Store)
  : Store :=
  mkStore (package_names s) (source_packages s) (repository_entries s)
    (binary_package_names s) (contributor_emails s) l
    (architectures s) (next_source_package_pk s) (next_entry_id s).

Definition set_next_source_package_pk (n : nat) (s : Store) : Store :=
  mkStore (package_names s) (source_packages s) (repository_entries s)
    (binary_package_names s) (contributor_emails s) (contributor_names s)
    (architectures s) n (next_entry_id s).

Definition set_next_entry_id (n : nat) (s : Store) : Store :=
  mkStore (package_names s) (source_packages s) (repository_entries s)
    (binary_package_names s) (contributor_emails s) (contributor_names s)
    (architectures s) (next_source_package_pk s) n.


Definition SourcePackageName_all (s : Store) : list PackageName :=
  filter (λ p, package_type p = SOURCE_PACKAGE_TYPE) (package_names s).

(** *** Events and exceptions *)

Inductive Arg :=
| Str (s : string)
| Int (n : nat).

Global Instance Arg_eq_dec : EqDecision Arg.
Proof. solve_decision. Defined.

Record Event := mkEvent {
  event_name : string;
  event_arguments : list (string * Arg)
}.

Global Instance Event_eq_dec : EqDecision Event.
Proof. solve_decision. Defined.

Inductive Exception :=
| KeyError (key : string)
| IOError (file_name : string)
| DoesNotExist
| UndeclaredEvent (name : string)
| ExternalError (message : string).

(** Rows as they appear in the record of what the task did. *)
Inductive Row :=
| RowSourcePackage (p : SourcePackage)
| RowPackageName (p : PackageName)
| RowBinaryPackageName (name : string)
| RowRepositoryEntry (e : SourcePackageRepositoryEntry).

Global Instance Row_eq_dec : EqDecision Row.
Proof. solve_decision. Defined.

(** What the task did, in the order it did it: the events it raised and the
    rows it deleted. *)
Inductive Effect :=
| Raised (e : Event)
| Deleted (r : Row).

Global Instance Effect_eq_dec : EqDecision Effect.
Proof. solve_decision. Defined.

(** The task object with the store it works on.  [journal] only observes;
    nothing reads it. *)
Record Task := mkTask {
  db : Store;
  events : list Event;
  _all_repository_entries : list nat;
  force_update : bool;
  journal : list Effect
}.

Definition set_db (s : Store) (t : Task) : Task :=
  mkTask s (events t) (_all_repository_entries t) (force_update t) (journal t).

Definition set_events (l : list Event) (t : Task) : Task :=
  mkTask (db t) l (_all_repository_entries t) (force_update t) (journal t).

Definition set_all_repository_entries (l : list nat) (t : Task) : Task :=
  mkTask (db t) (events t) l (force_update t) (journal t).

Definition set_journal (l : list Effect) (t : Task) : Task :=
  mkTask (db t) (events t) (_all_repository_entries t) (force_update t) l.

Definition update_db (f : Store → Store) (t : Task) : Task :=
  set_db (f (db t)) t.

Abbreviation Run := (M Task Exception).

Definition PRODUCES_EVENTS : list string :=
  [ "new-source-package";
    "new-source-package-version";
    "new-source-package-in-repository";
    "new-source-package-version-in-repository";
    "new-binary-package";
    "lost-source-package";
    "lost-source-package-version-in-repository";
    "lost-version-of-source-package";
    "lost-binary-package" ].

(** The task after [event] was raised. *)
Definition record_event (event : Event) (t : Task) : Task :=
  set_journal (journal t ++ [Raised event]) (set_events (events t ++ [event]) t).

(** Modelled from the spec: [BaseTask.raise_event] ([pts.core.tasks]) is not
    part of the sources.  It appends the event to the task's events of this
    run; a name outside [PRODUCES_EVENTS] is a programming error that fails
    at once. *)
Definition raise_event (name : string) (arguments : list (string * Arg))
  : Run unit :=
  if bool_decide (name ∈ PRODUCES_EVENTS) then
    modify (record_event (mkEvent name arguments))
  else raise (UndeclaredEvent name).

(** [_clear_processed_repository_entries] *)
Definition _clear_processed_repository_entries : Run unit :=
  modify (set_all_repository_entries []).

(** [_add_processed_repository_entry] *)
Definition _add_processed_repository_entry
    (repository_entry : SourcePackageRepositoryEntry) : Run unit :=
  modify (λ t, set_all_repository_entries
                 (_all_repository_entries t ++ [entry_id repository_entry]) t).

(** *** [update_pseudo_package_list] *)














Definition pseudo_example_store : Store :=
  mkStore
    [ mkPackageName "bugs.debian.org" PSEUDO_PACKAGE_TYPE;
      mkPackageName "dpkg" SOURCE_PACKAGE_TYPE;
      mkPackageName "ftp.debian.org" PSEUDO_PACKAGE_TYPE ]
    [] [] [] [] [] [] 0 0.


Lemma filter_none {A} (P : A → Prop) `{∀ x, Decision (P x)} (l : list A) :
  (∀ x, x ∈ l → ¬ P x) → filter P l = [].
Proof.
  induction l as [|x l IH]; intros Hl; [done|].
  rewrite filter_cons_False by (apply Hl; by left).
  apply IH. intros y Hy. apply Hl. by right.
Qed.

Lemma filter_all {A} (P : A → Prop) `{∀ x, Decision (P x)} (l : list A) :
  (∀ x, x ∈ l → P x) → filter P l = l.
Proof.
  induction l as [|x l IH]; intros Hl; [done|].
  rewrite filter_cons_True by (apply Hl; by left).
  f_equal. apply IH. intros y Hy. apply Hl. by right.
Qed.

(** **** Updating the pseudo packages twice *)








(** *** [UpdateRepositoriesTask] *)

(** A paragraph of a [Sources] file: its fields in order. *)
Definition Stanza := list (string * string).

(** [stanza.get(key)] *)
Fixpoint stanza_get (key : string) (stanza : Stanza) : option string :=
  match stanza with
  | [] => None
  | (k, v) :: rest => if decide (k = key) then Some v else stanza_get key rest
  end.

(** [stanza[key]] *)
Definition stanza_item (stanza : Stanza) (key : string) : Run string :=
  match stanza_get key stanza with
  | Some v => mret v
  | None => raise (KeyError key)
  end.

(** A contributor as the parser returns it: the dictionary with the key
    [email] and, possibly, [name]. *)
Record Contributor := mkContributor {
  c_email : string;
  c_name : option string
}.

(** The dictionary [extract_information_from_sources_entry] returns: the
    four keys the task converts, when present, and the plain ones. *)
Record SourcesEntry := mkSourcesEntry {
  se_architectures : option (list string);
  se_binary_packages : option (list string);
  se_maintainer : option Contributor;
  se_uploaders : option (list Contributor);
  se_fields : list (string * string)
}.

(** The same dictionary once the task has replaced names by rows. *)
Record ConvertedEntry := mkConvertedEntry {
  ce_architectures : option (list string);
  ce_binary_packages : option (list string);
  ce_maintainer : option ContributorName;
  ce_uploaders : option (list ContributorName);
  ce_fields : list (string * string)
}.

(** [for x in l: acc = body(acc, x)] *)
Fixpoint fold_each {S E A B} (l : list A) (acc : B) (body : B → A → M S E B)
  : M S E B :=
  match l with
  | [] => mret acc
  | x :: rest => acc' ← body acc x; fold_each rest acc' body
  end.

(** [SourcePackageName.objects.get_or_create(name=name)] *)
Definition SourcePackageName_get_or_create (name : string)
  : Run (PackageName * bool) :=
  t ← get;
  match list_find (λ p, pn_name p = name) (SourcePackageName_all (db t)) with
  | Some (_, p) => mret (p, false)
  | None =>
      let p := mkPackageName name SOURCE_PACKAGE_TYPE in
      modify (update_db (λ s, set_package_names (package_names s ++ [p]) s)) ;;
      mret (p, true)
  end.

(** [SourcePackage.objects.get_or_create(source_package_name=.., version=..)];
    a created row takes the next primary key and has no data yet. *)
Definition SourcePackage_get_or_create (name version : string)
  : Run (SourcePackage * bool) :=
  t ← get;
  match list_find (λ p, sp_name p = name ∧ sp_version p = version)
          (source_packages (db t)) with
  | Some (_, p) => mret (p, false)
  | None =>
      let p := mkSourcePackage (next_source_package_pk (db t)) name version
                 [] [] None [] [] in
      modify (update_db (λ s,
        set_next_source_package_pk (S (next_source_package_pk s))
          (set_source_packages (source_packages s ++ [p]) s))) ;;
      mret (p, true)
  end.

(** [BinaryPackageName.objects.create(name=name)] *)
Definition BinaryPackageName_create (name : string) : Run string :=
  modify (update_db (λ s,
    set_binary_package_names (binary_package_names s ++ [name]) s)) ;;
  mret name.

(** [ContributorEmail.objects.create(email=email)] *)
Definition ContributorEmail_create (email : string) : Run string :=
  modify (update_db (λ s,
    set_contributor_emails (contributor_emails s ++ [email]) s)) ;;
  mret email.

(** [ContributorEmail.objects.get_or_create(email=email)] *)
Definition ContributorEmail_get_or_create (email : string) : Run string :=
  t ← get;
  if decide (email ∈ contributor_emails (db t)) then mret email
  else ContributorEmail_create email.

(** [ContributorName.objects.get_or_create(contributor_email=.., name=..)[0]] *)
Definition ContributorName_get_or_create (email name : string)
  : Run ContributorName :=
  t ← get;
  let c := mkContributorName email name in
  if decide (c ∈ contributor_names (db t)) then mret c
  else
    modify (update_db (λ s,
      set_contributor_names (contributor_names s ++ [c]) s)) ;;
    mret c.

(** [src_pkg.update] with the entry as keyword arguments: the keys present
    in [entry] are set. *)
Definition SourcePackage_update (src_pkg : SourcePackage)
    (entry : ConvertedEntry) : SourcePackage :=
  mkSourcePackage (sp_pk src_pkg) (sp_name src_pkg) (sp_version src_pkg)
    (default (sp_architectures src_pkg) (ce_architectures entry))
    (default (sp_binary_packages src_pkg) (ce_binary_packages entry))
    (match ce_maintainer entry with
     | Some m => Some m
     | None => sp_maintainer src_pkg
     end)
    (default (sp_uploaders src_pkg) (ce_uploaders entry))
    (ce_fields entry ++ sp_fields src_pkg).

(** [src_pkg.save()]: the stored row is replaced by the object. *)
Definition SourcePackage_save (stored new : SourcePackage) : Run unit :=
  modify (update_db (λ s,
    set_source_packages
      ((λ p, if decide (p = stored) then new else p) <$> source_packages s)
      s)).

(** Modelled from the spec: [Repository.has_source_package] is not part of
    the sources; it tells whether the repository has an entry for this
    version. *)
Definition has_source_package (s : Store) (repository : Repository)
    (src_pkg : SourcePackage) : bool :=
  bool_decide (Exists (λ e, entry_repository e = repository
                            ∧ entry_source_package e = src_pkg)
                 (repository_entries s)).

(** Modelled from the spec: [Repository.has_source_package_name] is not
    part of the sources; it tells whether the repository has an entry for
    any version of the package with this name. *)
Definition has_source_package_name (s : Store) (repository : Repository)
    (name : string) : bool :=
  bool_decide (Exists (λ e, entry_repository e = repository
                            ∧ sp_name (entry_source_package e) = name)
                 (repository_entries s)).

(** Modelled from the spec: [Repository.add_source_package] is not part of
    the sources; it creates the entry that links the version into the
    repository, with the repository-local fields, and returns it. *)
Definition add_source_package (repository : Repository)
    (src_pkg : SourcePackage) (priority section : string)
  : Run SourcePackageRepositoryEntry :=
  t ← get;
  let entry := mkEntry (next_entry_id (db t)) repository src_pkg
                 priority section in
  modify (update_db (λ s,
    set_next_entry_id (S (next_entry_id s))
      (set_repository_entries (repository_entries s ++ [entry]) s))) ;;
  mret entry.

(** [SourcePackageRepositoryEntry.objects.get(repository=.., source_package=..)];
    repository and version are the unique key of an entry, so the first
    match is the only one. *)
Definition SourcePackageRepositoryEntry_get (repository : Repository)
    (src_pkg : SourcePackage) : Run SourcePackageRepositoryEntry :=
  t ← get;
  match list_find (λ e, entry_repository e = repository
                        ∧ entry_source_package e = src_pkg)
          (repository_entries (db t)) with
  | Some (_, e) => mret e
  | None => raise DoesNotExist
  end.

Section UpdateRepositories.
(** [vendor.call('allow_package', stanza)]: the pair [(allow, implemented)]. *)
Variable allow_package : Stanza → option bool * bool.
(** [pts.core.utils.packages.extract_information_from_sources_entry] *)
Variable extract_information_from_sources_entry : Stanza → SourcesEntry.
(** The paragraphs of a cached [Sources] file; [None] when the file
    cannot be opened. *)
Variable open_sources : string → option (list Stanza).

(** [_extract_information_from_sources_entry] *)
Definition _extract_information_from_sources_entry
    (src_pkg : SourcePackage) (stanza : Stanza) : Run ConvertedEntry :=
  let entry := extract_information_from_sources_entry stanza in
  t ← get;
  (* unknown architectures are discarded *)
  let archs :=
    (λ names, filter (λ a, a ∈ names) (architectures (db t)))
      <$> se_architectures entry in
  binaries ←
    match se_binary_packages entry with
    | None => mret None
    | Some names =>
        t ← get;
        let existing_binaries_names :=
          filter (λ b, b ∈ names) (binary_package_names (db t)) in
        binaries ←
          fold_each names existing_binaries_names
            (λ binaries binary_name,
               if decide (binary_name ∉ existing_binaries_names) then
                 b ← BinaryPackageName_create binary_name;
                 raise_event "new-binary-package"
                   [("name", Str binary_name)] ;;
                 mret (binaries ++ [b])
               else mret binaries);
        mret (Some binaries)
    end;
  maintainer ←
    match se_maintainer entry with
    | None => mret None
    | Some m =>
        maintainer_email ← ContributorEmail_get_or_create (c_email m);
        maintainer ← ContributorName_get_or_create maintainer_email
                       (default "" (c_name m));
        mret (Some maintainer)
    end;
  uploaders ←
    match se_uploaders entry with
    | None => mret None
    | Some us =>
        t ← get;
        let existing_contributor_emails :=
          filter (λ e, e ∈ c_email <$> us) (contributor_emails (db t)) in
        uploaders ←
          fold_each us []
            (λ uploaders u,
               contributor_email ←
                 (if decide (c_email u ∉ existing_contributor_emails)
                  then ContributorEmail_create (c_email u)
                  else mret (c_email u));
               c ← ContributorName_get_or_create contributor_email
                     (default "" (c_name u));
               mret (uploaders ++ [c]));
        mret (Some uploaders)
    end;
  mret (mkConvertedEntry archs binaries maintainer uploaders
          (se_fields entry)).

(** [_update_sources_file], the package name of a paragraph (the
    [get_or_create] of the [SourcePackageName] and its event). *)
Definition ensure_source_package_name (stanza : Stanza) : Run PackageName :=
  package ← stanza_item stanza "package";
  '(src_pkg_name, created) ← SourcePackageName_get_or_create package;
  (if created : bool then
     raise_event "new-source-package" [("name", Str (pn_name src_pkg_name))]
   else mret tt) ;;
  mret src_pkg_name.

(** [_update_sources_file], the version of a paragraph (the
    [get_or_create] of the [SourcePackage], its event, and the data
    extracted for a new version). *)
Definition ensure_source_package (src_pkg_name : PackageName)
    (stanza : Stanza) : Run SourcePackage :=
  version ← stanza_item stanza "version";
  '(src_pkg, created_new_version) ←
    SourcePackage_get_or_create (pn_name src_pkg_name) version;
  if created_new_version : bool then
    raise_event "new-source-package-version"
      [("name", Str (sp_name src_pkg));
       ("version", Str (sp_version src_pkg));
       ("pk", Int (sp_pk src_pkg))] ;;
    entry ← _extract_information_from_sources_entry src_pkg stanza;
    let updated := SourcePackage_update src_pkg entry in
    SourcePackage_save src_pkg updated ;;
    mret updated
  else mret src_pkg.

(** [_update_sources_file], the repository entry of a paragraph: the test
    [if not repository.has_source_package(src_pkg)] with its two branches
    and the final [_add_processed_repository_entry]. *)
Definition ensure_repository_entry (repository : Repository)
    (src_pkg : SourcePackage) (stanza : Stanza) : Run unit :=
  t ← get;
  entry ←
    (if negb (has_source_package (db t) repository src_pkg) then
       (if negb (has_source_package_name (db t) repository (sp_name src_pkg))
        then raise_event "new-source-package-in-repository"
               [("name", Str (sp_name src_pkg));
                ("repository", Str repository)]
        else mret tt) ;;
       entry ← add_source_package repository src_pkg
                 (default "" (stanza_get "priority" stanza))
                 (default "" (stanza_get "section" stanza));
       raise_event "new-source-package-version-in-repository"
         [("name", Str (sp_name src_pkg));
          ("version", Str (sp_version src_pkg));
          ("repository", Str repository)] ;;
       mret entry
     else SourcePackageRepositoryEntry_get repository src_pkg);
  _add_processed_repository_entry entry.

(** Whether the vendor rule keeps the paragraph out:
    [allow is not None and implemented and not allow]. *)
Definition rejected (stanza : Stanza) : bool :=
  let '(allow, implemented) := allow_package stanza in
  match allow with
  | Some allow => implemented && negb allow
  | None => false
  end.

(** The body of the loop of [_update_sources_file]. *)
Definition update_sources_stanza (repository : Repository)
    (stanza : Stanza) : Run unit :=
  if rejected stanza then mret tt
  else
    src_pkg_name ← ensure_source_package_name stanza;
    src_pkg ← ensure_source_package src_pkg_name stanza;
    ensure_repository_entry repository src_pkg stanza.

(** [_update_sources_file] *)
Definition _update_sources_file (repository : Repository)
    (sources_file : string) : Run unit :=
  match open_sources sources_file with
  | None => raise (IOError sources_file)
  | Some stanzas => for_each stanzas (update_sources_stanza repository)
  end.

(** The mapping [{stanza['package']: stanza['version'] for stanza in ..}]
    of [_mark_sources_file_not_processed], built paragraph by paragraph
    from [packages]: a later paragraph with the same package name replaces
    the version of an earlier one. *)
Fixpoint packages_of (stanzas : list Stanza) (packages : gmap string string)
  : Result Exception (gmap string string) :=
  match stanzas with
  | [] => Return packages
  | stanza :: rest =>
      match stanza_get "version" stanza with
      | None => Raise (KeyError "version")
      | Some version =>
          match stanza_get "package" stanza with
          | None => Raise (KeyError "package")
          | Some package => packages_of rest (<[package := version]> packages)
          end
      end
  end.

(** A computation that does not touch the task. *)
Definition pure {A} (r : Result Exception A) : Run A := λ t, (r, t).

(** [_mark_sources_file_not_processed] *)
Definition _mark_sources_file_not_processed (repository : Repository)
    (sources_file_name : string) : Run unit :=
  match open_sources sources_file_name with
  | None => raise (IOError sources_file_name)
  | Some stanzas =>
      packages ← pure (packages_of stanzas ∅);
      t ← get;
      let entries :=
        filter (λ e, entry_repository e = repository)
          (repository_entries (db t)) in
      let entries :=
        filter (λ e, sp_name (entry_source_package e) ∈ dom packages)
          entries in
      for_each entries (λ entry,
        match packages !! sp_name (entry_source_package entry) with
        | None => raise (KeyError (sp_name (entry_source_package entry)))
        | Some version =>
            if decide (sp_version (entry_source_package entry) = version)
            then _add_processed_repository_entry entry
            else mret tt
        end)
  end.

(** A query set is evaluated against the store when it is iterated or
    deleted, not when it is built. *)
Definition QuerySet (A : Type) : Type := Store → list A.

(** A table of the store: how to read it, how to write it, and how its
    rows appear in the journal. *)
Record Table (A : Type) := mkTable {
  rows : Store → list A;
  set_rows : list A → Store → Store;
  as_row : A → Row
}.
Arguments mkTable {A}.
Arguments rows {A}.
Arguments set_rows {A}.
Arguments as_row {A}.

Definition SourcePackage_table : Table SourcePackage :=
  mkTable source_packages set_source_packages RowSourcePackage.
Definition PackageName_table : Table PackageName :=
  mkTable package_names set_package_names RowPackageName.
Definition BinaryPackageName_table : Table string :=
  mkTable binary_package_names set_binary_package_names RowBinaryPackageName.
Definition RepositoryEntry_table : Table SourcePackageRepositoryEntry :=
  mkTable repository_entries set_repository_entries RowRepositoryEntry.

(** [qs.delete()]: the rows the query set selects now are removed from
    their table.  (None of the deletions below removes a row that another
    row still refers to.) *)
Definition delete {A} `{EqDecision A} (table : Table A) (qs : QuerySet A)
  : Run unit :=
  modify (λ t,
    let doomed := qs (db t) in
    set_journal (journal t ++ (Deleted ∘ as_row table <$> doomed))
      (update_db (λ s, set_rows table
                         (filter (λ x, x ∉ doomed) (rows table s)) s) t)).

(** [_remove_query_set_if_count_zero].  [count_field] is the annotation
    [Count(count_field)] of a row. *)
Definition _remove_query_set_if_count_zero {A} `{EqDecision A}
    (table : Table A) (qs : QuerySet A) (count_field : Store → A → nat)
    (event_generator : option (A → string * list (string * Arg)))
  : Run unit :=
  let qs : QuerySet A := λ s, filter (λ x, count_field s x = 0) (qs s) in
  match event_generator with
  | Some event_generator =>
      t ← get;
      for_each (qs (db t)) (λ item,
        let '(name, arguments) := event_generator item in
        raise_event name arguments)
  | None => mret tt
  end ;;
  delete table qs.

(** [Count('repository')] of a source package: its repository entries. *)
Definition count_repository (s : Store) (p : SourcePackage) : nat :=
  length (filter (λ e, entry_source_package e = p) (repository_entries s)).

(** [Count('source_package_versions')] of a package name. *)
Definition count_source_package_versions (s : Store) (p : PackageName) : nat :=
  length (filter (λ v, sp_name v = pn_name p) (source_packages s)).

(** [Count('sourcepackage')] of a binary package name. *)
Definition count_sourcepackage (s : Store) (name : string) : nat :=
  length (filter (λ v, name ∈ sp_binary_packages v) (source_packages s)).

Definition lost_version_of_source_package (source_package : SourcePackage)
  : string * list (string * Arg) :=
  ("lost-version-of-source-package",
   [("name", Str (sp_name source_package));
    ("version", Str (sp_version source_package))]).

Definition lost_source_package (package : PackageName)
  : string * list (string * Arg) :=
  ("lost-source-package", [("name", Str (pn_name package))]).

Definition lost_binary_package (binary_package_name : string)
  : string * list (string * Arg) :=
  ("lost-binary-package", [("name", Str binary_package_name)]).

(** [_remove_obsolete_packages] *)
Definition _remove_obsolete_packages : Run unit :=
  _remove_query_set_if_count_zero SourcePackage_table
    source_packages count_repository
    (Some lost_version_of_source_package) ;;
  _remove_query_set_if_count_zero PackageName_table
    SourcePackageName_all count_source_package_versions
    (Some lost_source_package) ;;
  _remove_query_set_if_count_zero BinaryPackageName_table
    binary_package_names count_sourcepackage
    (Some lost_binary_package).

(** [_update_repository_entries] *)
Definition _update_repository_entries (repository : Repository) : Run unit :=
  t ← get;
  let processed := _all_repository_entries t in
  let repository_entries_qs : QuerySet SourcePackageRepositoryEntry :=
    λ s, filter (λ e, entry_id e ∉ processed)
           (filter (λ e, entry_repository e = repository)
              (repository_entries s)) in
  for_each (repository_entries_qs (db t)) (λ entry,
    let source_package := entry_source_package entry in
    raise_event "lost-source-package-version-in-repository"
      [("name", Str (sp_name source_package));
       ("version", Str (sp_version source_package));
       ("repository", Str (entry_repository entry))]) ;;
  delete RepositoryEntry_table repository_entries_qs ;;
  _clear_processed_repository_entries.

(** [AptCache.update_repositories(force)]: the updated [Sources] and
    [Packages] files with their repositories, unless the update fails. *)
Variable update_repositories :
  bool → Result Exception
           (list (Repository * string) * list (Repository * string)).
(** [AptCache.get_sources_files_for_repository] *)
Variable get_sources_files_for_repository : Repository → list string.

(** [repository_files.setdefault(repository, []); .append(sources_file)] *)
Fixpoint setdefault_append (repository : Repository) (sources_file : string)
    (repository_files : list (Repository * list string))
  : list (Repository * list string) :=
  match repository_files with
  | [] => [(repository, [sources_file])]
  | (r, files) :: rest =>
      if decide (r = repository) then (r, files ++ [sources_file]) :: rest
      else (r, files) :: setdefault_append repository sources_file rest
  end.

(** The files grouped by the repository they belong to; the repositories
    are taken in the order of their first file. *)
Definition group_by_repository (updated_sources : list (Repository * string))
  : list (Repository * list string) :=
  foldl (λ repository_files '(repository, sources_file),
           setdefault_append repository sources_file repository_files)
    [] updated_sources.

(** The body of the loop of [execute] over the repositories, up to the
    call of [_update_repository_entries]: the updated files are processed,
    then the cached files that were not updated are read again. *)
Definition handle_sources_files (repository : Repository)
    (sources_files : list string) : Run unit :=
  for_each sources_files (_update_sources_file repository) ;;
  let all_sources := get_sources_files_for_repository repository in
  for_each all_sources (λ sources_file,
    if decide (sources_file ∉ sources_files) then
      _mark_sources_file_not_processed repository sources_file
    else mret tt).

(** The body of the loop of [execute] over the repositories. *)
Definition update_repository (item : Repository * list string) : Run unit :=
  let '(repository, sources_files) := item in
  handle_sources_files repository sources_files ;;
  _update_repository_entries repository.

(** [with transaction.commit_on_success():] the changes of the block are
    committed when it ends normally and rolled back when it raises. *)
Definition commit_on_success {A} (block : Run A) : Run A :=
  λ t, match block t with
       | (Return a, t') => (Return a, t')
       | (Raise e, t') => (Raise e, set_db (db t) t')
       end.

(** Modelled from the spec: the decorator [clear_all_events_on_exception]
    ([pts.core.tasks]) is not part of the sources.  When the decorated
    method raises, all events the task raised are discarded and the
    exception goes on. *)
Definition clear_all_events_on_exception {A} (method : Run A) : Run A :=
  λ t, match method t with
       | (Return a, t') => (Return a, t')
       | (Raise e, t') => (Raise e, set_events [] t')
       end.

(** [UpdateRepositoriesTask.execute] *)
Definition execute : Run unit :=
  clear_all_events_on_exception (
    t ← get;
    match update_repositories (force_update t) with
    | Raise e => raise e
    | Return (updated_sources, updated_packages) =>
        let repository_files := group_by_repository updated_sources in
        commit_on_success (
          for_each repository_files update_repository ;;
          _remove_obsolete_packages)
    end).

(** *** Properties of [UpdateRepositoriesTask] *)

Lemma raise_event_declared (name : string) arguments (t : Task) :
  bool_decide (name ∈ PRODUCES_EVENTS) = true →
  raise_event name arguments t
  = (Return tt, record_event (mkEvent name arguments) t).
Proof. intros H. unfold raise_event. by rewrite H. Qed.

Ltac run_step :=
  unfold mbind, M_bind, mret, M_ret, get, modify, raise; cbn beta iota.

Lemma has_source_package_has_name (s : Store) repository src_pkg :
  has_source_package s repository src_pkg = true →
  has_source_package_name s repository (sp_name src_pkg) = true.
Proof.
  unfold has_source_package, has_source_package_name.
  intros H%bool_decide_eq_true. apply bool_decide_eq_true.
  apply Exists_exists in H as (e & He & Hr & Hp).
  apply Exists_exists. exists e. by rewrite Hp.
Qed.

(** The entry [ensure_repository_entry] creates in task [t]. *)
Definition created_entry repository src_pkg (stanza : Stanza) (t : Task)
  : SourcePackageRepositoryEntry :=
  mkEntry (next_entry_id (db t)) repository src_pkg
    (default "" (stanza_get "priority" stanza))
    (default "" (stanza_get "section" stanza)).

Lemma ensure_repository_entry_existing repository src_pkg stanza (t : Task) :
  has_source_package (db t) repository src_pkg = true →
  ∃ entry,
    entry ∈ repository_entries (db t)
    ∧ entry_repository entry = repository
    ∧ entry_source_package entry = src_pkg
    ∧ ensure_repository_entry repository src_pkg stanza t
      = (Return tt,
         set_all_repository_entries
           (_all_repository_entries t ++ [entry_id entry]) t).
Proof.
  intros Hv. unfold ensure_repository_entry. run_step. rewrite Hv.
  cbn [negb]. unfold SourcePackageRepositoryEntry_get. run_step.
  destruct (list_find _ (repository_entries (db t))) as [[i e]|] eqn:Hf.
  - apply list_find_Some in Hf as (Hi & [Hr Hp] & _).
    exists e. split_and!; try done.
    by eapply list_elem_of_lookup_2.
  - apply list_find_None in Hf.
    unfold has_source_package in Hv. apply bool_decide_eq_true in Hv.
    apply Exists_exists in Hv as (e & He & HP).
    rewrite Forall_forall in Hf. by destruct (Hf e He).
Qed.

Lemma ensure_repository_entry_created repository src_pkg stanza (t : Task) :
  has_source_package (db t) repository src_pkg = false →
  ∃ t',
    ensure_repository_entry repository src_pkg stanza t = (Return tt, t')
    ∧ db t' = set_next_entry_id (S (next_entry_id (db t)))
                (set_repository_entries
                   (repository_entries (db t)
                    ++ [created_entry repository src_pkg stanza t]) (db t))
    ∧ events t'
      = events t
        ++ (if has_source_package_name (db t) repository (sp_name src_pkg)
            then []
            else [mkEvent "new-source-package-in-repository"
                    [("name", Str (sp_name src_pkg));
                     ("repository", Str repository)]])
        ++ [mkEvent "new-source-package-version-in-repository"
              [("name", Str (sp_name src_pkg));
               ("version", Str (sp_version src_pkg));
               ("repository", Str repository)]]
    ∧ _all_repository_entries t'
      = _all_repository_entries t ++ [next_entry_id (db t)].
Proof.
  intros Hv. unfold ensure_repository_entry. run_step. rewrite Hv.
  cbn [negb].
  destruct (has_source_package_name _ _ _); cbn [negb].
  - unfold add_source_package. run_step.
    rewrite raise_event_declared by done.
    eexists. split; [reflexivity|]. by destruct t.
  - rewrite raise_event_declared by done.
    unfold add_source_package. run_step.
    rewrite raise_event_declared by done.
    eexists. split; [reflexivity|]. destruct t. cbn.
    split_and!; try done. by rewrite <-app_assoc.
Qed.

(** C1.  Once the version of a paragraph exists, [_update_sources_file]
    treats its repository entry as follows.  If the repository has no entry
    for this version it creates one and raises
    [new-source-package-version-in-repository] (name, version, repository),
    preceded by [new-source-package-in-repository] (name, repository)
    exactly when the repository has no entry for any version of the name.
    If the entry exists already, no event is raised and nothing is written:
    the entry is only recorded as still present.  A repository without an
    entry for the name has none for the version. *)
Theorem repository_entry_events repository src_pkg stanza (t : Task) :
  let has_version := has_source_package (db t) repository src_pkg in
  let has_name :=
    has_source_package_name (db t) repository (sp_name src_pkg) in
  let in_repository :=
    mkEvent "new-source-package-in-repository"
      [("name", Str (sp_name src_pkg)); ("repository", Str repository)] in
  let version_in_repository :=
    mkEvent "new-source-package-version-in-repository"
      [("name", Str (sp_name src_pkg));
       ("version", Str (sp_version src_pkg));
       ("repository", Str repository)] in
  let created :=
    mkEntry (next_entry_id (db t)) repository src_pkg
      (default "" (stanza_get "priority" stanza))
      (default "" (stanza_get "section" stanza)) in
  implb has_version has_name = true
  ∧ if has_version then
      ∃ entry,
        entry ∈ repository_entries (db t)
        ∧ entry_repository entry = repository
        ∧ entry_source_package entry = src_pkg
        ∧ ensure_repository_entry repository src_pkg stanza t
          = (Return tt,
             set_all_repository_entries
               (_all_repository_entries t ++ [entry_id entry]) t)
    else
      ∃ t',
        ensure_repository_entry repository src_pkg stanza t = (Return tt, t')
        ∧ db t' = set_next_entry_id (S (next_entry_id (db t)))
                    (set_repository_entries
                       (repository_entries (db t) ++ [created]) (db t))
        ∧ events t' = events t
                      ++ (if has_name then [] else [in_repository])
                      ++ [version_in_repository]
        ∧ _all_repository_entries t'
          = _all_repository_entries t ++ [entry_id created].
Proof.
  intros has_version has_name in_repository version_in_repository created.
  split.
  { destruct has_version eqn:Hv; [|done]. subst has_name. cbn.
    by apply has_source_package_has_name. }
  destruct has_version eqn:Hv.
  - by apply ensure_repository_entry_existing.
  - destruct (ensure_repository_entry_created repository src_pkg stanza t Hv)
      as (t' & Hrun & Hdb & Hev & Hproc).
    exists t'. by split_and!.
Qed.

(** A computation that always returns and relates the state it leaves to
    the state it found by [R]. *)
Definition returns {A} (R : relation Task) (c : Run A) : Prop :=
  ∀ t, ∃ a t', c t = (Return a, t') ∧ R t t'.

Lemma returns_ret {A} (R : relation Task) `{!Reflexive R} (a : A) :
  returns R (mret a).
Proof. intros t. exists a, t. split; [done|reflexivity]. Qed.

Lemma returns_get (R : relation Task) `{!Reflexive R} : returns R get.
Proof. intros t. exists t, t. split; [done|reflexivity]. Qed.

Lemma returns_modify (R : relation Task) (f : Task → Task) :
  (∀ t, R t (f t)) → returns R (modify f).
Proof. intros H t. by exists tt, (f t). Qed.

Lemma returns_bind {A B} (R : relation Task) `{!Transitive R}
    (c : Run A) (k : A → Run B) :
  returns R c → (∀ a, returns R (k a)) → returns R (c ≫= k).
Proof.
  intros Hc Hk t. destruct (Hc t) as (a & t1 & Hc1 & HR1).
  destruct (Hk a t1) as (b & t2 & Hk2 & HR2).
  exists b, t2. split; [|by etrans].
  unfold mbind, M_bind. by rewrite Hc1.
Qed.

Lemma returns_fold_each {A B} (R : relation Task) `{!PreOrder R}
    (l : list A) (acc : B) (body : B → A → Run B) :
  (∀ acc x, returns R (body acc x)) → returns R (fold_each l acc body).
Proof.
  intros Hbody. revert acc. induction l as [|x l IH]; intros acc.
  - apply returns_ret; apply _.
  - cbn [fold_each]. apply returns_bind; [apply _|apply Hbody|apply IH].
Qed.

(** What converting the data of a new version may do: create binary
    package names, raising [new-binary-package] for each, and create
    contributors. *)
Record adds_binaries_and_contributors (t t' : Task) : Prop := {
  abc_package_names : package_names (db t') = package_names (db t);
  abc_source_packages : source_packages (db t') = source_packages (db t);
  abc_repository_entries :
    repository_entries (db t') = repository_entries (db t);
  abc_architectures : architectures (db t') = architectures (db t);
  abc_next_pk : next_source_package_pk (db t') = next_source_package_pk (db t);
  abc_next_id : next_entry_id (db t') = next_entry_id (db t);
  abc_processed : _all_repository_entries t' = _all_repository_entries t;
  abc_force_update : force_update t' = force_update t;
  abc_events :
    ∃ binary_events,
      events t' = events t ++ binary_events
      ∧ journal t' = journal t ++ (Raised <$> binary_events)
      ∧ Forall (λ e, event_name e = "new-binary-package") binary_events
}.

Global Instance adds_binaries_and_contributors_preorder :
  PreOrder adds_binaries_and_contributors.
Proof.
  split.
  - intros t. split; try done. exists []. by rewrite !app_nil_r.
  - intros t1 t2 t3 [] []. split; try congruence.
    destruct abc_events0 as (l1 & He1 & Hj1 & Hl1).
    destruct abc_events1 as (l2 & He2 & Hj2 & Hl2).
    exists (l1 ++ l2). rewrite He2, He1, Hj2, Hj1, fmap_app, <-!app_assoc.
    split_and!; try done. by apply Forall_app.
Qed.

Lemma abc_no_event (t t' : Task) :
  package_names (db t') = package_names (db t) →
  source_packages (db t') = source_packages (db t) →
  repository_entries (db t') = repository_entries (db t) →
  architectures (db t') = architectures (db t) →
  next_source_package_pk (db t') = next_source_package_pk (db t) →
  next_entry_id (db t') = next_entry_id (db t) →
  _all_repository_entries t' = _all_repository_entries t →
  force_update t' = force_update t →
  events t' = events t → journal t' = journal t →
  adds_binaries_and_contributors t t'.
Proof.
  intros. split; try done. exists []. by rewrite !app_nil_r.
Qed.

Lemma ContributorEmail_create_returns email :
  returns adds_binaries_and_contributors (ContributorEmail_create email).
Proof.
  unfold ContributorEmail_create.
  apply returns_bind; [apply _| |intros; apply returns_ret; apply _].
  apply returns_modify. intros t. by apply abc_no_event.
Qed.

Lemma ContributorEmail_get_or_create_returns email :
  returns adds_binaries_and_contributors
    (ContributorEmail_get_or_create email).
Proof.
  unfold ContributorEmail_get_or_create.
  apply returns_bind; [apply _|apply returns_get; apply _|]. intros t.
  case_decide; [apply returns_ret; apply _|].
  apply ContributorEmail_create_returns.
Qed.

Lemma ContributorName_get_or_create_returns email name :
  returns adds_binaries_and_contributors
    (ContributorName_get_or_create email name).
Proof.
  unfold ContributorName_get_or_create.
  apply returns_bind; [apply _|apply returns_get; apply _|]. intros t.
  case_decide; [apply returns_ret; apply _|].
  apply returns_bind; [apply _| |intros; apply returns_ret; apply _].
  apply returns_modify. intros t'. by apply abc_no_event.
Qed.

Lemma new_binary_package_returns binary_name :
  returns adds_binaries_and_contributors
    (raise_event "new-binary-package" [("name", Str binary_name)]).
Proof.
  intros t. rewrite raise_event_declared by done.
  eexists _, _. split; [done|]. split; try done.
  exists [mkEvent "new-binary-package" [("name", Str binary_name)]].
  split_and!; try done. by repeat constructor.
Qed.

Lemma BinaryPackageName_create_returns name :
  returns adds_binaries_and_contributors (BinaryPackageName_create name).
Proof.
  unfold BinaryPackageName_create.
  apply returns_bind; [apply _| |intros; apply returns_ret; apply _].
  apply returns_modify. intros t. by apply abc_no_event.
Qed.

(** The conversion of the extracted data always succeeds, and only adds
    binary package names and contributors. *)
Lemma _extract_information_returns src_pkg stanza :
  returns adds_binaries_and_contributors
    (_extract_information_from_sources_entry src_pkg stanza).
Proof.
  unfold _extract_information_from_sources_entry.
  apply returns_bind; [apply _|apply returns_get; apply _|]. intros t.
  apply returns_bind; [apply _| |intros binaries].
  { destruct (se_binary_packages _) as [names|];
      [|apply returns_ret; apply _].
    apply returns_bind; [apply _|apply returns_get; apply _|]. intros t1.
    apply returns_bind; [apply _| |intros; apply returns_ret; apply _].
    apply returns_fold_each; [apply _|]. intros acc x.
    case_decide; [|apply returns_ret; apply _].
    apply returns_bind;
      [apply _|apply BinaryPackageName_create_returns|intros b].
    apply returns_bind;
      [apply _|apply new_binary_package_returns|intros].
    apply returns_ret; apply _. }
  apply returns_bind; [apply _| |intros maintainer].
  { destruct (se_maintainer _) as [m|]; [|apply returns_ret; apply _].
    apply returns_bind;
      [apply _|apply ContributorEmail_get_or_create_returns|intros e].
    apply returns_bind;
      [apply _|apply ContributorName_get_or_create_returns|intros c].
    apply returns_ret; apply _. }
  apply returns_bind; [apply _| |intros uploaders].
  { destruct (se_uploaders _) as [us|]; [|apply returns_ret; apply _].
    apply returns_bind; [apply _|apply returns_get; apply _|]. intros t1.
    apply returns_bind; [apply _| |intros; apply returns_ret; apply _].
    apply returns_fold_each; [apply _|]. intros acc u.
    apply returns_bind; [apply _| |intros e].
    { case_decide; [apply ContributorEmail_create_returns|].
      apply returns_ret; apply _. }
    apply returns_bind;
      [apply _|apply ContributorName_get_or_create_returns|intros c].
    apply returns_ret; apply _. }
  apply returns_ret; apply _.
Qed.

Lemma _extract_information_fields src_pkg stanza (t t' : Task) entry :
  _extract_information_from_sources_entry src_pkg stanza t
    = (Return entry, t') →
  ce_fields entry = se_fields (extract_information_from_sources_entry stanza)
  ∧ ce_architectures entry
    = (λ names, filter (λ a, a ∈ names) (architectures (db t)))
        <$> se_architectures (extract_information_from_sources_entry stanza).
Proof.
  unfold _extract_information_from_sources_entry. run_step.
  repeat match goal with
         | |- context [match ?c ?s with _ => _ end] =>
             destruct (c s) as [[?|?] ?]
         end; try done.
  by intros [= <- _].
Qed.

Lemma save_created_row (l : list SourcePackage) (stored new : SourcePackage) :
  stored ∉ l →
  (λ p, if decide (p = stored) then new else p) <$> (l ++ [stored])
  = l ++ [new].
Proof.
  intros Hl. rewrite fmap_app. cbn. rewrite decide_True by done. f_equal.
  rewrite <-(list_fmap_id l) at 2. apply list_fmap_ext.
  intros i x Hx. rewrite decide_False; [done|]. intros ->.
  apply Hl. by eapply list_elem_of_lookup_2.
Qed.

Lemma ensure_source_package_existing (src_pkg_name : PackageName)
    (stanza : Stanza) (t : Task) version i existing :
  stanza_get "version" stanza = Some version →
  list_find (λ p, sp_name p = pn_name src_pkg_name ∧ sp_version p = version)
    (source_packages (db t)) = Some (i, existing) →
  ensure_source_package src_pkg_name stanza t = (Return existing, t).
Proof.
  intros Hver Hf. unfold ensure_source_package, stanza_item. rewrite Hver.
  run_step. unfold SourcePackage_get_or_create. run_step. by rewrite Hf.
Qed.

(** The row [ensure_source_package] creates in task [t], before any data
    is attached. *)
Definition created_version (name version : string) (t : Task)
  : SourcePackage :=
  mkSourcePackage (next_source_package_pk (db t)) name version
    [] [] None [] [].

Lemma ensure_source_package_created (src_pkg_name : PackageName)
    (stanza : Stanza) (t : Task) version :
  stanza_get "version" stanza = Some version →
  list_find (λ p, sp_name p = pn_name src_pkg_name ∧ sp_version p = version)
    (source_packages (db t)) = None →
  let created := created_version (pn_name src_pkg_name) version t in
  ∃ entry binary_events t',
    ensure_source_package src_pkg_name stanza t
    = (Return (SourcePackage_update created entry), t')
    ∧ source_packages (db t')
      = source_packages (db t) ++ [SourcePackage_update created entry]
    ∧ ce_fields entry
      = se_fields (extract_information_from_sources_entry stanza)
    ∧ ce_architectures entry
      = (λ names, filter (λ a, a ∈ names) (architectures (db t)))
          <$> se_architectures
                (extract_information_from_sources_entry stanza)
    ∧ events t'
      = events t
        ++ mkEvent "new-source-package-version"
             [("name", Str (pn_name src_pkg_name));
              ("version", Str version);
              ("pk", Int (next_source_package_pk (db t)))]
           :: binary_events
    ∧ Forall (λ e, event_name e = "new-binary-package") binary_events
    ∧ package_names (db t') = package_names (db t)
    ∧ repository_entries (db t') = repository_entries (db t)
    ∧ next_source_package_pk (db t') = S (next_source_package_pk (db t))
    ∧ next_entry_id (db t') = next_entry_id (db t)
    ∧ _all_repository_entries t' = _all_repository_entries t.
Proof.
  intros Hver Hf created.
  unfold ensure_source_package, stanza_item. rewrite Hver.
  run_step. unfold SourcePackage_get_or_create. run_step. rewrite Hf.
  run_step. rewrite raise_event_declared by done.
  fold (created_version (pn_name src_pkg_name) version t). fold created.
  set (t1 := record_event _ _).
  destruct (_extract_information_returns created stanza t1)
    as (entry & t2 & Hex & Habc).
  rewrite Hex. unfold SourcePackage_save. run_step.
  destruct (_extract_information_fields _ _ _ _ _ Hex) as [Hfields Harchs].
  destruct Habc as [? Hsp ? ? ? ? ? ? (binary_events & Hev & _ & Hbin)].
  exists entry, binary_events. eexists. split; [reflexivity|].
  cbn. rewrite Hsp. cbn.
  split_and!; try done.
  - apply save_created_row. apply list_find_None in Hf.
    rewrite Forall_forall in Hf. intros Hin. by apply (Hf _ Hin).
  - rewrite Hev. cbn. by rewrite <-app_assoc.
Qed.

(** C7.  The version of a paragraph either exists already or is created.
    An existing version is returned as it is stored: nothing at all is
    written and no event is raised.  Only a created version gets the data
    extracted from the paragraph, and exactly then
    [new-source-package-version] (name, version, pk) is raised; the other
    events of that step announce new binary package names. *)
Theorem version_data_only_when_created (src_pkg_name : PackageName)
    (stanza : Stanza) (t : Task) :
  match stanza_get "version" stanza with
  | None =>
      ensure_source_package src_pkg_name stanza t
      = (Raise (KeyError "version"), t)
  | Some version =>
      match list_find (λ p, sp_name p = pn_name src_pkg_name
                            ∧ sp_version p = version)
              (source_packages (db t)) with
      | Some (_, existing) =>
          ensure_source_package src_pkg_name stanza t = (Return existing, t)
      | None =>
          let created :=
            mkSourcePackage (next_source_package_pk (db t))
              (pn_name src_pkg_name) version [] [] None [] [] in
          let event :=
            mkEvent "new-source-package-version"
              [("name", Str (pn_name src_pkg_name));
               ("version", Str version);
               ("pk", Int (next_source_package_pk (db t)))] in
          ∃ entry binary_events t',
            ensure_source_package src_pkg_name stanza t
            = (Return (SourcePackage_update created entry), t')
            ∧ source_packages (db t')
              = source_packages (db t) ++ [SourcePackage_update created entry]
            ∧ ce_fields entry
              = se_fields (extract_information_from_sources_entry stanza)
            ∧ ce_architectures entry
              = (λ names, filter (λ a, a ∈ names) (architectures (db t)))
                  <$> se_architectures
                        (extract_information_from_sources_entry stanza)
            ∧ events t' = events t ++ event :: binary_events
            ∧ Forall (λ e, event_name e = "new-binary-package") binary_events
            ∧ package_names (db t') = package_names (db t)
            ∧ repository_entries (db t') = repository_entries (db t)
            ∧ next_source_package_pk (db t')
              = S (next_source_package_pk (db t))
            ∧ next_entry_id (db t') = next_entry_id (db t)
            ∧ _all_repository_entries t' = _all_repository_entries t
      end
  end.
Proof.
  destruct (stanza_get "version" stanza) as [version|] eqn:Hver.
  - destruct (list_find _ (source_packages (db t))) as [[i existing]|] eqn:Hf.
    + by eapply ensure_source_package_existing.
    + by apply ensure_source_package_created.
  - unfold ensure_source_package, stanza_item. by rewrite Hver.
Qed.

(** **** Garbage collection *)

(** The task after the events [evs] were raised in turn. *)
Definition record_events (evs : list Event) (t : Task) : Task :=
  set_journal (journal t ++ (Raised <$> evs)) (set_events (events t ++ evs) t).

Lemma record_events_nil (t : Task) : record_events [] t = t.
Proof. destruct t. unfold record_events. cbn. by rewrite !app_nil_r. Qed.

Lemma record_events_cons e evs (t : Task) :
  record_events evs (record_event e t) = record_events (e :: evs) t.
Proof.
  destruct t. unfold record_events, record_event. cbn.
  by rewrite <-!app_assoc.
Qed.

Definition event_of {A} (event_generator : A → string * list (string * Arg))
    (item : A) : Event :=
  mkEvent (event_generator item).1 (event_generator item).2.

Lemma raise_generated_events {A}
    (event_generator : A → string * list (string * Arg))
    (items : list A) (t : Task) :
  (∀ x, bool_decide ((event_generator x).1 ∈ PRODUCES_EVENTS) = true) →
  for_each items (λ item,
    let '(name, arguments) := event_generator item in
    raise_event name arguments) t
  = (Return tt, record_events (event_of event_generator <$> items) t).
Proof.
  intros Hdecl. revert t. induction items as [|x items IH]; intros t.
  - cbn. by rewrite record_events_nil.
  - cbn [for_each]. run_step. specialize (Hdecl x). rewrite fmap_cons.
    change (event_of event_generator x)
      with (mkEvent (event_generator x).1 (event_generator x).2).
    destruct (event_generator x) as [name arguments].
    rewrite raise_event_declared by done. rewrite IH.
    by rewrite record_events_cons.
Qed.

(** The rows [_remove_query_set_if_count_zero] selects in store [s]. *)
Definition zero_count {A} (qs : QuerySet A) (count_field : Store → A → nat)
  : QuerySet A :=
  λ s, filter (λ x, count_field s x = 0) (qs s).

(** The task after the selected rows were deleted. *)
Definition deleted {A} `{EqDecision A} (table : Table A) (doomed : list A)
    (t : Task) : Task :=
  set_journal (journal t ++ (Deleted ∘ as_row table <$> doomed))
    (update_db (λ s, set_rows table
                       (filter (λ x, x ∉ doomed) (rows table s)) s) t).

Lemma _remove_query_set_if_count_zero_run {A} `{EqDecision A}
    (table : Table A) (qs : QuerySet A) count_field event_generator
    (t : Task) :
  (∀ x, bool_decide ((event_generator x).1 ∈ PRODUCES_EVENTS) = true) →
  let doomed := zero_count qs count_field (db t) in
  _remove_query_set_if_count_zero table qs count_field (Some event_generator) t
  = (Return tt,
     deleted table doomed
       (record_events (event_of event_generator <$> doomed) t)).
Proof.
  intros Hdecl doomed. unfold _remove_query_set_if_count_zero. run_step.
  fold (zero_count qs count_field (db t)). fold doomed.
  rewrite raise_generated_events by done.
  unfold delete, modify. by destruct t.
Qed.

(** The three stages of [_remove_obsolete_packages], from task [t]. *)
Definition lost_versions (t : Task) : list SourcePackage :=
  zero_count source_packages count_repository (db t).

Definition after_versions (t : Task) : Task :=
  deleted SourcePackage_table (lost_versions t)
    (record_events
       (event_of lost_version_of_source_package <$> lost_versions t) t).

Definition lost_names (t : Task) : list PackageName :=
  zero_count SourcePackageName_all count_source_package_versions
    (db (after_versions t)).

Definition after_names (t : Task) : Task :=
  deleted PackageName_table (lost_names t)
    (record_events (event_of lost_source_package <$> lost_names t)
       (after_versions t)).

Definition lost_binaries (t : Task) : list string :=
  zero_count binary_package_names count_sourcepackage (db (after_names t)).

Definition after_binaries (t : Task) : Task :=
  deleted BinaryPackageName_table (lost_binaries t)
    (record_events (event_of lost_binary_package <$> lost_binaries t)
       (after_names t)).

Lemma _remove_obsolete_packages_run (t : Task) :
  _remove_obsolete_packages t = (Return tt, after_binaries t).
Proof.
  unfold _remove_obsolete_packages. run_step.
  rewrite _remove_query_set_if_count_zero_run by done.
  fold (lost_versions t). fold (after_versions t).
  rewrite _remove_query_set_if_count_zero_run by done.
  fold (lost_names t). fold (after_names t).
  by rewrite _remove_query_set_if_count_zero_run by done.
Qed.

Lemma after_binaries_source_packages (t : Task) :
  source_packages (db (after_binaries t))
  = filter (λ v, v ∉ lost_versions t) (source_packages (db t)).
Proof. done. Qed.

Lemma after_binaries_package_names (t : Task) :
  package_names (db (after_binaries t))
  = filter (λ n, n ∉ lost_names t) (package_names (db t)).
Proof. done. Qed.

Lemma after_versions_source_packages (t : Task) :
  source_packages (db (after_versions t))
  = source_packages (db (after_binaries t)).
Proof. done. Qed.

(** C3.  After [_remove_obsolete_packages], a version that was stored is
    gone if and only if it had no repository entry in any repository, and a
    source package name that was stored is gone if and only if no version
    of it remains.  Nothing else leaves these two tables: a version or name
    with a nonzero count stays, and so does every package name that is not
    a source package name. *)
Theorem garbage_collection_by_count (t : Task) :
  let s := db t in
  let s' := db (_remove_obsolete_packages t).2 in
  (_remove_obsolete_packages t).1 = Return tt
  ∧ (∀ v, v ∈ source_packages s →
          (v ∉ source_packages s' ↔ count_repository s v = 0))
  ∧ (∀ n, n ∈ SourcePackageName_all s →
          (n ∉ package_names s' ↔ count_source_package_versions s' n = 0))
  ∧ (∀ v, v ∈ source_packages s' → v ∈ source_packages s)
  ∧ (∀ n, n ∈ package_names s' → n ∈ package_names s)
  ∧ (∀ n, n ∈ package_names s → package_type n ≠ SOURCE_PACKAGE_TYPE →
          n ∈ package_names s')
  ∧ repository_entries s' = repository_entries s.
Proof.
  rewrite _remove_obsolete_packages_run. cbn [fst snd].
  rewrite after_binaries_source_packages, after_binaries_package_names.
  split_and!; try done.
  - intros v Hv. rewrite list_elem_of_filter.
    unfold lost_versions, zero_count. rewrite list_elem_of_filter.
    split; [|naive_solver]. intros Hn.
    destruct (decide (count_repository (db t) v = 0)); [done|].
    exfalso. apply Hn. naive_solver.
  - intros n Hn. rewrite list_elem_of_filter.
    assert (Hcount : ∀ s1 s2, source_packages s1 = source_packages s2 →
              count_source_package_versions s1 n
              = count_source_package_versions s2 n).
    { intros s1 s2 Heq. unfold count_source_package_versions.
      by rewrite Heq. }
    rewrite (Hcount _ (db (after_versions t)))
      by (by rewrite after_versions_source_packages,
               after_binaries_source_packages).
    unfold lost_names, zero_count. rewrite list_elem_of_filter.
    assert (n ∈ SourcePackageName_all (db (after_versions t))) by done.
    apply list_elem_of_filter in Hn as [_ Hn].
    split; [|naive_solver]. intros Hgone.
    destruct (decide (count_source_package_versions
                        (db (after_versions t)) n = 0)); [done|].
    exfalso. apply Hgone. naive_solver.
  - by intros v [_ ?]%list_elem_of_filter.
  - by intros n [_ ?]%list_elem_of_filter.
  - intros n Hn Htype. apply list_elem_of_filter. split; [|done].
    unfold lost_names, zero_count.
    intros [_ [Hs _]%list_elem_of_filter]%list_elem_of_filter. done.
Qed.

(** The life cycle event that announces the deletion of a row. *)
Definition lost_event (r : Row) : Event :=
  match r with
  | RowSourcePackage v => event_of lost_version_of_source_package v
  | RowPackageName n => event_of lost_source_package n
  | RowBinaryPackageName b => event_of lost_binary_package b
  | RowRepositoryEntry e =>
      mkEvent "lost-source-package-version-in-repository"
        [("name", Str (sp_name (entry_source_package e)));
         ("version", Str (sp_version (entry_source_package e)));
         ("repository", Str (entry_repository e))]
  end.

(** In the stretch [effects] of a journal, every deletion comes after the
    event that announces it; [seen] are the events raised before the
    stretch. *)
Fixpoint deletions_announced (seen : list Event) (effects : list Effect)
  : Prop :=
  match effects with
  | [] => True
  | Raised e :: rest => deletions_announced (e :: seen) rest
  | Deleted r :: rest => lost_event r ∈ seen ∧ deletions_announced seen rest
  end.

Lemma deletions_announced_raised evs seen effects :
  deletions_announced (reverse evs ++ seen) effects →
  deletions_announced seen ((Raised <$> evs) ++ effects).
Proof.
  revert seen. induction evs as [|e evs IH]; intros seen; [done|].
  rewrite reverse_cons, <-app_assoc. cbn. apply IH.
Qed.

Lemma deletions_announced_deleted (doomed : list Row) seen effects :
  Forall (λ r, lost_event r ∈ seen) doomed →
  deletions_announced seen effects →
  deletions_announced seen ((Deleted <$> doomed) ++ effects).
Proof.
  intros Hd He. induction Hd as [|r doomed Hr Hd IH]; [done|].
  cbn. by split.
Qed.

(** One stage: the events for the doomed rows, then their deletion. *)
Lemma deletions_announced_stage {A} (row : A → Row) (doomed : list A)
    seen effects :
  (∀ seen', deletions_announced seen' effects) →
  deletions_announced seen
    ((Raised <$> (lost_event ∘ row <$> doomed))
     ++ (Deleted ∘ row <$> doomed) ++ effects).
Proof.
  intros He. apply deletions_announced_raised.
  rewrite !list_fmap_compose. apply deletions_announced_deleted; [|done].
  apply Forall_fmap, Forall_forall. intros x Hx. cbn.
  apply elem_of_app. left. apply elem_of_reverse.
  by apply list_elem_of_fmap_2, list_elem_of_fmap_2.
Qed.

(** C4.  [_remove_obsolete_packages] works in three stages, in this order:
    the versions without repository entry, then the source package names
    without a remaining version, then the binary package names no version
    refers to.  Each stage raises the event of every row it selects
    ([lost-version-of-source-package] with name and version,
    [lost-source-package] with the name, [lost-binary-package] with the
    name) and then deletes these rows, so every deletion comes after its
    event.  The second stage selects among the source package names only:
    package names of another type raise no event and stay. *)
Theorem garbage_collection_order (t : Task) :
  let t' := (_remove_obsolete_packages t).2 in
  let versions :=
    filter (λ v, count_repository (db t) v = 0) (source_packages (db t)) in
  let names :=
    filter (λ n, count_source_package_versions (db (after_versions t)) n = 0)
      (SourcePackageName_all (db (after_versions t))) in
  let binaries :=
    filter (λ b, count_sourcepackage (db (after_names t)) b = 0)
      (binary_package_names (db (after_names t))) in
  let version_events :=
    (λ v, mkEvent "lost-version-of-source-package"
            [("name", Str (sp_name v)); ("version", Str (sp_version v))])
      <$> versions in
  let name_events :=
    (λ n, mkEvent "lost-source-package" [("name", Str (pn_name n))])
      <$> names in
  let binary_events :=
    (λ b, mkEvent "lost-binary-package" [("name", Str b)]) <$> binaries in
  let effects :=
    (Raised <$> version_events) ++ (Deleted ∘ RowSourcePackage <$> versions)
    ++ (Raised <$> name_events) ++ (Deleted ∘ RowPackageName <$> names)
    ++ (Raised <$> binary_events)
    ++ (Deleted ∘ RowBinaryPackageName <$> binaries) in
  (_remove_obsolete_packages t).1 = Return tt
  ∧ journal t' = journal t ++ effects
  ∧ events t' = events t ++ version_events ++ name_events ++ binary_events
  ∧ source_packages (db (after_versions t))
    = filter (λ v, v ∉ versions) (source_packages (db t))
  ∧ package_names (db (after_names t))
    = filter (λ n, n ∉ names) (package_names (db t))
  ∧ source_packages (db (after_names t))
    = source_packages (db (after_versions t))
  ∧ binary_package_names (db t')
    = filter (λ b, b ∉ binaries) (binary_package_names (db t))
  ∧ deletions_announced [] effects.
Proof.
  intros t' versions names binaries version_events name_events
    binary_events effects.
  subst t'. rewrite _remove_obsolete_packages_run. cbn [fst snd].
  split_and!; try done.
  - subst effects. unfold after_binaries, after_names, after_versions,
      deleted, record_events. cbn. by rewrite <-!app_assoc.
  - unfold after_binaries, after_names, after_versions,
      deleted, record_events. cbn. by rewrite <-!app_assoc.
  - subst effects.
    apply (deletions_announced_stage RowSourcePackage versions).
    intros seen1.
    apply (deletions_announced_stage RowPackageName names).
    intros seen2.
    rewrite <-(app_nil_r (Deleted ∘ RowBinaryPackageName <$> binaries)).
    by apply (deletions_announced_stage RowBinaryPackageName binaries).
Qed.

(** **** One paragraph of an updated [Sources] file *)

(** What [ensure_source_package_name] leaves alone. *)
Record same_versions_and_entries (t t' : Task) : Prop := {
  sve_source_packages : source_packages (db t') = source_packages (db t);
  sve_repository_entries :
    repository_entries (db t') = repository_entries (db t);
  sve_architectures : architectures (db t') = architectures (db t);
  sve_next_pk : next_source_package_pk (db t') = next_source_package_pk (db t);
  sve_next_id : next_entry_id (db t') = next_entry_id (db t);
  sve_processed : _all_repository_entries t' = _all_repository_entries t
}.

Lemma ensure_source_package_name_run (stanza : Stanza) (t : Task) name :
  stanza_get "package" stanza = Some name →
  ∃ src_pkg_name t',
    ensure_source_package_name stanza t = (Return src_pkg_name, t')
    ∧ pn_name src_pkg_name = name
    ∧ same_versions_and_entries t t'.
Proof.
  intros Hname. unfold ensure_source_package_name, stanza_item.
  rewrite Hname. run_step. unfold SourcePackageName_get_or_create. run_step.
  destruct (list_find _ (SourcePackageName_all (db t))) as [[i p]|] eqn:Hf.
  - apply list_find_Some in Hf as (_ & Hp & _). run_step.
    by exists p, t.
  - run_step. rewrite raise_event_declared by done.
    eexists _, _. split; [reflexivity|]. by split.
Qed.

(** The effect of a paragraph that is let through: [v] is its version and
    [e] its entry in the repository, each found or created. *)
Record paragraph_step (repository : Repository) (name version : string)
    (v : SourcePackage) (e : SourcePackageRepositoryEntry) (t t' : Task)
  : Prop := {
  ps_name : sp_name v = name;
  ps_version : sp_version v = version;
  ps_source_packages :
    (source_packages (db t') = source_packages (db t)
     ∧ v ∈ source_packages (db t)
     ∧ next_source_package_pk (db t') = next_source_package_pk (db t))
    ∨ (source_packages (db t') = source_packages (db t) ++ [v]
       ∧ (∀ p, p ∈ source_packages (db t) →
               ¬ (sp_name p = name ∧ sp_version p = version))
       ∧ sp_pk v = next_source_package_pk (db t)
       ∧ next_source_package_pk (db t') = S (next_source_package_pk (db t)));
  ps_repository : entry_repository e = repository;
  ps_source_package : entry_source_package e = v;
  ps_repository_entries :
    (repository_entries (db t') = repository_entries (db t)
     ∧ e ∈ repository_entries (db t)
     ∧ next_entry_id (db t') = next_entry_id (db t))
    ∨ (repository_entries (db t') = repository_entries (db t) ++ [e]
       ∧ (∀ x, x ∈ repository_entries (db t) →
               ¬ (entry_repository x = repository
                  ∧ entry_source_package x = v))
       ∧ entry_id e = next_entry_id (db t)
       ∧ next_entry_id (db t') = S (next_entry_id (db t)));
  ps_processed :
    _all_repository_entries t' = _all_repository_entries t ++ [entry_id e]
}.

Lemma has_source_package_false (s : Store) repository src_pkg :
  has_source_package s repository src_pkg = false →
  ∀ x, x ∈ repository_entries s →
       ¬ (entry_repository x = repository ∧ entry_source_package x = src_pkg).
Proof.
  intros H%bool_decide_eq_false x Hx HP. apply H, Exists_exists. eauto.
Qed.

Lemma ensure_repository_entry_run repository src_pkg stanza (t : Task) :
  ∃ e t',
    ensure_repository_entry repository src_pkg stanza t = (Return tt, t')
    ∧ source_packages (db t') = source_packages (db t)
    ∧ next_source_package_pk (db t') = next_source_package_pk (db t)
    ∧ entry_repository e = repository
    ∧ entry_source_package e = src_pkg
    ∧ ((repository_entries (db t') = repository_entries (db t)
        ∧ e ∈ repository_entries (db t)
        ∧ next_entry_id (db t') = next_entry_id (db t))
       ∨ (repository_entries (db t') = repository_entries (db t) ++ [e]
          ∧ (∀ x, x ∈ repository_entries (db t) →
                  ¬ (entry_repository x = repository
                     ∧ entry_source_package x = src_pkg))
          ∧ entry_id e = next_entry_id (db t)
          ∧ next_entry_id (db t') = S (next_entry_id (db t))))
    ∧ _all_repository_entries t'
      = _all_repository_entries t ++ [entry_id e].
Proof.
  destruct (has_source_package (db t) repository src_pkg) eqn:Hv.
  - destruct (ensure_repository_entry_existing _ _ stanza _ Hv)
      as (e & He & Hr & Hp & Hrun).
    exists e. eexists. split; [exact Hrun|]. split_and!; try done.
    by left.
  - destruct (ensure_repository_entry_created _ _ stanza _ Hv)
      as (t' & Hrun & Hdb & _ & Hproc).
    exists (created_entry repository src_pkg stanza t), t'.
    split; [exact Hrun|]. rewrite Hdb. split_and!; try done.
    right. split_and!; try done. by apply has_source_package_false.
Qed.

Lemma update_sources_stanza_run repository stanza (t : Task) name version :
  rejected stanza = false →
  stanza_get "package" stanza = Some name →
  stanza_get "version" stanza = Some version →
  ∃ v e t',
    update_sources_stanza repository stanza t = (Return tt, t')
    ∧ paragraph_step repository name version v e t t'.
Proof.
  intros Hrej Hname Hver. unfold update_sources_stanza. rewrite Hrej.
  destruct (ensure_source_package_name_run stanza t name Hname)
    as (pn & t1 & Hrun1 & Hpn & [Hsp1 Hre1 _ Hpk1 Hid1 Hproc1]).
  run_step. rewrite Hrun1.
  destruct (list_find (λ p, sp_name p = pn_name pn ∧ sp_version p = version)
              (source_packages (db t1))) as [[i v]|] eqn:Hf.
  - rewrite (ensure_source_package_existing pn stanza t1 version i v Hver Hf).
    apply list_find_Some in Hf as (Hi & [Hn Hv] & _).
    destruct (ensure_repository_entry_run repository v stanza t1)
      as (e & t3 & Hrun3 & Hsp3 & Hpk3 & Hr & Hp & Hent & Hproc3).
    exists v, e, t3. split; [exact Hrun3|].
    split; [congruence|done| |done|done| |].
    + left. split_and!; try congruence.
      rewrite <-Hsp1. by eapply list_elem_of_lookup_2.
    + rewrite <-Hre1, <-Hid1. exact Hent.
    + by rewrite Hproc3, Hproc1.
  - destruct (ensure_source_package_created pn stanza t1 version Hver Hf)
      as (entry & bevs & t2 & Hrun2 & Hsp2 & _ & _ & _ & _ & _ & Hre2
          & Hpk2 & Hid2 & Hproc2).
    rewrite Hrun2.
    set (v := SourcePackage_update _ entry) in *.
    destruct (ensure_repository_entry_run repository v stanza t2)
      as (e & t3 & Hrun3 & Hsp3 & Hpk3 & Hr & Hp & Hent & Hproc3).
    exists v, e, t3. split; [exact Hrun3|].
    split; [done|done| |done|done| |].
    + right. split_and!; try congruence.
      * intros p Hp'. apply list_find_None in Hf.
        rewrite Forall_forall in Hf. rewrite <-Hsp1 in Hp'.
        intros [? ?]. apply (Hf p Hp'). split; congruence.
      * cbn. congruence.
    + rewrite <-Hre1, <-Hre2, <-Hid1, <-Hid2. exact Hent.
    + by rewrite Hproc3, Hproc2, Hproc1.
Qed.

(** A paragraph whose processing returns was either kept out by the vendor
    rule, and then nothing happened, or it has a package and a version. *)
Lemma update_sources_stanza_returned repository stanza (t t' : Task) :
  update_sources_stanza repository stanza t = (Return tt, t') →
  (rejected stanza = true ∧ t' = t)
  ∨ (rejected stanza = false
     ∧ ∃ name version,
         stanza_get "package" stanza = Some name
         ∧ stanza_get "version" stanza = Some version).
Proof.
  unfold update_sources_stanza. destruct (rejected stanza); [left|right].
  { by inversion H. }
  split; [done|]. revert H.
  destruct (stanza_get "package" stanza) as [name|] eqn:Hname.
  - destruct (stanza_get "version" stanza) as [version|] eqn:Hver; [eauto|].
    destruct (ensure_source_package_name_run stanza t name Hname)
      as (pn & t1 & Hrun1 & _). run_step. rewrite Hrun1.
    unfold ensure_source_package, stanza_item. rewrite Hver. by run_step.
  - unfold ensure_source_package_name, stanza_item. rewrite Hname.
    by run_step.
Qed.

(** **** Failure of [execute] *)

(** C5.  When [execute] raises, however many events the task has raised and
    rows it has written by then, the task is left without any event and
    the record store is what it was before [execute] began. *)
Theorem execute_raises_nothing_kept (t t' : Task) (e : Exception) :
  execute t = (Raise e, t') →
  events t' = [] ∧ db t' = db t.
Proof.
  unfold execute, clear_all_events_on_exception. run_step.
  destruct (update_repositories (force_update t))
    as [[updated_sources updated_packages]|e0].
  - unfold commit_on_success.
    match goal with
    | |- context [match ?block t with _ => _ end] =>
        destruct (block t) as [[[]|e1] t1]
    end.
    + by rewrite _remove_obsolete_packages_run.
    + by intros [= _ <-].
  - by intros [= _ <-].
Qed.

(** **** The store the task expects *)

(** The unique keys of the tables: primary keys are unique and below the
    next one to be handed out, a version is identified by name and version,
    an entry by repository and version, and an entry refers to a stored
    version. *)
Record well_formed (s : Store) : Prop := {
  wf_entry_ids : NoDup (entry_id <$> repository_entries s);
  wf_entry_ids_bound :
    ∀ e, e ∈ repository_entries s → entry_id e < next_entry_id s;
  wf_versions_unique :
    ∀ p q, p ∈ source_packages s → q ∈ source_packages s →
           sp_name p = sp_name q → sp_version p = sp_version q → p = q;
  wf_entries_versions :
    ∀ e, e ∈ repository_entries s →
         entry_source_package e ∈ source_packages s;
  wf_entries_unique :
    ∀ e1 e2, e1 ∈ repository_entries s → e2 ∈ repository_entries s →
             entry_repository e1 = entry_repository e2 →
             entry_source_package e1 = entry_source_package e2 → e1 = e2
}.

Section ParagraphStep.
Context {repository : Repository} {name version : string}
  {v : SourcePackage} {e : SourcePackageRepositoryEntry} {t t' : Task}
  (Hstep : paragraph_step repository name version v e t t').

Lemma step_versions_kept p :
  p ∈ source_packages (db t) → p ∈ source_packages (db t').
Proof.
  destruct (ps_source_packages _ _ _ _ _ _ _ Hstep) as [[Heq _]|[Heq _]];
    rewrite Heq; [done|]. intros. apply elem_of_app. by left.
Qed.

Lemma step_version_stored : v ∈ source_packages (db t').
Proof.
  destruct (ps_source_packages _ _ _ _ _ _ _ Hstep)
    as [[Heq [? _]]|[Heq _]]; rewrite Heq; [done|].
  apply elem_of_app. right. by apply list_elem_of_singleton.
Qed.

Lemma step_versions_inv p :
  p ∈ source_packages (db t') →
  p ∈ source_packages (db t)
  ∨ (p = v ∧ ∀ q, q ∈ source_packages (db t) →
                  ¬ (sp_name q = name ∧ sp_version q = version)).
Proof.
  destruct (ps_source_packages _ _ _ _ _ _ _ Hstep)
    as [[Heq _]|[Heq [Hnew _]]]; rewrite Heq; [by left|].
  intros [?| ->%list_elem_of_singleton]%elem_of_app; [by left|by right].
Qed.

Lemma step_entries_kept x :
  x ∈ repository_entries (db t) → x ∈ repository_entries (db t').
Proof.
  destruct (ps_repository_entries _ _ _ _ _ _ _ Hstep)
    as [[Heq _]|[Heq _]]; rewrite Heq; [done|].
  intros. apply elem_of_app. by left.
Qed.

Lemma step_entry_stored : e ∈ repository_entries (db t').
Proof.
  destruct (ps_repository_entries _ _ _ _ _ _ _ Hstep)
    as [[Heq [? _]]|[Heq _]]; rewrite Heq; [done|].
  apply elem_of_app. right. by apply list_elem_of_singleton.
Qed.

Lemma step_entries_inv x :
  x ∈ repository_entries (db t') →
  x ∈ repository_entries (db t)
  ∨ (x = e
     ∧ entry_id e = next_entry_id (db t)
     ∧ ∀ y, y ∈ repository_entries (db t) →
            ¬ (entry_repository y = repository
               ∧ entry_source_package y = v)).
Proof.
  destruct (ps_repository_entries _ _ _ _ _ _ _ Hstep)
    as [[Heq _]|[Heq [Hnew [Hid _]]]]; rewrite Heq; [by left|].
  intros [?| ->%list_elem_of_singleton]%elem_of_app; [by left|by right].
Qed.

Lemma step_processed_kept id :
  id ∈ _all_repository_entries t → id ∈ _all_repository_entries t'.
Proof.
  rewrite (ps_processed _ _ _ _ _ _ _ Hstep). intros. apply elem_of_app.
  by left.
Qed.

Lemma step_entry_processed : entry_id e ∈ _all_repository_entries t'.
Proof.
  rewrite (ps_processed _ _ _ _ _ _ _ Hstep). apply elem_of_app. right.
  by apply list_elem_of_singleton.
Qed.

Lemma step_well_formed : well_formed (db t) → well_formed (db t').
Proof.
  intros [Hids Hbound Hvu Hev Heu].
  pose proof (ps_name _ _ _ _ _ _ _ Hstep) as Hname.
  pose proof (ps_version _ _ _ _ _ _ _ Hstep) as Hversion.
  pose proof (ps_repository _ _ _ _ _ _ _ Hstep) as Hrepo.
  pose proof (ps_source_package _ _ _ _ _ _ _ Hstep) as Hsp.
  split.
  - destruct (ps_repository_entries _ _ _ _ _ _ _ Hstep)
      as [[Heq _]|[Heq [_ [Hid _]]]]; rewrite Heq; [done|].
    rewrite fmap_app. apply NoDup_app. split_and!; [done| |].
    + intros id (x & Hidx & Hx)%list_elem_of_fmap
        (y & Hidy & ->%list_elem_of_singleton)%list_elem_of_fmap.
      specialize (Hbound x Hx). lia.
    + apply NoDup_singleton.
  - intros x Hx.
    destruct (ps_repository_entries _ _ _ _ _ _ _ Hstep)
      as [[Heq [_ Hnext]]|[Heq [_ [Hid Hnext]]]];
      rewrite Heq in Hx; rewrite Hnext.
    + by apply Hbound.
    + apply elem_of_app in Hx as [Hx| ->%list_elem_of_singleton]; [|lia].
      specialize (Hbound x Hx). lia.
  - intros p q Hp Hq Hn Hver.
    destruct (step_versions_inv p Hp) as [Hp'|[-> Hp']],
             (step_versions_inv q Hq) as [Hq'|[-> Hq']]; try done.
    + by apply Hvu.
    + destruct (Hq' p Hp'). split; congruence.
    + destruct (Hp' q Hq'). split; congruence.
  - intros x Hx. destruct (step_entries_inv x Hx) as [Hx'|[-> _]].
    + by apply step_versions_kept, Hev.
    + rewrite Hsp. apply step_version_stored.
  - intros x y Hx Hy Hr Hs.
    destruct (step_entries_inv x Hx) as [Hx'|(-> & _ & Hx')],
             (step_entries_inv y Hy) as [Hy'|(-> & _ & Hy')]; try done.
    + by apply Heu.
    + destruct (Hy' x Hx'). split; congruence.
    + destruct (Hx' y Hy'). split; congruence.
Qed.

End ParagraphStep.

(** A loop that returns has kept an invariant its body keeps; the
    invariant may speak of the items already handled. *)
Lemma for_each_returned {A} (I : list A → Task → Prop) (l : list A)
    (body : A → Run unit) (t t' : Task) :
  for_each l body t = (Return tt, t') →
  I [] t →
  (∀ handled x rest t1 t2,
     l = handled ++ x :: rest →
     body x t1 = (Return tt, t2) → I handled t1 → I (handled ++ [x]) t2) →
  I l t'.
Proof.
  intros Hrun Hinit Hbody.
  assert (Hgen : ∀ rest handled t1,
            l = handled ++ rest →
            for_each rest body t1 = (Return tt, t') →
            I handled t1 → I l t').
  { induction rest as [|x rest IH]; intros handled t1 Hl Hr HI.
    - cbn in Hr. injection Hr as <-. by rewrite Hl, app_nil_r.
    - cbn [for_each] in Hr. unfold mbind, M_bind in Hr.
      destruct (body x t1) as [[[]|e1] t2] eqn:Hx; [|done].
      apply (IH (handled ++ [x]) t2); [by rewrite <-app_assoc|done|].
      by eapply Hbody. }
  by apply (Hgen l [] t).
Qed.

(** **** Which entries are still present *)

(** The paragraph is let through by the vendor rule and names this
    version. *)
Definition kept_pair (stanza : Stanza) (name version : string) : Prop :=
  rejected stanza = false
  ∧ stanza_get "package" stanza = Some name
  ∧ stanza_get "version" stanza = Some version.

(** The version is listed by a paragraph of one of the updated files. *)
Definition listed_in_updated (sources_files : list string)
    (name version : string) : Prop :=
  ∃ f stanzas stanza,
    f ∈ sources_files ∧ open_sources f = Some stanzas
    ∧ stanza ∈ stanzas ∧ kept_pair stanza name version.

(** The version is the one recorded for the name in a cached file of the
    repository that was not updated. *)
Definition listed_in_cached (repository : Repository)
    (sources_files : list string) (name version : string) : Prop :=
  ∃ f stanzas packages,
    f ∈ get_sources_files_for_repository repository
    ∧ (f ∉ sources_files)
    ∧ open_sources f = Some stanzas
    ∧ packages_of stanzas ∅ = Return packages
    ∧ packages !! name = Some version.

(** Every recorded id belongs to an entry of the repository that [J]
    accepts. *)
Definition sound (repository : Repository)
    (J : SourcePackageRepositoryEntry → Prop) (t : Task) : Prop :=
  ∀ id, id ∈ _all_repository_entries t →
    ∃ e, e ∈ repository_entries (db t) ∧ entry_id e = id
         ∧ entry_repository e = repository ∧ J e.

(** Every version that [K] lists has an entry in the repository whose id
    is recorded. *)
Definition marked (repository : Repository) (K : string → string → Prop)
    (t : Task) : Prop :=
  ∀ name version, K name version →
    ∃ e, e ∈ repository_entries (db t)
         ∧ entry_repository e = repository
         ∧ sp_name (entry_source_package e) = name
         ∧ sp_version (entry_source_package e) = version
         ∧ entry_id e ∈ _all_repository_entries t.

Lemma update_sources_stanzas_returned repository
    (J : SourcePackageRepositoryEntry → Prop) (K : string → string → Prop)
    (stanzas : list Stanza) (t t' : Task) :
  for_each stanzas (update_sources_stanza repository) t = (Return tt, t') →
  (∀ stanza e, stanza ∈ stanzas →
     kept_pair stanza (sp_name (entry_source_package e))
       (sp_version (entry_source_package e)) → J e) →
  well_formed (db t) → sound repository J t → marked repository K t →
  well_formed (db t') ∧ sound repository J t'
  ∧ marked repository
      (λ n v, K n v ∨ ∃ stanza, stanza ∈ stanzas ∧ kept_pair stanza n v) t'.
Proof.
  intros Hrun HJ Hwf Hsound Hmarked.
  apply (for_each_returned
    (λ handled t1,
       well_formed (db t1) ∧ sound repository J t1
       ∧ marked repository
           (λ n v, K n v ∨ ∃ stanza, stanza ∈ handled ∧ kept_pair stanza n v)
           t1) _ _ _ _ Hrun).
  { split_and!; try done. intros n v [HK|(s & Hs & _)]; [by apply Hmarked|].
    by apply elem_of_nil in Hs. }
  clear t t' Hrun Hwf Hsound Hmarked.
  intros handled stanza rest t1 t2 Hl Hbody (Hwf & Hsound & Hmarked).
  destruct (update_sources_stanza_returned _ _ _ _ Hbody)
    as [[Hrej ->]|(Hrej & name & version & Hname & Hver)].
  { split_and!; try done. intros n v [HK|(s & Hs & Hkept)].
    - apply Hmarked. by left.
    - apply elem_of_app in Hs as [Hs| ->%list_elem_of_singleton].
      + apply Hmarked. right. eauto.
      + destruct Hkept as [Hkept _]. congruence. }
  destruct (update_sources_stanza_run repository stanza t1 name version
              Hrej Hname Hver) as (v & e & t2' & Hrun2 & Hstep).
  rewrite Hbody in Hrun2. injection Hrun2 as <-.
  assert (Hin : stanza ∈ stanzas).
  { rewrite Hl. apply elem_of_app. right. by left. }
  split_and!.
  - by eapply step_well_formed.
  - intros id. rewrite (ps_processed _ _ _ _ _ _ _ Hstep).
    intros [Hid| ->%list_elem_of_singleton]%elem_of_app.
    + destruct (Hsound id Hid) as (e0 & He0 & ? & ? & ?).
      exists e0. split_and!; try done. by eapply step_entries_kept.
    + exists e. split_and!; try done.
      * by eapply step_entry_stored.
      * by destruct Hstep.
      * apply (HJ stanza e Hin). destruct Hstep. split_and!; congruence.
  - assert (Hold : ∀ n ver,
              (K n ver ∨ ∃ s, s ∈ handled ∧ kept_pair s n ver) →
              ∃ e0, e0 ∈ repository_entries (db t2)
                    ∧ entry_repository e0 = repository
                    ∧ sp_name (entry_source_package e0) = n
                    ∧ sp_version (entry_source_package e0) = ver
                    ∧ entry_id e0 ∈ _all_repository_entries t2).
    { intros n ver HK. destruct (Hmarked n ver HK)
        as (e0 & He0 & ? & ? & ? & ?).
      exists e0. split_and!; try done.
      - by eapply step_entries_kept.
      - by eapply step_processed_kept. }
    intros n ver [HK|(s & Hs & Hkept)]; [apply Hold; by left|].
    apply elem_of_app in Hs as [Hs| ->%list_elem_of_singleton].
    + apply Hold. right. eauto.
    + destruct Hkept as (_ & Hn & Hv).
      exists e. destruct Hstep. split_and!; try congruence.
      * by eapply step_entry_stored.
      * by eapply step_entry_processed.
Qed.

Lemma update_sources_files_returned repository
    (J : SourcePackageRepositoryEntry → Prop) (K : string → string → Prop)
    (sources_files : list string) (t t' : Task) :
  for_each sources_files (_update_sources_file repository) t
    = (Return tt, t') →
  (∀ e, listed_in_updated sources_files
          (sp_name (entry_source_package e))
          (sp_version (entry_source_package e)) → J e) →
  well_formed (db t) → sound repository J t → marked repository K t →
  well_formed (db t') ∧ sound repository J t'
  ∧ marked repository
      (λ n v, K n v ∨ listed_in_updated sources_files n v) t'.
Proof.
  intros Hrun HJ Hwf Hsound Hmarked.
  apply (for_each_returned
    (λ handled t1,
       well_formed (db t1) ∧ sound repository J t1
       ∧ marked repository (λ n v, K n v ∨ listed_in_updated handled n v) t1)
    _ _ _ _ Hrun).
  { split_and!; try done.
    intros n v [HK|(f & ? & ? & Hf & _)]; [by apply Hmarked|].
    by apply elem_of_nil in Hf. }
  clear t t' Hrun Hwf Hsound Hmarked.
  intros handled f rest t1 t2 Hl Hbody (Hwf & Hsound & Hmarked).
  unfold _update_sources_file in Hbody.
  destruct (open_sources f) as [stanzas|] eqn:Hopen; [|done].
  assert (Hin : f ∈ sources_files).
  { rewrite Hl. apply elem_of_app. right. by left. }
  destruct (update_sources_stanzas_returned repository J
              (λ n v, K n v ∨ listed_in_updated handled n v) stanzas t1 t2
              Hbody) as (Hwf2 & Hsound2 & Hmarked2); try done.
  { intros stanza e Hs Hkept. apply HJ. by exists f, stanzas, stanza. }
  split_and!; try done.
  intros n v [HK|(f' & stanzas' & stanza & Hf' & Hopen' & Hs & Hkept)].
  - apply Hmarked2. left. by left.
  - apply elem_of_app in Hf' as [Hf'| ->%list_elem_of_singleton].
    + apply Hmarked2. left. right. by exists f', stanzas', stanza.
    + apply Hmarked2. right. exists stanza. split; [|done]. congruence.
Qed.

(** The loop of [_mark_sources_file_not_processed] over the entries. *)
Lemma mark_entries (packages : gmap string string)
    (entries : list SourcePackageRepositoryEntry) (t : Task) :
  Forall (λ e, sp_name (entry_source_package e) ∈ dom packages) entries →
  for_each entries (λ entry,
    match packages !! sp_name (entry_source_package entry) with
    | None => raise (KeyError (sp_name (entry_source_package entry)))
    | Some version =>
        if decide (sp_version (entry_source_package entry) = version)
        then _add_processed_repository_entry entry
        else mret tt
    end) t
  = (Return tt,
     set_all_repository_entries
       (_all_repository_entries t
        ++ (entry_id
              <$> filter (λ e, packages !! sp_name (entry_source_package e)
                               = Some (sp_version (entry_source_package e)))
                    entries)) t).
Proof.
  intros Hdom. revert t. induction Hdom as [|e entries He Hdom IH]; intros t.
  - cbn. rewrite app_nil_r. by destruct t.
  - cbn [for_each]. run_step. apply elem_of_dom in He as [version Hv].
    rewrite Hv. rewrite filter_cons.
    destruct (decide (sp_version (entry_source_package e) = version))
      as [Heq|Hne].
    + rewrite decide_True by congruence.
      unfold _add_processed_repository_entry at 1, modify at 1.
      rewrite IH. cbn. by rewrite <-app_assoc.
    + rewrite decide_False by congruence. run_step. by rewrite IH.
Qed.

Lemma _mark_sources_file_not_processed_returned repository f (t t' : Task) :
  _mark_sources_file_not_processed repository f t = (Return tt, t') →
  ∃ stanzas packages,
    open_sources f = Some stanzas
    ∧ packages_of stanzas ∅ = Return packages
    ∧ t' = set_all_repository_entries
             (_all_repository_entries t
              ++ (entry_id
                    <$> filter
                          (λ e, packages !! sp_name (entry_source_package e)
                                = Some (sp_version (entry_source_package e)))
                          (filter
                             (λ e, sp_name (entry_source_package e)
                                   ∈ dom packages)
                             (filter (λ e, entry_repository e = repository)
                                (repository_entries (db t)))))) t.
Proof.
  unfold _mark_sources_file_not_processed.
  destruct (open_sources f) as [stanzas|] eqn:Hopen; [|done].
  unfold pure. run_step.
  destruct (packages_of stanzas ∅) as [packages|] eqn:Hpk; [|done].
  rewrite mark_entries.
  - intros [= <-]. by exists stanzas, packages.
  - apply Forall_forall. by intros e [? _]%list_elem_of_filter.
Qed.

(** Reading the files that were not updated again writes nothing to the
    store; it records the entries of the repository whose version is the
    one a file has for their name. *)
Lemma mark_sources_files_returned repository
    (J : SourcePackageRepositoryEntry → Prop)
    (sources_files all_sources : list string) (t t' : Task) :
  for_each all_sources (λ sources_file,
    if decide (sources_file ∉ sources_files) then
      _mark_sources_file_not_processed repository sources_file
    else mret tt) t = (Return tt, t') →
  (∀ e f stanzas packages,
     f ∈ all_sources → f ∉ sources_files →
     open_sources f = Some stanzas →
     packages_of stanzas ∅ = Return packages →
     packages !! sp_name (entry_source_package e)
       = Some (sp_version (entry_source_package e)) → J e) →
  sound repository J t →
  db t' = db t ∧ events t' = events t
  ∧ sound repository J t'
  ∧ (∀ id, id ∈ _all_repository_entries t → id ∈ _all_repository_entries t')
  ∧ (∀ e f stanzas packages,
       f ∈ all_sources → f ∉ sources_files →
       open_sources f = Some stanzas →
       packages_of stanzas ∅ = Return packages →
       e ∈ repository_entries (db t) → entry_repository e = repository →
       packages !! sp_name (entry_source_package e)
         = Some (sp_version (entry_source_package e)) →
       entry_id e ∈ _all_repository_entries t').
Proof.
  intros Hrun HJ Hsound.
  apply (for_each_returned
    (λ handled t1,
       db t1 = db t ∧ events t1 = events t
       ∧ sound repository J t1
       ∧ (∀ id, id ∈ _all_repository_entries t →
                id ∈ _all_repository_entries t1)
       ∧ (∀ e f stanzas packages,
            f ∈ handled → f ∉ sources_files →
            open_sources f = Some stanzas →
            packages_of stanzas ∅ = Return packages →
            e ∈ repository_entries (db t) → entry_repository e = repository →
            packages !! sp_name (entry_source_package e)
              = Some (sp_version (entry_source_package e)) →
            entry_id e ∈ _all_repository_entries t1)) _ _ _ _ Hrun).
  { split_and!; try done. intros e f ? ? Hf. by apply elem_of_nil in Hf. }
  clear t' Hrun.
  intros handled f rest t1 t2 Hl Hbody (Hdb & Hev & Hsound1 & Hkeep & Hdone).
  assert (Hin : f ∈ all_sources).
  { rewrite Hl. apply elem_of_app. right. by left. }
  destruct (decide (f ∉ sources_files)) as [Hf|Hf].
  - apply _mark_sources_file_not_processed_returned in Hbody
      as (stanzas & packages & Hopen & Hpk & ->).
    cbn [db events _all_repository_entries set_all_repository_entries].
    split_and!; try done.
    + intros id [Hid|Hid]%elem_of_app; [by apply Hsound1|].
      apply list_elem_of_fmap in Hid as (e & -> & He).
      apply list_elem_of_filter in He as [Hmatch He].
      apply list_elem_of_filter in He as [_ He].
      apply list_elem_of_filter in He as [Hrepo He].
      exists e. split_and!; try done. by eapply HJ.
    + intros id Hid. apply elem_of_app. left. by apply Hkeep.
    + intros e f' stanzas' packages' Hf' Hnot Hopen' Hpk' He Hrepo Hmatch.
      apply elem_of_app.
      apply elem_of_app in Hf' as [Hf'| ->%list_elem_of_singleton].
      * left. by eapply Hdone.
      * right. apply list_elem_of_fmap_2.
        assert (stanzas' = stanzas) as -> by congruence.
        assert (packages' = packages) as -> by congruence.
        rewrite !list_elem_of_filter. rewrite Hdb. split_and!; try done.
        apply elem_of_dom. by eexists.
  - injection Hbody as <-. split_and!; try done.
    intros e f' stanzas' packages' Hf' Hnot Hopen' Hpk' He Hrepo Hmatch.
    apply elem_of_app in Hf' as [Hf'| ->%list_elem_of_singleton];
      [by eapply Hdone|done].
Qed.

(** [_update_repository_entries]: the entries of the repository whose id
    was not recorded are announced as lost and deleted. *)
Definition stale_entries (repository : Repository) (t : Task)
  : list SourcePackageRepositoryEntry :=
  filter (λ e, entry_id e ∉ _all_repository_entries t)
    (filter (λ e, entry_repository e = repository)
       (repository_entries (db t))).

Lemma _update_repository_entries_run repository (t : Task) :
  _update_repository_entries repository t
  = (Return tt,
     set_all_repository_entries []
       (deleted RepositoryEntry_table (stale_entries repository t)
          (record_events
             (lost_event ∘ RowRepositoryEntry <$> stale_entries repository t)
             t))).
Proof.
  unfold _update_repository_entries. run_step.
  fold (stale_entries repository t).
  rewrite (raise_generated_events
             (λ entry,
                ("lost-source-package-version-in-repository",
                 [("name", Str (sp_name (entry_source_package entry)));
                  ("version", Str (sp_version (entry_source_package entry)));
                  ("repository", Str (entry_repository entry))])))
    by done.
  unfold delete, modify, _clear_processed_repository_entries, modify.
  by destruct t.
Qed.

Lemma NoDup_fmap_eq {A B} (f : A → B) (l : list A) (x y : A) :
  NoDup (f <$> l) → x ∈ l → y ∈ l → f x = f y → x = y.
Proof.
  induction l as [|a l IH]; intros Hnd Hx Hy Hf.
  - by apply elem_of_nil in Hx.
  - rewrite fmap_cons in Hnd. apply NoDup_cons in Hnd as [Ha Hnd].
    apply elem_of_cons in Hx as [->|Hx], Hy as [->|Hy]; try done.
    + destruct Ha. rewrite Hf. by apply list_elem_of_fmap_2.
    + destruct Ha. rewrite <-Hf. by apply list_elem_of_fmap_2.
    + by apply IH.
Qed.

(** An entry of the repository is still present when an updated file lists
    its version, or when a cached file that was not updated has its version
    for its name. *)
Definition still_present (repository : Repository)
    (sources_files : list string) (e : SourcePackageRepositoryEntry) : Prop :=
  listed_in_updated sources_files
    (sp_name (entry_source_package e)) (sp_version (entry_source_package e))
  ∨ listed_in_cached repository sources_files
      (sp_name (entry_source_package e))
      (sp_version (entry_source_package e)).

(** After the files of a repository were handled, the recorded ids are
    those of its entries that are still present. *)
Lemma handle_sources_files_returned repository sources_files (t t1 : Task) :
  well_formed (db t) →
  _all_repository_entries t = [] →
  handle_sources_files repository sources_files t = (Return tt, t1) →
  well_formed (db t1)
  ∧ ∀ e, e ∈ repository_entries (db t1) → entry_repository e = repository →
         (entry_id e ∈ _all_repository_entries t1
          ↔ still_present repository sources_files e).
Proof.
  intros Hwf Hempty Hrun. unfold handle_sources_files in Hrun.
  unfold mbind, M_bind in Hrun.
  destruct (for_each sources_files _ t) as [[[]|e0] ta] eqn:Hrun1; [|done].
  assert (HJ1 : ∀ e, listed_in_updated sources_files
                       (sp_name (entry_source_package e))
                       (sp_version (entry_source_package e)) →
                     still_present repository sources_files e)
    by (intros e He; by left).
  assert (Hsound0 : sound repository
                      (still_present repository sources_files) t).
  { intros id Hid. rewrite Hempty in Hid. by apply elem_of_nil in Hid. }
  assert (Hmarked0 : marked repository (λ _ _, False) t)
    by (by intros ? ? []).
  destruct (update_sources_files_returned repository
              (still_present repository sources_files) (λ _ _, False)
              sources_files t ta Hrun1 HJ1 Hwf Hsound0 Hmarked0)
    as (Hwfa & Hsounda & Hmarkeda).
  assert (HJ2 : ∀ e f stanzas packages,
            f ∈ get_sources_files_for_repository repository →
            f ∉ sources_files →
            open_sources f = Some stanzas →
            packages_of stanzas ∅ = Return packages →
            packages !! sp_name (entry_source_package e)
              = Some (sp_version (entry_source_package e)) →
            still_present repository sources_files e).
  { intros e f stanzas packages Hf Hnot Hopen Hpk Hmatch. right.
    by exists f, stanzas, packages. }
  destruct (mark_sources_files_returned repository
              (still_present repository sources_files)
              sources_files _ ta t1 Hrun HJ2 Hsounda)
    as (Hdb & _ & Hsound1 & Hkeep & Hcached).
  rewrite Hdb. split; [done|]. intros e He Hrepo. split.
  - intros Hid. destruct (Hsound1 _ Hid) as (e' & He' & Hid' & _ & HJ).
    rewrite Hdb in He'.
    by rewrite <-(NoDup_fmap_eq entry_id _ e' e
                   (wf_entry_ids _ Hwfa) He' He Hid').
  - intros [Hup|(f & stanzas & packages & Hf & Hnot & Hopen & Hpk & Hmatch)].
    + destruct (Hmarkeda _ _ (or_intror Hup))
        as (e' & He' & Hrepo' & Hn & Hv & Hid).
      assert (e' = e) as ->; [|by apply Hkeep].
      apply (wf_entries_unique _ Hwfa); try done; [congruence|].
      apply (wf_versions_unique _ Hwfa); try done;
        by apply (wf_entries_versions _ Hwfa).
    + by eapply Hcached.
Qed.

Lemma well_formed_entries_deleted (s : Store)
    (P : SourcePackageRepositoryEntry → Prop) `{∀ e, Decision (P e)} :
  well_formed s →
  well_formed (set_repository_entries (filter P (repository_entries s)) s).
Proof.
  intros [Hids Hbound Hvu Hev Heu]. split; cbn.
  - eapply sublist_NoDup; [exact Hids|].
    apply fmap_sublist, sublist_filter.
  - intros e [_ He]%list_elem_of_filter. by apply Hbound.
  - done.
  - intros e [_ He]%list_elem_of_filter. by apply Hev.
  - intros e1 e2 [_ He1]%list_elem_of_filter [_ He2]%list_elem_of_filter.
    by apply Heu.
Qed.


(** **** Paragraphs with the same package name *)



(** **** The mapping of a cached file *)

(** A paragraph with both keys the mapping reads. *)
Definition complete (stanza : Stanza) : Prop :=
  is_Some (stanza_get "version" stanza) ∧ is_Some (stanza_get "package" stanza).

(** The versions the paragraphs give for a package name, in order. *)
Definition versions_of (name : string) (stanzas : list Stanza) : list string :=
  omap (λ stanza,
          if decide (stanza_get "package" stanza = Some name)
          then stanza_get "version" stanza else None) stanzas.

Lemma packages_of_from (stanzas : list Stanza) (packages : gmap string string) :
  match packages_of stanzas packages with
  | Return m =>
      Forall complete stanzas
      ∧ ∀ name, m !! name
                = match last (versions_of name stanzas) with
                  | Some version => Some version
                  | None => packages !! name
                  end
  | Raise _ => ¬ Forall complete stanzas
  end.
Proof.
  revert packages. induction stanzas as [|stanza stanzas IH]; intros packages.
  - cbn. split; [constructor|done].
  - cbn [packages_of].
    destruct (stanza_get "version" stanza) as [version|] eqn:Hver.
    2: { intros [[[] _] _]%Forall_cons. congruence. }
    destruct (stanza_get "package" stanza) as [package|] eqn:Hname.
    2: { intros [[_ []] _]%Forall_cons. congruence. }
    specialize (IH (<[package:=version]> packages)).
    destruct (packages_of stanzas _) as [m|e].
    + destruct IH as [Hall Hm]. split.
      * constructor; [|done]. split; rewrite ?Hver, ?Hname; by eexists.
      * intros name. rewrite Hm. unfold versions_of. cbn [omap list_omap].
        rewrite Hname, Hver.
        destruct (decide (Some package = Some name)) as [[= ->]|Hne].
        -- fold (versions_of name stanzas). rewrite last_cons.
           destruct (last (versions_of name stanzas)); [done|].
           by rewrite lookup_insert_eq.
        -- fold (versions_of name stanzas).
           destruct (last (versions_of name stanzas)); [done|].
           rewrite lookup_insert_ne; [done|congruence].
    + by intros [_ ?]%Forall_cons.
Qed.

(** X6.  The mapping [_mark_sources_file_not_processed] builds from a
    cached file exists exactly when every paragraph has a package and a
    version; it then gives every package name the version of the last
    paragraph with that name, and no version to a name without paragraph.
    A paragraph that lacks one of the keys makes it raise. *)
Theorem packages_of_last_version (stanzas : list Stanza) :
  match packages_of stanzas ∅ with
  | Return packages =>
      Forall complete stanzas
      ∧ ∀ name, packages !! name = last (versions_of name stanzas)
  | Raise _ => ¬ Forall complete stanzas
  end.
Proof.
  pose proof (packages_of_from stanzas ∅) as H.
  destruct (packages_of stanzas ∅) as [m|e]; [|done].
  destruct H as [Hall Hm]. split; [done|]. intros name. rewrite Hm.
  by destruct (last (versions_of name stanzas)).
Qed.

(** **** The files of a run grouped by repository *)

(** The files listed for [repository] in a grouping. *)
Fixpoint files_in (repository : Repository)
    (repository_files : list (Repository * list string)) : list string :=
  match repository_files with
  | [] => []
  | (r, files) :: rest =>
      if decide (r = repository) then files else files_in repository rest
  end.

Lemma setdefault_append_files repository sources_file repository_files r :
  files_in r (setdefault_append repository sources_file repository_files)
  = files_in r repository_files
    ++ (if decide (repository = r) then [sources_file] else []).
Proof.
  induction repository_files as [|[r0 files] rest IH]; cbn.
  - destruct (decide (repository = r)); done.
  - destruct (decide (r0 = repository)) as [->|Hne]; cbn.
    + destruct (decide (repository = r)); [done|]. by rewrite app_nil_r.
    + destruct (decide (r0 = r)) as [->|?]; [|done].
      rewrite decide_False by done. by rewrite app_nil_r.
Qed.

Lemma setdefault_append_keys repository sources_file repository_files :
  (setdefault_append repository sources_file repository_files).*1
  = if decide (repository ∈ repository_files.*1) then repository_files.*1
    else repository_files.*1 ++ [repository].
Proof.
  induction repository_files as [|[r0 files] rest IH]; cbn; [done|].
  destruct (decide (r0 = repository)) as [->|Hne]; cbn.
  - by rewrite decide_True by left.
  - rewrite IH. destruct (decide (repository ∈ rest.*1)).
    + by rewrite decide_True by by right.
    + rewrite decide_False; [done|].
      intros [?|?]%elem_of_cons; congruence.
Qed.

Lemma setdefault_append_groups repository sources_file repository_files :
  Forall (λ g, g.2 ≠ []) repository_files →
  Forall (λ g, g.2 ≠ [])
    (setdefault_append repository sources_file repository_files).
Proof.
  induction 1 as [|[r0 files] rest Hg Hrest IH]; cbn.
  - by repeat constructor.
  - destruct (decide (r0 = repository)); constructor; try done.
    cbn. by destruct files.
Qed.

Lemma files_in_elem_of (g : list (Repository * list string)) r files :
  NoDup g.*1 → (r, files) ∈ g → files_in r g = files.
Proof.
  induction g as [|[r0 files0] g IH]; intros Hnd Hin.
  - by apply elem_of_nil in Hin.
  - cbn in Hnd. apply NoDup_cons in Hnd as [Hr0 Hnd]. cbn.
    apply elem_of_cons in Hin as [[= -> ->]|Hin].
    + by rewrite decide_True.
    + rewrite decide_False; [by apply IH|]. intros ->. apply Hr0.
      by apply (list_elem_of_fmap_2 fst) in Hin.
Qed.

Lemma files_in_nonempty (g : list (Repository * list string)) r :
  files_in r g ≠ [] → (r, files_in r g) ∈ g.
Proof.
  induction g as [|[r0 files0] g IH]; cbn; [done|].
  destruct (decide (r0 = r)) as [->|?]; [by left|]. right. by apply IH.
Qed.

Lemma group_by_repository_from (l : list (Repository * string))
    (g : list (Repository * list string)) :
  let g' := foldl (λ repository_files '(repository, sources_file),
                     setdefault_append repository sources_file
                       repository_files) g l in
  NoDup g.*1 → Forall (λ x, x.2 ≠ []) g →
  NoDup g'.*1 ∧ Forall (λ x, x.2 ≠ []) g'
  ∧ ∀ r, files_in r g' = files_in r g ++ (filter (λ x, x.1 = r) l).*2.
Proof.
  revert g. induction l as [|[r0 f] l IH]; intros g g' Hnd Hne.
  - split_and!; try done. intros r. by rewrite app_nil_r.
  - subst g'. cbn [foldl].
    destruct (IH (setdefault_append r0 f g)) as (Hnd' & Hne' & Hfiles).
    + rewrite setdefault_append_keys. case_decide; [done|].
      apply NoDup_app. split_and!; [done| |apply NoDup_singleton].
      intros x Hx ->%list_elem_of_singleton. done.
    + by apply setdefault_append_groups.
    + split_and!; try done. intros r. rewrite Hfiles.
      rewrite setdefault_append_files, filter_cons. cbn [fst].
      destruct (decide (r0 = r)); cbn; by rewrite <-?app_assoc, ?app_nil_r.
Qed.

(** X7.  Grouping the updated files by repository yields every repository
    once, with exactly its files in the order of the update and never with
    an empty list of files. *)
Theorem group_by_repository_files (updated_sources : list (Repository * string)) :
  NoDup (group_by_repository updated_sources).*1
  ∧ ∀ repository files,
      (repository, files) ∈ group_by_repository updated_sources
      ↔ files ≠ []
        ∧ files = (filter (λ x, x.1 = repository) updated_sources).*2.
Proof.
  destruct (group_by_repository_from updated_sources [])
    as (Hnd & Hne & Hfiles); [constructor|constructor|].
  fold (group_by_repository updated_sources) in Hnd, Hne, Hfiles.
  split; [done|]. intros r files. split.
  - intros Hin. split.
    + rewrite Forall_forall in Hne. apply (Hne _ Hin).
    + rewrite <-(files_in_elem_of _ _ _ Hnd Hin). apply Hfiles.
  - intros [Hne' ->]. specialize (Hfiles r). cbn in Hfiles.
    rewrite <-Hfiles. apply files_in_nonempty. by rewrite Hfiles.
Qed.

(** **** Garbage collection, again *)

Lemma deleted_nothing_versions (t : Task) :
  deleted SourcePackage_table [] (record_events [] t) = t.
Proof.
  rewrite record_events_nil. unfold deleted, update_db.
  cbn [rows set_rows SourcePackage_table].
  rewrite filter_all by (intros; apply not_elem_of_nil).
  destruct t as [[] ? ? ? ?]. cbn. by rewrite app_nil_r.
Qed.

Lemma deleted_nothing_names (t : Task) :
  deleted PackageName_table [] (record_events [] t) = t.
Proof.
  rewrite record_events_nil. unfold deleted, update_db.
  cbn [rows set_rows PackageName_table].
  rewrite filter_all by (intros; apply not_elem_of_nil).
  destruct t as [[] ? ? ? ?]. cbn. by rewrite app_nil_r.
Qed.

Lemma deleted_nothing_binaries (t : Task) :
  deleted BinaryPackageName_table [] (record_events [] t) = t.
Proof.
  rewrite record_events_nil. unfold deleted, update_db.
  cbn [rows set_rows BinaryPackageName_table].
  rewrite filter_all by (intros; apply not_elem_of_nil).
  destruct t as [[] ? ? ? ?]. cbn. by rewrite app_nil_r.
Qed.

Lemma lost_versions_after (t : Task) : lost_versions (after_binaries t) = [].
Proof.
  unfold lost_versions, zero_count. apply filter_none. intros v Hv.
  change (source_packages (db (after_binaries t)))
    with (filter (λ v, v ∉ lost_versions t) (source_packages (db t))) in Hv.
  apply list_elem_of_filter in Hv as [Hkept Hv].
  change (count_repository (db (after_binaries t)) v)
    with (count_repository (db t) v).
  intros Hzero. apply Hkept. unfold lost_versions, zero_count.
  by apply list_elem_of_filter.
Qed.

Lemma after_versions_after (t : Task) :
  after_versions (after_binaries t) = after_binaries t.
Proof.
  unfold after_versions. rewrite lost_versions_after.
  apply deleted_nothing_versions.
Qed.

Lemma lost_names_after (t : Task) : lost_names (after_binaries t) = [].
Proof.
  unfold lost_names. rewrite after_versions_after.
  unfold zero_count. apply filter_none. intros n Hn.
  apply list_elem_of_filter in Hn as [Hsource Hn].
  change (package_names (db (after_binaries t)))
    with (filter (λ n, n ∉ lost_names t) (package_names (db t))) in Hn.
  apply list_elem_of_filter in Hn as [Hkept Hn].
  change (count_source_package_versions (db (after_binaries t)) n)
    with (count_source_package_versions (db (after_versions t)) n).
  intros Hzero. apply Hkept. unfold lost_names, zero_count.
  apply list_elem_of_filter. split; [done|].
  by apply list_elem_of_filter.
Qed.

Lemma after_names_after (t : Task) :
  after_names (after_binaries t) = after_binaries t.
Proof.
  unfold after_names. rewrite lost_names_after, after_versions_after.
  apply deleted_nothing_names.
Qed.

Lemma lost_binaries_after (t : Task) : lost_binaries (after_binaries t) = [].
Proof.
  unfold lost_binaries. rewrite after_names_after.
  unfold zero_count. apply filter_none. intros b Hb.
  change (binary_package_names (db (after_binaries t)))
    with (filter (λ b, b ∉ lost_binaries t)
            (binary_package_names (db (after_names t)))) in Hb.
  apply list_elem_of_filter in Hb as [Hkept Hb].
  change (count_sourcepackage (db (after_binaries t)) b)
    with (count_sourcepackage (db (after_names t)) b).
  intros Hzero. apply Hkept. unfold lost_binaries, zero_count.
  by apply list_elem_of_filter.
Qed.

(** X8.  [_remove_obsolete_packages] leaves nothing for itself to do: run
    again right after, it deletes no row and raises no event. *)
Theorem garbage_collection_settles (t : Task) :
  let t' := (_remove_obsolete_packages t).2 in
  _remove_obsolete_packages t' = (Return tt, t').
Proof.
  cbv zeta. rewrite !_remove_obsolete_packages_run. cbn [snd].
  f_equal. unfold after_binaries at 1.
  rewrite lost_binaries_after, after_names_after.
  apply deleted_nothing_binaries.
Qed.

Lemma count_repository_positive (s : Store) e :
  e ∈ repository_entries s → count_repository s (entry_source_package e) ≠ 0.
Proof.
  intros He. unfold count_repository.
  assert (Hin : e ∈ filter (λ x, entry_source_package x
                                 = entry_source_package e)
                      (repository_entries s))
    by by apply list_elem_of_filter.
  destruct (filter _ _); [by apply elem_of_nil in Hin|done].
Qed.

Lemma after_binaries_entries_versions (t : Task) e :
  well_formed (db t) → e ∈ repository_entries (db t) →
  entry_source_package e ∈ source_packages (db (after_binaries t)).
Proof.
  intros Hwf He. rewrite after_binaries_source_packages.
  apply list_elem_of_filter. split; [|by apply (wf_entries_versions _ Hwf)].
  unfold lost_versions, zero_count.
  intros [Hzero _]%list_elem_of_filter.
  by apply (count_repository_positive _ _ He).
Qed.

Lemma after_binaries_well_formed (t : Task) :
  well_formed (db t) → well_formed (db (after_binaries t)).
Proof.
  intros Hwf. pose proof Hwf as [Hids Hbound Hvu Hev Heu].
  split; try done.
  - intros p q. rewrite after_binaries_source_packages.
    intros [_ Hp]%list_elem_of_filter [_ Hq]%list_elem_of_filter.
    by apply Hvu.
  - intros e He. by apply after_binaries_entries_versions.
Qed.

(** X9.  [_remove_obsolete_packages] keeps the keys of the store: it never
    deletes a version that a repository entry refers to, and it leaves the
    repository entries alone. *)
Theorem garbage_collection_keeps_keys (t : Task) :
  well_formed (db t) →
  let s' := db (_remove_obsolete_packages t).2 in
  well_formed s'
  ∧ repository_entries s' = repository_entries (db t)
  ∧ ∀ e, e ∈ repository_entries s' →
         entry_source_package e ∈ source_packages s'.
Proof.
  intros Hwf. cbv zeta.
  rewrite _remove_obsolete_packages_run. cbn [snd].
  split_and!; [by apply after_binaries_well_formed|done|].
  intros e He. by apply after_binaries_entries_versions.
Qed.

(** **** Handling the listing files only adds *)

(** A computation whose final state is always related to its initial state
    by [R], whether it returns or raises. *)
Definition always {A} (R : relation Task) (c : Run A) : Prop :=
  ∀ t, R t (c t).2.

Lemma always_ret {A} (R : relation Task) `{!Reflexive R} (a : A) :
  always R (mret a).
Proof. intros t. cbn. reflexivity. Qed.

Lemma always_raise {A} (R : relation Task) `{!Reflexive R} (e : Exception) :
  always R (raise e : Run A).
Proof. intros t. cbn. reflexivity. Qed.

Lemma always_modify (R : relation Task) (f : Task → Task) :
  (∀ t, R t (f t)) → always R (modify f).
Proof. intros H t. apply H. Qed.

Lemma always_bind {A B} (R : relation Task) `{!Transitive R}
    (c : Run A) (k : A → Run B) :
  always R c → (∀ a, always R (k a)) → always R (c ≫= k).
Proof.
  intros Hc Hk t. specialize (Hc t). unfold mbind, M_bind.
  destruct (c t) as [[a|e] t1]; [|done].
  cbn in Hc. etrans; [exact Hc|apply Hk].
Qed.

Lemma always_get_bind {B} (R : relation Task) (k : Task → Run B) :
  (∀ t, R t (k t t).2) → always R (get ≫= k).
Proof. intros Hk t. apply Hk. Qed.

Lemma always_for_each {A} (R : relation Task) `{!PreOrder R}
    (l : list A) (body : A → Run unit) :
  (∀ x, always R (body x)) → always R (for_each l body).
Proof.
  intros Hbody. induction l as [|x l IH].
  - apply always_ret; apply _.
  - cbn [for_each]. apply always_bind; [apply _|apply Hbody|by intros].
Qed.

(** The package names, versions and repository entries, the events and the
    recorded ids are only extended. *)
Record grows (t t' : Task) : Prop := {
  grows_package_names :
    package_names (db t) `prefix_of` package_names (db t');
  grows_source_packages :
    source_packages (db t) `prefix_of` source_packages (db t');
  grows_repository_entries :
    repository_entries (db t) `prefix_of` repository_entries (db t');
  grows_events : events t `prefix_of` events t';
  grows_processed :
    _all_repository_entries t `prefix_of` _all_repository_entries t'
}.

Global Instance grows_preorder : PreOrder grows.
Proof.
  split.
  - intros t. by split.
  - intros t1 t2 t3 [] []. split; by etrans.
Qed.

Lemma raise_event_grows name arguments :
  always grows (raise_event name arguments).
Proof.
  intros t. unfold raise_event. case_bool_decide; [|reflexivity].
  split; try done; cbn; by apply prefix_app_r.
Qed.

Lemma ensure_source_package_name_grows stanza :
  always grows (ensure_source_package_name stanza).
Proof.
  unfold ensure_source_package_name, stanza_item.
  destruct (stanza_get "package" stanza) as [name|];
    [|by apply always_raise; apply _].
  apply always_bind; [apply _|apply always_ret; apply _|intros package].
  apply always_bind; [apply _| |intros [pn created]].
  - unfold SourcePackageName_get_or_create. apply always_get_bind. intros t.
    destruct (list_find _ _) as [[i p]|]; [reflexivity|].
    split; try done; cbn. by apply prefix_app_r.
  - apply always_bind; [apply _| |intros; apply always_ret; apply _].
    destruct created; [apply raise_event_grows|apply always_ret; apply _].
Qed.

Lemma ensure_source_package_grows src_pkg_name stanza :
  always grows (ensure_source_package src_pkg_name stanza).
Proof.
  intros t.
  destruct (stanza_get "version" stanza) as [version|] eqn:Hver.
  - destruct (list_find (λ p, sp_name p = pn_name src_pkg_name
                              ∧ sp_version p = version)
                (source_packages (db t))) as [[i existing]|] eqn:Hf.
    + rewrite (ensure_source_package_existing _ _ _ _ _ _ Hver Hf).
      reflexivity.
    + destruct (ensure_source_package_created _ _ _ _ Hver Hf)
        as (entry & bevs & t' & -> & Hsp & _ & _ & Hev & _ & Hpn & Hre
            & _ & _ & Hproc).
      cbn [snd]. split.
      * by rewrite Hpn.
      * rewrite Hsp. by apply prefix_app_r.
      * by rewrite Hre.
      * rewrite Hev. by apply prefix_app_r.
      * by rewrite Hproc.
  - unfold ensure_source_package, stanza_item. rewrite Hver. reflexivity.
Qed.

Lemma ensure_repository_entry_grows repository src_pkg stanza :
  always grows (ensure_repository_entry repository src_pkg stanza).
Proof.
  intros t. destruct (has_source_package (db t) repository src_pkg) eqn:Hv.
  - destruct (ensure_repository_entry_existing _ _ stanza _ Hv)
      as (e & _ & _ & _ & ->).
    split; try done. cbn. by apply prefix_app_r.
  - destruct (ensure_repository_entry_created _ _ stanza _ Hv)
      as (t' & -> & Hdb & Hev & Hproc).
    cbn [snd]. split; rewrite ?Hdb, ?Hev, ?Hproc; try done;
      cbn; by apply prefix_app_r.
Qed.

Lemma update_sources_stanza_grows repository stanza :
  always grows (update_sources_stanza repository stanza).
Proof.
  unfold update_sources_stanza.
  destruct (rejected stanza); [apply always_ret; apply _|].
  apply always_bind;
    [apply _|apply ensure_source_package_name_grows|intros pn].
  apply always_bind; [apply _|apply ensure_source_package_grows|intros v].
  apply ensure_repository_entry_grows.
Qed.

Lemma _update_sources_file_grows repository sources_file :
  always grows (_update_sources_file repository sources_file).
Proof.
  unfold _update_sources_file.
  destruct (open_sources sources_file);
    [|by apply always_raise; apply _].
  apply always_for_each; [apply _|]. intros stanza.
  apply update_sources_stanza_grows.
Qed.

Lemma _mark_sources_file_not_processed_grows repository sources_file :
  always grows (_mark_sources_file_not_processed repository sources_file).
Proof.
  unfold _mark_sources_file_not_processed.
  destruct (open_sources sources_file);
    [|by apply always_raise; apply _].
  apply always_bind; [apply _| |intros packages].
  { intros t. reflexivity. }
  apply always_get_bind. intros t.
  apply always_for_each; [apply _|]. intros e.
  destruct (packages !! _); [|by apply always_raise; apply _].
  case_decide; [|apply always_ret; apply _].
  apply always_modify. intros t0. split; try done.
  cbn. by apply prefix_app_r.
Qed.

(** X11.  Until [_update_repository_entries] is called, handling the files
    of a repository only adds: whether it ends normally or with an
    exception, every package name, version and repository entry that was
    stored is still stored, unchanged, and the events raised before are
    still the first events of the task. *)
Theorem handle_sources_files_only_adds repository sources_files (t : Task) :
  let t' := (handle_sources_files repository sources_files t).2 in
  package_names (db t) `prefix_of` package_names (db t')
  ∧ source_packages (db t) `prefix_of` source_packages (db t')
  ∧ repository_entries (db t) `prefix_of` repository_entries (db t')
  ∧ events t `prefix_of` events t'.
Proof.
  assert (H : always grows (handle_sources_files repository sources_files)).
  { unfold handle_sources_files.
    apply always_bind; [apply _| |intros _].
    - apply always_for_each; [apply _|]. intros f.
      apply _update_sources_file_grows.
    - apply always_for_each; [apply _|]. intros f.
      case_decide; [|apply always_ret; apply _].
      apply _mark_sources_file_not_processed_grows. }
  by destruct (H t).
Qed.

(** **** A second pass over a listing file *)

(** The paragraph is settled in the store: the vendor rule keeps it out, or
    its package name, its version and the entry of this version in the
    repository are stored. *)
Definition settled (repository : Repository) (stanza : Stanza) (s : Store)
  : Prop :=
  rejected stanza = true
  ∨ ∃ name version p v e,
      stanza_get "package" stanza = Some name
      ∧ stanza_get "version" stanza = Some version
      ∧ p ∈ SourcePackageName_all s ∧ pn_name p = name
      ∧ v ∈ source_packages s ∧ sp_name v = name ∧ sp_version v = version
      ∧ e ∈ repository_entries s
      ∧ entry_repository e = repository ∧ entry_source_package e = v.

Lemma prefix_of_elem_of {A} (l1 l2 : list A) x :
  l1 `prefix_of` l2 → x ∈ l1 → x ∈ l2.
Proof. intros [k ->] Hx. apply elem_of_app. by left. Qed.

Lemma settled_grows repository stanza (t t' : Task) :
  grows t t' → settled repository stanza (db t) →
  settled repository stanza (db t').
Proof.
  intros [Hpn Hsp Hre _ _] [Hrej|H]; [by left|right].
  destruct H as (name & version & p & v & e & Hn & Hv & Hp & Hpname & Hvin
                 & Hvn & Hvv & He & Her & Hes).
  exists name, version, p, v, e. split_and!; try done.
  - unfold SourcePackageName_all in *.
    apply list_elem_of_filter in Hp as [Hty Hp].
    apply list_elem_of_filter. split; [done|].
    by eapply prefix_of_elem_of.
  - by eapply prefix_of_elem_of.
  - by eapply prefix_of_elem_of.
Qed.

(** The package name of a paragraph is stored once
    [ensure_source_package_name] has returned. *)
Lemma ensure_source_package_name_stored (stanza : Stanza) (t t' : Task) pn :
  ensure_source_package_name stanza t = (Return pn, t') →
  pn ∈ SourcePackageName_all (db t')
  ∧ stanza_get "package" stanza = Some (pn_name pn).
Proof.
  unfold ensure_source_package_name, stanza_item.
  destruct (stanza_get "package" stanza) as [name|]; [|by run_step].
  run_step. unfold SourcePackageName_get_or_create. run_step.
  destruct (list_find _ (SourcePackageName_all (db t))) as [[i p]|] eqn:Hf.
  - apply list_find_Some in Hf as (Hi & Hp & _). run_step.
    intros [= <- <-]. split; [|by rewrite Hp].
    by eapply list_elem_of_lookup_2.
  - run_step. rewrite raise_event_declared by done.
    intros [= <- <-]. split; [|done].
    unfold SourcePackageName_all. cbn.
    rewrite filter_app. apply elem_of_app. right.
    rewrite filter_cons_True by done. by left.
Qed.

(** A paragraph whose processing returned is settled. *)
Lemma update_sources_stanza_settles repository stanza (t t' : Task) :
  well_formed (db t) →
  update_sources_stanza repository stanza t = (Return tt, t') →
  well_formed (db t') ∧ settled repository stanza (db t').
Proof.
  intros Hwf Hrun.
  destruct (update_sources_stanza_returned _ _ _ _ Hrun)
    as [[Hrej ->]|(Hrej & name & version & Hname & Hver)].
  { split; [done|by left]. }
  destruct (update_sources_stanza_run repository stanza t name version
              Hrej Hname Hver) as (v & e & t2 & Hrun2 & Hstep).
  rewrite Hrun in Hrun2. injection Hrun2 as <-.
  split; [by eapply step_well_formed|]. right.
  (* the package name *)
  assert (Hpn : ∃ p, p ∈ SourcePackageName_all (db t') ∧ pn_name p = name).
  { revert Hrun. unfold update_sources_stanza. rewrite Hrej. run_step.
    destruct (ensure_source_package_name stanza t) as [[pn|e1] ta] eqn:Ha;
      [|done].
    destruct (ensure_source_package_name_stored _ _ _ _ Ha) as [Hin Hpname].
    pose proof (ensure_source_package_grows pn stanza ta) as Hg1.
    destruct (ensure_source_package pn stanza ta) as [[v'|e2] tb] eqn:Hb;
      [|done].
    pose proof (ensure_repository_entry_grows repository v' stanza tb) as Hg2.
    intros Hc. rewrite Hc in Hg2. cbn [snd] in Hg1, Hg2.
    exists pn. split; [|congruence].
    unfold SourcePackageName_all in *.
    apply list_elem_of_filter in Hin as [Hty Hin].
    apply list_elem_of_filter. split; [done|].
    eapply prefix_of_elem_of; [apply (grows_package_names _ _ Hg2)|].
    eapply prefix_of_elem_of; [apply (grows_package_names _ _ Hg1)|done]. }
  destruct Hpn as (p & Hp & Hpname).
  exists name, version, p, v, e. split_and!; try done.
  - by eapply step_version_stored.
  - by eapply ps_name.
  - by eapply ps_version.
  - by eapply step_entry_stored.
  - by eapply ps_repository.
  - by eapply ps_source_package.
Qed.

(** A settled paragraph writes nothing and raises nothing: its entry is
    only recorded as still present. *)
Lemma update_sources_stanza_settled repository stanza (t : Task) :
  well_formed (db t) → settled repository stanza (db t) →
  ∃ ids,
    update_sources_stanza repository stanza t
    = (Return tt,
       set_all_repository_entries (_all_repository_entries t ++ ids) t).
Proof.
  intros Hwf [Hrej|H]; unfold update_sources_stanza; rewrite ?Hrej.
  { exists []. rewrite app_nil_r. by destruct t. }
  destruct H as (name & version & p & v & e & Hn & Hv & Hp & Hpname & Hvin
                 & Hvn & Hvv & He & Her & Hes).
  destruct (rejected stanza); [exists []; rewrite app_nil_r; by destruct t|].
  run_step.
  (* the name is found *)
  unfold ensure_source_package_name, stanza_item. rewrite Hn. run_step.
  unfold SourcePackageName_get_or_create. run_step.
  destruct (list_find (λ p0, pn_name p0 = name)
              (SourcePackageName_all (db t))) as [[i p']|] eqn:Hf.
  2:{ apply list_find_None in Hf. rewrite Forall_forall in Hf.
      by destruct (Hf p Hp). }
  apply list_find_Some in Hf as (_ & Hp' & _). run_step.
  (* the version is found *)
  destruct (list_find (λ q, sp_name q = pn_name p' ∧ sp_version q = version)
              (source_packages (db t))) as [[j v']|] eqn:Hfv.
  2:{ apply list_find_None in Hfv. rewrite Forall_forall in Hfv.
      destruct (Hfv v Hvin). split; congruence. }
  rewrite (ensure_source_package_existing p' stanza t version j v' Hv Hfv).
  apply list_find_Some in Hfv as (Hj & [Hv'n Hv'v] & _).
  assert (v' = v) as ->.
  { apply (wf_versions_unique _ Hwf); [|done|congruence|congruence].
    by eapply list_elem_of_lookup_2. }
  (* the entry is found *)
  assert (Hhas : has_source_package (db t) repository v = true).
  { apply bool_decide_eq_true, Exists_exists. by exists e. }
  destruct (ensure_repository_entry_existing repository v stanza t Hhas)
    as (e' & _ & _ & _ & ->).
  by exists [entry_id e'].
Qed.

Lemma update_sources_stanzas_settled repository (stanzas : list Stanza)
    (t : Task) :
  well_formed (db t) →
  Forall (λ stanza, settled repository stanza (db t)) stanzas →
  ∃ ids,
    for_each stanzas (update_sources_stanza repository) t
    = (Return tt,
       set_all_repository_entries (_all_repository_entries t ++ ids) t).
Proof.
  revert t. induction stanzas as [|stanza stanzas IH]; intros t Hwf Hall.
  - exists []. rewrite app_nil_r. by destruct t.
  - apply Forall_cons in Hall as [Hs Hall].
    destruct (update_sources_stanza_settled repository stanza t Hwf Hs)
      as (ids1 & Hrun1).
    cbn [for_each]. run_step. rewrite Hrun1.
    destruct (IH (set_all_repository_entries
                    (_all_repository_entries t ++ ids1) t) Hwf Hall)
      as (ids2 & ->).
    exists (ids1 ++ ids2). cbn. by rewrite app_assoc.
Qed.

(** X12.  A listing file that was processed is settled: on a store that
    respects its unique keys, when [_update_sources_file] has returned,
    processing the same file for the same repository again returns, writes
    no row and raises no event; it only records entries as still
    present. *)
Theorem _update_sources_file_settles repository sources_file (t t1 : Task) :
  well_formed (db t) →
  _update_sources_file repository sources_file t = (Return tt, t1) →
  ∃ ids,
    _update_sources_file repository sources_file t1
    = (Return tt,
       set_all_repository_entries (_all_repository_entries t1 ++ ids) t1).
Proof.
  intros Hwf. unfold _update_sources_file.
  destruct (open_sources sources_file) as [stanzas|]; [|done].
  intros Hrun.
  assert (H : well_formed (db t1)
              ∧ Forall (λ stanza, settled repository stanza (db t1)) stanzas).
  { apply (for_each_returned
             (λ handled t0,
                well_formed (db t0)
                ∧ Forall (λ stanza, settled repository stanza (db t0)) handled)
             stanzas (update_sources_stanza repository) t t1 Hrun).
    - by split.
    - intros handled x rest ta tb _ Hx [Hwfa Hall].
      destruct (update_sources_stanza_settles _ _ _ _ Hwfa Hx) as [Hwfb Hsx].
      split; [done|]. apply Forall_app. split; [|by constructor].
      pose proof (update_sources_stanza_grows repository x ta) as Hg.
      rewrite Hx in Hg. cbn [snd] in Hg.
      eapply Forall_impl; [exact Hall|]. intros st. by apply settled_grows. }
  destruct H as [Hwf1 Hall].
  by apply update_sources_stanzas_settled.
Qed.

(** **** Repositories without an updated file *)

(** The entries of the repositories outside [rs] are the same, in the same
    order. *)
Definition same_entries_outside (rs : list Repository) (t t' : Task)
  : Prop :=
  filter (λ e, entry_repository e ∉ rs) (repository_entries (db t'))
  = filter (λ e, entry_repository e ∉ rs) (repository_entries (db t)).

Global Instance same_entries_outside_preorder rs :
  PreOrder (same_entries_outside rs).
Proof.
  split.
  - by intros t.
  - intros t1 t2 t3 H12 H23. unfold same_entries_outside in *. congruence.
Qed.

Lemma same_entries_outside_same rs (t t' : Task) :
  repository_entries (db t') = repository_entries (db t) →
  same_entries_outside rs t t'.
Proof. unfold same_entries_outside. by intros ->. Qed.

Lemma raise_event_outside rs name arguments :
  always (same_entries_outside rs) (raise_event name arguments).
Proof.
  intros t. unfold raise_event. case_bool_decide; [|reflexivity].
  by apply same_entries_outside_same.
Qed.

Lemma ensure_source_package_name_outside rs stanza :
  always (same_entries_outside rs) (ensure_source_package_name stanza).
Proof.
  unfold ensure_source_package_name, stanza_item.
  destruct (stanza_get "package" stanza) as [name|];
    [|by apply always_raise; apply _].
  apply always_bind; [apply _|apply always_ret; apply _|intros package].
  apply always_bind; [apply _| |intros [pn created]].
  - unfold SourcePackageName_get_or_create. apply always_get_bind. intros t.
    destruct (list_find _ _) as [[i p]|]; [reflexivity|].
    by apply same_entries_outside_same.
  - apply always_bind; [apply _| |intros; apply always_ret; apply _].
    destruct created; [apply raise_event_outside|apply always_ret; apply _].
Qed.

Lemma ensure_source_package_outside rs src_pkg_name stanza :
  always (same_entries_outside rs) (ensure_source_package src_pkg_name stanza).
Proof.
  intros t.
  destruct (stanza_get "version" stanza) as [version|] eqn:Hver.
  - destruct (list_find (λ p, sp_name p = pn_name src_pkg_name
                              ∧ sp_version p = version)
                (source_packages (db t))) as [[i existing]|] eqn:Hf.
    + rewrite (ensure_source_package_existing _ _ _ _ _ _ Hver Hf).
      reflexivity.
    + destruct (ensure_source_package_created _ _ _ _ Hver Hf)
        as (entry & bevs & t' & -> & _ & _ & _ & _ & _ & _ & Hre & _).
      by apply same_entries_outside_same.
  - unfold ensure_source_package, stanza_item. rewrite Hver. reflexivity.
Qed.

Lemma ensure_repository_entry_outside rs repository src_pkg stanza :
  repository ∈ rs →
  always (same_entries_outside rs)
    (ensure_repository_entry repository src_pkg stanza).
Proof.
  intros Hr t. destruct (has_source_package (db t) repository src_pkg) eqn:Hv.
  - destruct (ensure_repository_entry_existing _ _ stanza _ Hv)
      as (e & _ & _ & _ & ->).
    by apply same_entries_outside_same.
  - destruct (ensure_repository_entry_created _ _ stanza _ Hv)
      as (t' & -> & Hdb & _ & _).
    unfold same_entries_outside. cbn [snd]. rewrite Hdb. cbn.
    rewrite filter_app, filter_cons_False, filter_nil, app_nil_r; [done|].
    cbn. by intros [].
Qed.

Lemma update_sources_stanza_outside rs repository stanza :
  repository ∈ rs →
  always (same_entries_outside rs) (update_sources_stanza repository stanza).
Proof.
  intros Hr. unfold update_sources_stanza.
  destruct (rejected stanza); [apply always_ret; apply _|].
  apply always_bind;
    [apply _|apply ensure_source_package_name_outside|intros pn].
  apply always_bind; [apply _|apply ensure_source_package_outside|intros v].
  by apply ensure_repository_entry_outside.
Qed.

Lemma _update_sources_file_outside rs repository sources_file :
  repository ∈ rs →
  always (same_entries_outside rs)
    (_update_sources_file repository sources_file).
Proof.
  intros Hr. unfold _update_sources_file.
  destruct (open_sources sources_file);
    [|by apply always_raise; apply _].
  apply always_for_each; [apply _|]. intros stanza.
  by apply update_sources_stanza_outside.
Qed.

Lemma _mark_sources_file_not_processed_outside rs repository sources_file :
  always (same_entries_outside rs)
    (_mark_sources_file_not_processed repository sources_file).
Proof.
  unfold _mark_sources_file_not_processed.
  destruct (open_sources sources_file);
    [|by apply always_raise; apply _].
  apply always_bind; [apply _| |intros packages].
  { intros t. reflexivity. }
  apply always_get_bind. intros t.
  apply always_for_each; [apply _|]. intros e.
  destruct (packages !! _); [|by apply always_raise; apply _].
  case_decide; [|apply always_ret; apply _].
  apply always_modify. intros t0. by apply same_entries_outside_same.
Qed.

Lemma filter_filter_weaker {A} (P Q : A → Prop) `{∀ x, Decision (P x)}
    `{∀ x, Decision (Q x)} (l : list A) :
  (∀ x, x ∈ l → P x → Q x) → filter P (filter Q l) = filter P l.
Proof.
  induction l as [|x l IH]; intros HPQ; [done|].
  assert (IH' : filter P (filter Q l) = filter P l).
  { apply IH. intros y Hy. apply HPQ. by right. }
  destruct (decide (P x)) as [HP|HP].
  - rewrite (filter_cons_True Q) by (apply HPQ; [by left|done]).
    rewrite !filter_cons_True by done. by rewrite IH'.
  - rewrite (filter_cons_False P x l) by done.
    destruct (decide (Q x)).
    + rewrite (filter_cons_True Q) by done.
      by rewrite filter_cons_False.
    + by rewrite (filter_cons_False Q).
Qed.

Lemma _update_repository_entries_outside rs repository :
  repository ∈ rs →
  always (same_entries_outside rs) (_update_repository_entries repository).
Proof.
  intros Hr t. rewrite _update_repository_entries_run.
  unfold same_entries_outside. cbn.
  apply filter_filter_weaker. intros e He Hout Hstale. apply Hout.
  unfold stale_entries in Hstale.
  apply list_elem_of_filter in Hstale as [_ Hstale].
  apply list_elem_of_filter in Hstale as [-> _]. done.
Qed.

Lemma update_repository_outside rs item :
  item.1 ∈ rs → always (same_entries_outside rs) (update_repository item).
Proof.
  destruct item as [repository sources_files]. cbn [fst]. intros Hr.
  unfold update_repository, handle_sources_files.
  apply always_bind; [apply _| |intros _].
  - apply always_bind; [apply _| |intros _].
    + apply always_for_each; [apply _|]. intros f.
      by apply _update_sources_file_outside.
    + apply always_for_each; [apply _|]. intros f.
      case_decide; [|apply always_ret; apply _].
      apply _mark_sources_file_not_processed_outside.
  - by apply _update_repository_entries_outside.
Qed.

Lemma always_for_each_in {A} (R : relation Task) `{!PreOrder R}
    (l : list A) (body : A → Run unit) :
  (∀ x, x ∈ l → always R (body x)) → always R (for_each l body).
Proof.
  induction l as [|x l IH]; intros Hbody.
  - apply always_ret; apply _.
  - cbn [for_each]. apply always_bind; [apply _| |intros _].
    + apply Hbody. by left.
    + apply IH. intros y Hy. apply Hbody. by right.
Qed.

Lemma group_by_repository_keys (l : list (Repository * string))
    (g : list (Repository * list string)) r :
  r ∈ (foldl (λ repository_files '(repository, sources_file),
                setdefault_append repository sources_file repository_files)
         g l).*1 →
  r ∈ g.*1 ∨ r ∈ l.*1.
Proof.
  revert g. induction l as [|[r0 f] l IH]; intros g; cbn [foldl].
  - by left.
  - intros [Hr|Hr]%IH.
    + rewrite setdefault_append_keys in Hr. rewrite fmap_cons. cbn [fst].
      case_decide; [by left|].
      apply elem_of_app in Hr as [Hr| ->%list_elem_of_singleton];
        [by left|right; by left].
    + right. rewrite fmap_cons. by right.
Qed.

(** X13.  A run leaves the repositories without an updated [Sources] file
    alone: whether [execute] returns or raises, the repository entries of
    every repository that [update_repositories] reported no [Sources] file
    for are the same as before, in the same order. *)
Theorem execute_other_repositories_untouched (t : Task)
    updated_sources updated_packages :
  update_repositories (force_update t)
  = Return (updated_sources, updated_packages) →
  filter (λ e, entry_repository e ∉ updated_sources.*1)
    (repository_entries (db (execute t).2))
  = filter (λ e, entry_repository e ∉ updated_sources.*1)
      (repository_entries (db t)).
Proof.
  intros Hupdate. set (rs := updated_sources.*1).
  change (same_entries_outside rs t (execute t).2).
  assert (Hblock : always (same_entries_outside rs)
            (for_each (group_by_repository updated_sources) update_repository
             ;; _remove_obsolete_packages)).
  { apply always_bind; [apply _| |intros _].
    - apply always_for_each_in; [apply _|]. intros item Hitem.
      apply update_repository_outside.
      assert (Hkey : item.1 ∈ (group_by_repository updated_sources).*1)
        by by apply list_elem_of_fmap_2.
      apply group_by_repository_keys in Hkey as [Hkey|Hkey]; [|done].
      by apply elem_of_nil in Hkey.
    - intros t0. rewrite _remove_obsolete_packages_run.
      by apply same_entries_outside_same. }
  specialize (Hblock t).
  unfold execute, clear_all_events_on_exception, commit_on_success.
  run_step. rewrite Hupdate.
  unfold mbind, M_bind in Hblock.
  destruct (for_each (group_by_repository updated_sources)
              update_repository t) as [[[]|e1] t1].
  - rewrite _remove_obsolete_packages_run in Hblock |- *. exact Hblock.
  - by apply same_entries_outside_same.
Qed.

(** **** The binary packages of a new version *)

(** What the conversion of the contributors leaves alone. *)
Definition same_binaries_and_events (t t' : Task) : Prop :=
  binary_package_names (db t') = binary_package_names (db t)
  ∧ events t' = events t.

Global Instance same_binaries_and_events_preorder :
  PreOrder same_binaries_and_events.
Proof.
  split.
  - by intros t.
  - intros t1 t2 t3 [? ?] [? ?]. split; congruence.
Qed.















(** **** A run that returns *)

Lemma update_repository_well_formed item (t t' : Task) :
  well_formed (db t) → _all_repository_entries t = [] →
  update_repository item t = (Return tt, t') →
  well_formed (db t') ∧ _all_repository_entries t' = [].
Proof.
  destruct item as [repository sources_files]. intros Hwf Hempty.
  unfold update_repository, mbind, M_bind.
  destruct (handle_sources_files repository sources_files t)
    as [[[]|e] t1] eqn:Hrun; [|done].
  destruct (handle_sources_files_returned _ _ _ _ Hwf Hempty Hrun)
    as [Hwf1 _].
  rewrite _update_repository_entries_run. intros [= <-]. split; [|done].
  by apply (well_formed_entries_deleted (db t1)).
Qed.

Lemma count_positive_elem_of {A} (P : A → Prop) `{∀ x, Decision (P x)}
    (l : list A) :
  length (filter P l) ≠ 0 → ∃ x, x ∈ l ∧ P x.
Proof.
  destruct (filter P l) as [|x l'] eqn:Hf; [done|]. intros _.
  assert (Hx : x ∈ filter P l) by (rewrite Hf; by left).
  apply list_elem_of_filter in Hx as [? ?]. by exists x.
Qed.

(** X22.  A run that returns leaves a store without orphans.  Starting
    from a store that respects its unique keys, with no entry recorded as
    processed, [execute] ends with such a store again, and then every
    version has an entry in some repository, every source package name has
    a version, and every binary package name belongs to a version. *)
Theorem execute_leaves_no_orphan (t t' : Task) :
  well_formed (db t) → _all_repository_entries t = [] →
  execute t = (Return tt, t') →
  well_formed (db t')
  ∧ _all_repository_entries t' = []
  ∧ (∀ v, v ∈ source_packages (db t') →
          ∃ e, e ∈ repository_entries (db t') ∧ entry_source_package e = v)
  ∧ (∀ p, p ∈ SourcePackageName_all (db t') →
          ∃ v, v ∈ source_packages (db t') ∧ sp_name v = pn_name p)
  ∧ (∀ b, b ∈ binary_package_names (db t') →
          ∃ v, v ∈ source_packages (db t') ∧ b ∈ sp_binary_packages v).
Proof.
  intros Hwf Hempty.
  unfold execute, clear_all_events_on_exception, commit_on_success.
  run_step.
  destruct (update_repositories (force_update t))
    as [[updated_sources updated_packages]|e0]; [|done].
  destruct (for_each (group_by_repository updated_sources)
              update_repository t) as [[[]|e1] t1] eqn:Hloop; [|done].
  rewrite _remove_obsolete_packages_run. intros [= <-].
  assert (H1 : well_formed (db t1) ∧ _all_repository_entries t1 = []).
  { apply (for_each_returned
             (λ _ t0, well_formed (db t0) ∧ _all_repository_entries t0 = [])
             _ _ _ _ Hloop); [done|].
    intros handled item rest ta tb _ Hbody [Hwfa Hemptya].
    by eapply update_repository_well_formed. }
  destruct H1 as [Hwf1 Hempty1].
  split_and!.
  - by apply after_binaries_well_formed.
  - done.
  - intros v. rewrite after_binaries_source_packages.
    intros [Hkept Hv]%list_elem_of_filter.
    destruct (count_positive_elem_of
                (λ e, entry_source_package e = v)
                (repository_entries (db t1))) as (e & He & Hev).
    { intros Hzero. apply Hkept. unfold lost_versions, zero_count.
      by apply list_elem_of_filter. }
    by exists e.
  - intros p Hp.
    assert (Hp' : p ∈ SourcePackageName_all (db (after_versions t1))
                  ∧ p ∉ lost_names t1).
    { unfold SourcePackageName_all in *.
      rewrite after_binaries_package_names in Hp.
      apply list_elem_of_filter in Hp as [Hty Hp].
      apply list_elem_of_filter in Hp as [Hkept Hp].
      split; [|done]. by apply list_elem_of_filter. }
    destruct Hp' as [Hin Hkept].
    destruct (count_positive_elem_of
                (λ v, sp_name v = pn_name p)
                (source_packages (db (after_versions t1))))
      as (v & Hv & Hname).
    { intros Hzero. apply Hkept. unfold lost_names, zero_count.
      by apply list_elem_of_filter. }
    exists v. by rewrite <-after_versions_source_packages.
  - intros b Hb.
    change (binary_package_names (db (after_binaries t1)))
      with (filter (λ b, b ∉ lost_binaries t1)
              (binary_package_names (db (after_names t1)))) in Hb.
    apply list_elem_of_filter in Hb as [Hkept Hb].
    destruct (count_positive_elem_of
                (λ v, b ∈ sp_binary_packages v)
                (source_packages (db (after_names t1))))
      as (v & Hv & Hin).
    { intros Hzero. apply Hkept. unfold lost_binaries, zero_count.
      by apply list_elem_of_filter. }
    by exists v.
Qed.

End UpdateRepositories.

(** *** Lists and paths *)

(** [[f(x) for x in l]] *)
Fixpoint collect {E A B} (f : A → Result E B) (l : list A)
  : Result E (list B) :=
  match l with
  | [] => Return []
  | x :: rest =>
      match f x with
      | Raise e => Raise e
      | Return y =>
          match collect f rest with
          | Raise e => Raise e
          | Return ys => Return (y :: ys)
          end
      end
  end.

(** [arguments.get(key)] *)
Fixpoint arguments_get (key : string) (arguments : list (string * Arg))
  : option Arg :=
  match arguments with
  | [] => None
  | (k, value) :: rest =>
      if decide (k = key) then Some value else arguments_get key rest
  end.

(** [event.arguments[key]] *)
Definition argument (key : string) (event : Event) : Result Exception Arg :=
  match arguments_get key (event_arguments event) with
  | Some value => Return value
  | None => Raise (KeyError key)
  end.

(** [os.path.join(a, b)] on a POSIX system. *)
Definition starts_with_slash (s : string) : bool :=
  match s with
  | String c _ => bool_decide (c = "/"%char)
  | EmptyString => false
  end.

Fixpoint ends_with_slash (s : string) : bool :=
  match s with
  | EmptyString => false
  | String c EmptyString => bool_decide (c = "/"%char)
  | String _ s' => ends_with_slash s'
  end.

Definition os_path_join (a b : string) : string :=
  if starts_with_slash b then b
  else if bool_decide (a = "") || ends_with_slash a then a +:+ b
  else a +:+ "/" +:+ b.

(** *** [ExtractSourcePackageFiles] *)

Module ExtractSourcePackageFiles.

Global Instance Exception_eq_dec : EqDecision Exception.
Proof. solve_decision. Defined.

(** A row of [ExtractedSourceFile]. *)
Record ExtractedSourceFile := mkExtractedSourceFile {
  esf_source_package : SourcePackage;
  esf_extracted_file : string;
  esf_name : string
}.

(** The task with what it reads and writes: the events it received
    ([get_all_events]), the store, the extracted files, the events it
    raised and the log. *)
Record Extraction := mkExtraction {
  all_events : list Event;
  store : Store;
  extracted_source_files : list ExtractedSourceFile;
  raised_events : list Event;
  log : list string
}.

Definition add_extracted_source_file (row : ExtractedSourceFile)
    (x : Extraction) : Extraction :=
  mkExtraction (all_events x) (store x) (extracted_source_files x ++ [row])
    (raised_events x) (log x).

Definition add_raised_event (event : Event) (x : Extraction) : Extraction :=
  mkExtraction (all_events x) (store x) (extracted_source_files x)
    (raised_events x ++ [event]) (log x).

Definition add_log (message : string) (x : Extraction) : Extraction :=
  mkExtraction (all_events x) (store x) (extracted_source_files x)
    (raised_events x) (log x ++ [message]).

Abbreviation Extract := (M Extraction Exception).

Definition PRODUCES_EVENTS : list string := ["source-files-extracted"].

(** Modelled from the spec: [BaseTask.raise_event] ([pts.core.tasks]) is not
    part of the sources; see [raise_event] of the repository update. *)
Definition raise_event (name : string) (arguments : list (string * Arg))
  : Extract unit :=
  if bool_decide (name ∈ PRODUCES_EVENTS) then
    modify (add_raised_event (mkEvent name arguments))
  else raise (UndeclaredEvent name).

Section Task.
(** [AptCache.retrieve_source(name, version, debian_directory_only=True)]:
    the directory of the unpacked source, unless the retrieval fails. *)
Variable retrieve_source : string → string → Result Exception string.
(** [os.path.exists] *)
Variable os_path_exists : string → bool.
(** [open(file_path, 'r')]: the file, unless it cannot be opened. *)
Variable open_file : string → option string.
(** The conversion of a value given to the lookup [pk__in]. *)
Variable to_pk : Arg → Result Exception nat.
(** The text of a source package in a message. *)
Variable SourcePackage_str : SourcePackage → string.

Definition files_to_extract : list string :=
  ["changelog"; "copyright"; "rules"; "control"; "watch"].

(** The body of the loop of [extract_files]. *)
Definition extract_file (source_package : SourcePackage)
    (debian_directory file_name : string) : Extract unit :=
  let file_path := os_path_join debian_directory file_name in
  if negb (os_path_exists file_path) then mret tt
  else
    match open_file file_path with
    | None => raise (IOError file_path)
    | Some extracted_file =>
        modify (add_extracted_source_file
                  (mkExtractedSourceFile source_package extracted_file
                     file_name))
    end.

(** [extract_files] *)
Definition extract_files (source_package : SourcePackage) : Extract unit :=
  match retrieve_source (sp_name source_package)
          (sp_version source_package) with
  | Raise e => raise e
  | Return source_directory =>
      let debian_directory := os_path_join source_directory "debian" in
      for_each files_to_extract
        (extract_file source_package debian_directory)
  end.

(** [logger.exception] with the message of [execute]. *)
Definition problem (source_package : SourcePackage) : string :=
  "Problem extracting source files for "
  +:+ SourcePackage_str source_package
  +:+ " version " +:+ sp_version source_package.

(** The source packages [execute] goes through: the rows whose primary key
    is among the lookup values. *)
Definition selected (pks : list nat) (s : Store) : list SourcePackage :=
  filter (λ p, sp_pk p ∈ pks) (source_packages s).

(** [execute] *)
Definition execute : Extract unit :=
  x ← get;
  match collect (argument "pk") (all_events x) with
  | Raise e => raise e
  | Return new_version_pks =>
      match collect to_pk new_version_pks with
      | Raise e => raise e
      | Return pks =>
          for_each (selected pks (store x)) (λ source_package,
            try_except (extract_files source_package)
              (λ _, modify (add_log (problem source_package)))) ;;
          raise_event "source-files-extracted" []
      end
  end.

(** **** Properties *)

(** The primary keys [execute] looks up, when every event has one. *)
Definition looked_up (x : Extraction) : Result Exception (list nat) :=
  match collect (argument "pk") (all_events x) with
  | Raise e => Raise e
  | Return new_version_pks => collect to_pk new_version_pks
  end.

Definition add_rows (rows : list ExtractedSourceFile) (x : Extraction)
  : Extraction :=
  mkExtraction (all_events x) (store x) (extracted_source_files x ++ rows)
    (raised_events x) (log x).

Lemma add_rows_nil (x : Extraction) : add_rows [] x = x.
Proof. destruct x. unfold add_rows. cbn. by rewrite app_nil_r. Qed.

Lemma add_rows_app rows1 rows2 (x : Extraction) :
  add_rows rows2 (add_rows rows1 x) = add_rows (rows1 ++ rows2) x.
Proof. unfold add_rows. cbn. by rewrite app_assoc. Qed.

(** The files of a source package: each is one of the five, of this
    package, and no name comes twice. *)
Definition files_of (source_package : SourcePackage)
    (rows : list ExtractedSourceFile) : Prop :=
  Forall (λ row, esf_source_package row = source_package) rows
  ∧ esf_name <$> rows `sublist_of` files_to_extract.

(** What the body of the loop of [extract_files] does to a task does not
    depend on the task: it adds at most the row of its file. *)
Lemma extract_file_run source_package debian_directory (name : string) :
  ∃ outcome rows,
    Forall (λ row, esf_source_package row = source_package) rows
    ∧ esf_name <$> rows `sublist_of` [name]
    ∧ ∀ x, extract_file source_package debian_directory name x
           = (outcome, add_rows rows x).
Proof.
  unfold extract_file.
  destruct (os_path_exists (os_path_join debian_directory name)); cbn [negb].
  - destruct (open_file (os_path_join debian_directory name))
      as [extracted_file|].
    + exists (Return tt),
        [mkExtractedSourceFile source_package extracted_file name].
      split_and!; [by repeat constructor|done|done].
    + exists (Raise (IOError (os_path_join debian_directory name))), [].
      split_and!; [done|apply sublist_nil_l|].
      intros x. unfold raise. by rewrite add_rows_nil.
  - exists (Return tt), []. split_and!; [done|apply sublist_nil_l|].
    intros x. unfold mret, M_ret. by rewrite add_rows_nil.
Qed.

Lemma extract_file_loop source_package debian_directory (names : list string) :
  ∃ outcome rows,
    Forall (λ row, esf_source_package row = source_package) rows
    ∧ esf_name <$> rows `sublist_of` names
    ∧ ∀ x, for_each names (extract_file source_package debian_directory) x
           = (outcome, add_rows rows x).
Proof.
  induction names as [|name names (outcome & rows & Hsp & Hsub & IH)].
  - exists (Return tt), []. split_and!; [done|done|].
    intros x. by rewrite add_rows_nil.
  - destruct (extract_file_run source_package debian_directory name)
      as (outcome1 & rows1 & Hsp1 & Hsub1 & Hrun1).
    destruct outcome1 as [[]|e].
    + exists outcome, (rows1 ++ rows). split_and!.
      * by apply Forall_app.
      * rewrite fmap_app. change (name :: names) with ([name] ++ names).
        by apply sublist_app.
      * intros x. cbn [for_each]. unfold mbind, M_bind.
        by rewrite Hrun1, IH, add_rows_app.
    + exists (Raise e), rows1. split_and!; [done| |].
      * change (name :: names) with ([name] ++ names).
        by apply sublist_inserts_r.
      * intros x. cbn [for_each]. unfold mbind, M_bind. by rewrite Hrun1.
Qed.

Lemma extract_files_run source_package :
  ∃ outcome rows,
    files_of source_package rows
    ∧ ∀ x, extract_files source_package x = (outcome, add_rows rows x).
Proof.
  unfold extract_files.
  destruct (retrieve_source _ _) as [source_directory|e].
  - destruct (extract_file_loop source_package
                (os_path_join source_directory "debian") files_to_extract)
      as (outcome & rows & Hsp & Hsub & Hrun).
    by exists outcome, rows.
  - exists (Raise e), []. split; [split; [done|apply sublist_nil_l]|].
    intros x. unfold raise. by rewrite add_rows_nil.
Qed.

(** Whether the extraction for a source package fails; this does not
    depend on the task it starts from. *)
Definition fails (x : Extraction) (source_package : SourcePackage) : Prop :=
  (extract_files source_package x).1 ≠ Return tt.

Global Instance Result_eq_dec {A} `{EqDecision A}
  : EqDecision (Result Exception A).
Proof. solve_decision. Defined.

Global Instance fails_dec x source_package : Decision (fails x source_package).
Proof. unfold fails. apply _. Defined.

Lemma fails_any (x x0 : Extraction) source_package :
  fails x source_package ↔ fails x0 source_package.
Proof.
  unfold fails.
  destruct (extract_files_run source_package) as (outcome & rows & _ & H).
  by rewrite !H.
Qed.

Definition add_logs (messages : list string) (x : Extraction) : Extraction :=
  mkExtraction (all_events x) (store x) (extracted_source_files x)
    (raised_events x) (log x ++ messages).

(** The loop of [execute] never fails. *)
Lemma extract_each (x0 : Extraction) (source_packages : list SourcePackage)
    (x : Extraction) :
  ∃ rows,
    for_each source_packages (λ source_package,
      try_except (extract_files source_package)
        (λ _, modify (add_log (problem source_package)))) x
    = (Return tt,
       add_logs (problem <$> filter (fails x0) source_packages)
         (add_rows rows x))
    ∧ Forall (λ row, esf_source_package row ∈ source_packages
                     ∧ esf_name row ∈ files_to_extract) rows.
Proof.
  revert x. induction source_packages as [|p l IH]; intros x.
  - exists []. split; [|done]. cbn. destruct x. unfold add_logs, add_rows.
    cbn. by rewrite !app_nil_r.
  - destruct (extract_files_run p) as (outcome & rows1 & [Hsp Hsub] & Hrun).
    destruct (IH (match outcome with
                  | Return _ => add_rows rows1 x
                  | Raise _ => add_log (problem p) (add_rows rows1 x)
                  end)) as (rows2 & Hrest & Hrows2).
    exists (rows1 ++ rows2). split.
    + cbn [for_each]. unfold mbind, M_bind. unfold try_except at 1.
      rewrite Hrun.
      assert (Hfails : fails x0 p ↔ outcome ≠ Return tt).
      { rewrite (fails_any x0 x). unfold fails. by rewrite Hrun. }
      destruct outcome as [[]|e]; cbn beta iota in Hrest |- *.
      * rewrite Hrest. rewrite filter_cons_False by (rewrite Hfails; tauto).
        by rewrite add_rows_app.
      * unfold modify at 1. rewrite Hrest.
        rewrite filter_cons_True by (by rewrite Hfails).
        rewrite fmap_cons. unfold add_logs, add_log, add_rows. cbn.
        by rewrite <-!app_assoc.
    + apply Forall_app. split.
      * rewrite Forall_forall in Hsp. apply Forall_forall. intros row Hrow.
        split; [rewrite (Hsp row Hrow); by left|].
        eapply elem_of_sublist; [|exact Hsub]. by apply list_elem_of_fmap_2.
      * eapply Forall_impl; [exact Hrows2|]. intros row [? ?].
        split; [by right|done].
Qed.

(** X14.  [execute] does not fail because an extraction fails.  When an
    event without [pk], or with a [pk] the lookup refuses, makes it raise,
    nothing was extracted, logged or announced.  Otherwise it returns,
    having raised exactly one event, [source-files-extracted] without
    arguments, after everything else; it has logged one message for each
    selected source package whose extraction failed, in order, and every
    file it stored is one of the five files of a selected source package. *)
Theorem execute_announces_extraction (x : Extraction) :
  match looked_up x with
  | Raise e => execute x = (Raise e, x)
  | Return pks =>
      ∃ x',
        execute x = (Return tt, x')
        ∧ raised_events x'
          = raised_events x ++ [mkEvent "source-files-extracted" []]
        ∧ log x'
          = log x ++ (problem <$> filter (fails x) (selected pks (store x)))
        ∧ ∃ rows,
            extracted_source_files x' = extracted_source_files x ++ rows
            ∧ Forall (λ row,
                        esf_source_package row ∈ selected pks (store x)
                        ∧ esf_name row ∈ files_to_extract) rows
  end.
Proof.
  unfold looked_up, execute, get, mbind, M_bind.
  destruct (collect (argument "pk") (all_events x)) as [new_version_pks|e];
    [|done].
  destruct (collect to_pk new_version_pks) as [pks|e]; [|done].
  destruct (extract_each x (selected pks (store x)) x) as (rows & -> & Hrows).
  eexists. split; [reflexivity|]. cbn. split_and!; [done|done|].
  by exists rows.
Qed.

End Task.

End ExtractSourcePackageFiles.

(** *** [AptCache] *)

Module AptCache.

(** [s.startswith(prefix)], [s.endswith(suffix)] and [sub in s] *)
Fixpoint startswith (prefix s : string) : bool :=
  match prefix with
  | EmptyString => true
  | String a prefix' =>
      match s with
      | EmptyString => false
      | String b s' => bool_decide (a = b) && startswith prefix' s'
      end
  end.

Definition endswith (suffix s : string) : bool :=
  startswith (String.rev suffix) (String.rev s).

Fixpoint contains (sub s : string) : bool :=
  startswith sub s
  || match s with
     | EmptyString => false
     | String _ s' => contains sub s'
     end.

Inductive Error :=
| IndexError
| AptError (message : string).

Section Cache.
Variable cache_root_dir : string.
(** [os.listdir], without value when it raises [OSError], and
    [os.path.isfile]. *)
Variable os_listdir : string → option (list string).
Variable os_path_isfile : string → bool.
(** The entries of apt's source list ([apt_pkg.SourceList] after
    [read_main_list]), each with the descriptions of its index files. *)
Variable sources_list : list (list string).
(** [Repository.objects.all()] and the property [component_urls] of a
    repository, a list of texts. *)
Variable all_repositories : list Repository.
Variable component_urls : Repository → list string.
(** What [update_repositories] does before it looks at the fetched files:
    the cache is cleared when the download is forced, apt is configured and
    the cache updated; the result is [progress.fetched]. *)
Variable fetch : bool → Result Error (list string).

(** [_index_file_full_path] *)
Definition _index_file_full_path (file_name : string) : string :=
  os_path_join (os_path_join cache_root_dir "var/lib/apt/lists") file_name.

(** The inner loop of [_match_index_file_to_repository], up to its
    [break]: the first index file of the entry whose description contains
    the file name. *)
Definition matching_index_file (sources_file : string) (entry : list string)
  : option string :=
  snd <$> list_find (λ describe, contains sources_file describe = true) entry.

(** [split_description[0] + split_description[1]] *)
Definition component_url_of (describe : string) : Result Error string :=
  match Utils.split describe with
  | first :: second :: _ => Return (first +:+ second)
  | _ => Raise IndexError
  end.

(** The outer loop of [_match_index_file_to_repository]; [component_url]
    is the value of the variable so far. *)
Fixpoint scan_sources_list (sources_file : string)
    (entries : list (list string)) (component_url : option string)
  : Result Error (option string) :=
  match entries with
  | [] => Return component_url
  | entry :: rest =>
      match matching_index_file sources_file entry with
      | Some describe =>
          match component_url_of describe with
          | Raise e => Raise e
          | Return url => scan_sources_list sources_file rest (Some url)
          end
      | None => scan_sources_list sources_file rest component_url
      end
  end.

(** [_match_index_file_to_repository]; no list of texts contains [None],
    and a function that ends without [return] returns [None]. *)
Definition _match_index_file_to_repository (sources_file : string)
  : Result Error (option Repository) :=
  match scan_sources_list sources_file sources_list None with
  | Raise e => Raise e
  | Return None => Return None
  | Return (Some component_url) =>
      Return (snd <$> list_find (λ repository,
                         component_url ∈ component_urls repository)
                        all_repositories)
  end.

(** [_get_all_cached_files] *)
Definition _get_all_cached_files : list string :=
  let lists_directory := os_path_join cache_root_dir "var/lib/apt/lists" in
  match os_listdir lists_directory with
  | Some names =>
      filter (λ file_name,
                os_path_isfile (os_path_join lists_directory file_name) = true)
        names
  | None => []
  end.

(** [get_sources_files_for_repository] *)
Fixpoint sources_files_of (repository : Repository)
    (all_sources_files : list string) : Result Error (list string) :=
  match all_sources_files with
  | [] => Return []
  | sources_file_name :: rest =>
      match _match_index_file_to_repository sources_file_name with
      | Raise e => Raise e
      | Return matched =>
          match sources_files_of repository rest with
          | Raise e => Raise e
          | Return files =>
              if decide (matched = Some repository)
              then Return (_index_file_full_path sources_file_name :: files)
              else Return files
          end
      end
  end.

Definition get_sources_files_for_repository (repository : Repository)
  : Result Error (list string) :=
  let all_sources_files :=
    filter (λ file_name, endswith "Sources" file_name = true)
      _get_all_cached_files in
  sources_files_of repository all_sources_files.

(** The loop of [update_repositories] over the fetched files. *)
Fixpoint sort_fetched (fetched : list string)
    (updated_sources updated_packages : list (option Repository * string))
  : Result Error (list (option Repository * string)
                  * list (option Repository * string)) :=
  match fetched with
  | [] => Return (updated_sources, updated_packages)
  | fetched_file :: rest =>
      if endswith "Sources" fetched_file then
        match _match_index_file_to_repository fetched_file with
        | Raise e => Raise e
        | Return repository =>
            sort_fetched rest
              (updated_sources
               ++ [(repository, _index_file_full_path fetched_file)])
              updated_packages
        end
      else if endswith "Packages" fetched_file then
        match _match_index_file_to_repository fetched_file with
        | Raise e => Raise e
        | Return repository =>
            sort_fetched rest updated_sources
              (updated_packages
               ++ [(repository, _index_file_full_path fetched_file)])
        end
      else sort_fetched rest updated_sources updated_packages
  end.

(** [update_repositories] *)
Definition update_repositories (force_download : bool)
  : Result Error (list (option Repository * string)
                  * list (option Repository * string)) :=
  match fetch force_download with
  | Raise e => Raise e
  | Return fetched => sort_fetched fetched [] []
  end.

(** **** Properties *)

(** No file name ends in both [Sources] and [Packages]. *)
Lemma endswith_Sources_Packages (s : string) :
  endswith "Sources" s = true → endswith "Packages" s = false.
Proof.
  unfold endswith.
  change (String.rev "Sources") with "secruoS".
  change (String.rev "Packages") with "segakcaP".
  destruct (String.rev s) as [|c1 [|c2 [|c3 r]]]; cbn [startswith];
    try done.
  - by rewrite andb_false_r.
  - by rewrite !andb_false_r.
  - intros H. apply andb_prop in H as [_ H]. apply andb_prop in H as [_ H].
    apply andb_prop in H as [H _]. apply bool_decide_eq_true in H as <-.
    rewrite (bool_decide_eq_false_2 ("g"%char = "c"%char)) by done.
    by rewrite !andb_false_r.
Qed.

(** The pair recorded for a fetched file. *)
Definition recorded (file_name : string) (item : option Repository * string)
  : Prop :=
  _match_index_file_to_repository file_name = Return item.1
  ∧ item.2 = _index_file_full_path file_name.

Lemma sort_fetched_from (fetched : list string) updated_sources
    updated_packages :
  match sort_fetched fetched updated_sources updated_packages with
  | Return (updated_sources', updated_packages') =>
      ∃ new_sources new_packages,
        updated_sources' = updated_sources ++ new_sources
        ∧ updated_packages' = updated_packages ++ new_packages
        ∧ Forall2 recorded
            (filter (λ f, endswith "Sources" f = true) fetched) new_sources
        ∧ Forall2 recorded
            (filter (λ f, endswith "Packages" f = true) fetched) new_packages
  | Raise e =>
      ∃ f, f ∈ fetched
           ∧ (endswith "Sources" f = true ∨ endswith "Packages" f = true)
           ∧ _match_index_file_to_repository f = Raise e
  end.
Proof.
  revert updated_sources updated_packages.
  induction fetched as [|f fetched IH]; intros us ups; cbn [sort_fetched].
  - exists [], []. rewrite !app_nil_r. by split_and!.
  - destruct (endswith "Sources" f) eqn:Hs.
    + pose proof (endswith_Sources_Packages f Hs) as Hp.
      destruct (_match_index_file_to_repository f) as [r|e] eqn:Hm.
      * specialize (IH (us ++ [(r, _index_file_full_path f)]) ups).
        destruct (sort_fetched _ _ _) as [[us' ups']|e].
        -- destruct IH as (ns & np & -> & -> & Hns & Hnp).
           exists ((r, _index_file_full_path f) :: ns), np.
           rewrite <-app_assoc. split_and!; try done.
           ++ rewrite filter_cons_True by done. by constructor.
           ++ by rewrite filter_cons_False by (by rewrite Hp).
        -- destruct IH as (f' & Hf' & H). exists f'. split; [by right|done].
      * exists f. split_and!; [by left|by left|done].
    + destruct (endswith "Packages" f) eqn:Hp.
      * destruct (_match_index_file_to_repository f) as [r|e] eqn:Hm.
        -- specialize (IH us (ups ++ [(r, _index_file_full_path f)])).
           destruct (sort_fetched _ _ _) as [[us' ups']|e].
           ++ destruct IH as (ns & np & -> & -> & Hns & Hnp).
              exists ns, ((r, _index_file_full_path f) :: np).
              rewrite <-app_assoc. split_and!; try done.
              ** by rewrite filter_cons_False by (by rewrite Hs).
              ** rewrite filter_cons_True by done. by constructor.
           ++ destruct IH as (f' & Hf' & H). exists f'.
              split; [by right|done].
        -- exists f. split_and!; [by left|by right|done].
      * specialize (IH us ups).
        destruct (sort_fetched _ _ _) as [[us' ups']|e].
        -- destruct IH as (ns & np & -> & -> & Hns & Hnp).
           exists ns, np. split_and!; try done.
           ++ by rewrite filter_cons_False by (by rewrite Hs).
           ++ by rewrite filter_cons_False by (by rewrite Hp).
        -- destruct IH as (f' & Hf' & H). exists f'. split; [by right|done].
Qed.

(** X15.  [update_repositories] sorts the fetched files by their suffix:
    when it returns, the first list has, in order, one pair for each fetched
    file that ends in [Sources] and the second one pair for each that ends
    in [Packages], each pair made of the repository matched to the file and
    the full path of the file; every other file is dropped.  No file is in
    both lists.  It fails only as the update does, or as the matching of a
    file with one of the two suffixes does. *)
Theorem update_repositories_by_suffix (force_download : bool) :
  match fetch force_download with
  | Raise e => update_repositories force_download = Raise e
  | Return fetched =>
      match update_repositories force_download with
      | Return (updated_sources, updated_packages) =>
          Forall2 recorded
            (filter (λ f, endswith "Sources" f = true) fetched)
            updated_sources
          ∧ Forall2 recorded
              (filter (λ f, endswith "Packages" f = true
                            ∧ endswith "Sources" f = false) fetched)
              updated_packages
      | Raise e =>
          ∃ f, f ∈ fetched
               ∧ (endswith "Sources" f = true ∨ endswith "Packages" f = true)
               ∧ _match_index_file_to_repository f = Raise e
      end
  end.
Proof.
  unfold update_repositories.
  destruct (fetch force_download) as [fetched|e]; [|done].
  pose proof (sort_fetched_from fetched [] []) as H.
  destruct (sort_fetched fetched [] []) as [[us ups]|e]; [|done].
  destruct H as (ns & np & -> & -> & Hns & Hnp). split; [done|].
  cbn [app].
  replace (filter (λ f, endswith "Packages" f = true
                        ∧ endswith "Sources" f = false) fetched)
    with (filter (λ f, endswith "Packages" f = true) fetched); [done|].
  apply list_filter_iff. intros f. split; [|by intros []].
  intros Hp. split; [done|].
  destruct (endswith "Sources" f) eqn:Hs; [|done].
  by rewrite (endswith_Sources_Packages f Hs) in Hp.
Qed.

(** The descriptions [_match_index_file_to_repository] reads: for each
    entry with one, its first index file whose description contains the
    file name. *)
Definition described (sources_file : string) (entries : list (list string))
  : list string :=
  omap (matching_index_file sources_file) entries.

Lemma scan_sources_list_from (sources_file : string) entries component_url :
  scan_sources_list sources_file entries component_url
  = match collect component_url_of (described sources_file entries) with
    | Raise e => Raise e
    | Return urls =>
        Return (match last urls with
                | Some url => Some url
                | None => component_url
                end)
    end.
Proof.
  revert component_url.
  induction entries as [|entry entries IH]; intros cu; [done|].
  cbn [scan_sources_list]. unfold described in *. cbn [omap list_omap].
  destruct (matching_index_file sources_file entry) as [d|]; [|apply IH].
  cbn [collect]. destruct (component_url_of d) as [url|e]; [|done].
  rewrite IH.
  destruct (collect component_url_of _) as [urls|e]; [|done].
  rewrite last_cons. by destruct (last urls).
Qed.

(** X16.  In [_match_index_file_to_repository] the [break] leaves the
    inner loop only: every entry of the source list is read, in each the
    first index file whose description contains the file name counts, and
    the last entry with such an index file decides.  The answer is the
    first repository that has the component URL made of the first two words
    of that description, and [None] when no entry has such an index file or
    no repository has the URL; a description with fewer than two words, in
    whatever entry, makes it fail. *)
Theorem _match_index_file_last_entry (sources_file : string) :
  _match_index_file_to_repository sources_file
  = match collect component_url_of (described sources_file sources_list) with
    | Raise e => Raise e
    | Return urls =>
        Return (component_url ← last urls;
                snd <$> list_find (λ repository,
                          component_url ∈ component_urls repository)
                         all_repositories)
    end.
Proof.
  unfold _match_index_file_to_repository.
  rewrite scan_sources_list_from.
  destruct (collect component_url_of (described sources_file sources_list))
    as [urls|e]; [|done].
  by destruct (last urls).
Qed.

Lemma sources_files_of_elem_of repository names files f matched :
  sources_files_of repository names = Return files →
  f ∈ names →
  _match_index_file_to_repository f = Return matched →
  matched = Some repository →
  _index_file_full_path f ∈ files.
Proof.
  revert files. induction names as [|n names IH]; intros files Hrun Hf Hm ->.
  - by apply elem_of_nil in Hf.
  - cbn [sources_files_of] in Hrun.
    destruct (_match_index_file_to_repository n) as [mn|e] eqn:Hn; [|done].
    destruct (sources_files_of repository names) as [files'|e]; [|done].
    apply elem_of_cons in Hf as [->|Hf].
    + rewrite Hm in Hn. injection Hn as <-.
      rewrite decide_True in Hrun by done. injection Hrun as <-. by left.
    + specialize (IH files' eq_refl Hf Hm eq_refl).
      destruct (decide (mn = Some repository)); injection Hrun as <-;
        [by right|done].
Qed.

(** X17.  A [Sources] file that was fetched and is a file of the cache is
    known to both functions under the same path: when both return, the file
    is in the updated sources with the repository matched to it, and, when
    this is the given repository, among the [Sources] files cached for it.
    So [execute] of the repository update, which reads again the cached
    files of the repository that are not among its updated files, does not
    read such a file again. *)
Theorem fetched_sources_file_is_cached (force_download : bool)
    (repository : Repository) fetched updated_sources updated_packages
    files (f : string) :
  fetch force_download = Return fetched →
  update_repositories force_download
  = Return (updated_sources, updated_packages) →
  get_sources_files_for_repository repository = Return files →
  f ∈ fetched → f ∈ _get_all_cached_files → endswith "Sources" f = true →
  ∃ matched,
    _match_index_file_to_repository f = Return matched
    ∧ (matched, _index_file_full_path f) ∈ updated_sources
    ∧ (matched = Some repository → _index_file_full_path f ∈ files).
Proof.
  intros Hfetch Hupdate Hfiles Hf Hcached Hs.
  unfold update_repositories in Hupdate. rewrite Hfetch in Hupdate.
  pose proof (sort_fetched_from fetched [] []) as H.
  rewrite Hupdate in H. destruct H as (ns & np & -> & _ & Hns & _).
  assert (Hin : f ∈ filter (λ f, endswith "Sources" f = true) fetched)
    by by apply list_elem_of_filter.
  apply list_elem_of_lookup in Hin as [i Hi].
  destruct (Forall2_lookup_l _ _ _ _ _ Hns Hi) as ([m path] & Hitem & Hm & Hp).
  cbn in Hm, Hp. subst path. exists m. split_and!; [done| |].
  - eapply list_elem_of_lookup_2. exact Hitem.
  - intros Hrepo. unfold get_sources_files_for_repository in Hfiles.
    eapply sources_files_of_elem_of; [exact Hfiles| |exact Hm|exact Hrepo].
    by apply list_elem_of_filter.
Qed.

End Cache.

End AptCache.

(** *** [retrieve_repository_info] *)

Module RepositoryInfo.

(** [s.split(None, maxsplit)]: at most [maxsplit] words are split off, the
    rest of the text, without the whitespace before it, is the last
    element.  [word] is the word being read. *)
Fixpoint split_max_from (maxsplit : nat) (word s : string) : list string :=
  match s with
  | EmptyString => if decide (word = "") then [] else [word]
  | String c s' =>
      if Utils.is_whitespace c then
        (if decide (word = "") then split_max_from maxsplit "" s'
         else word :: split_max_from (pred maxsplit) "" s')
      else if decide (word = "") then
        match maxsplit with
        | 0 => [String c s']
        | S _ => split_max_from maxsplit (String c "") s'
        end
      else split_max_from maxsplit (word +:+ String c "") s'
  end.

Definition split_max (maxsplit : nat) (s : string) : list string :=
  split_max_from maxsplit "" s.

(** [InvalidRepositoryException], by the message it is raised with:
    [Invalid sources.list entry], [Could not connect to url, original],
    [No Release file found at the URL: url, Response status code],
    [No data could be extracted from the Release file at url] and
    [Property key not found in the Release file at url]. *)
Inductive InvalidRepositoryException :=
| InvalidEntry
| CouldNotConnect (url original : string)
| NoReleaseFile (url : string) (status_code : nat)
| NoData (url : string)
| PropertyNotFound (key url : string).

Record Response := mkResponse {
  status_code : nat;
  text : string
}.

(** The dictionary the function returns. *)
Record RepositoryInformation := mkRepositoryInformation {
  info_uri : string;
  info_architectures : list string;
  info_components : list string;
  info_binary : bool;
  info_source : bool;
  info_suite : string;
  info_codename : option string
}.

Section Retrieve.
(** [Repository.release_file_url] *)
Variable release_file_url : string → string → string.
(** [requests.get]: the response, or the text of the
    [RequestException]. *)
Variable requests_get : string → Result string Response.
(** [deb822.Release] and what the function asks of it: whether it is
    empty, and the value of a key. *)
Variable Release : Type.
Variable deb822_Release : string → Release.
Variable release_is_empty : Release → bool.
Variable release_get : Release → string → option string.

(** The state is the list of the URLs requested so far. *)
Abbreviation Retrieval := (M (list string) InvalidRepositoryException).

(** The [try] around [requests.get] *)
Definition get_release_file (url distribution : string)
  : Retrieval Response :=
  modify (λ requested, requested ++ [release_file_url url distribution]) ;;
  match requests_get (release_file_url url distribution) with
  | Return response => mret response
  | Raise original => raise (CouldNotConnect url original)
  end.

(** [retrieve_repository_info] *)
Definition retrieve_repository_info (sources_list_entry : string)
  : Retrieval RepositoryInformation :=
  let entry_split := split_max 3 sources_list_entry in
  match entry_split with
  | repository_type :: url :: distribution :: _ =>
      response ← get_release_file url distribution;
      if decide (status_code response ≠ 200) then
        raise (NoReleaseFile url (status_code response))
      else
        let release := deb822_Release (text response) in
        if release_is_empty release then raise (NoData url)
        else
          match release_get release "architectures" with
          | None => raise (PropertyNotFound "architectures" url)
          | Some architectures =>
              match release_get release "components" with
              | None => raise (PropertyNotFound "components" url)
              | Some components =>
                  mret (mkRepositoryInformation url
                          (Utils.split architectures)
                          (Utils.split components)
                          (bool_decide (repository_type = "deb"))
                          (bool_decide (repository_type = "deb-src"))
                          (default distribution (release_get release "suite"))
                          (release_get release "codename"))
              end
          end
  | _ => raise InvalidEntry
  end.

(** **** Properties *)

(** Up to [maxsplit] words, splitting with a limit is splitting. *)
Lemma split_max_from_take (s : string) :
  (∀ n, take n (split_max_from n "" s) = take n (Utils.split_from "" s))
  ∧ (∀ n word, word ≠ "" →
       take (S n) (split_max_from (S n) word s)
       = take (S n) (Utils.split_from word s)).
Proof.
  induction s as [|c s [IH1 IH2]]; split.
  - done.
  - intros n word Hw. cbn. by rewrite !decide_False by done.
  - intros n. cbn [split_max_from Utils.split_from].
    destruct (Utils.is_whitespace c).
    + rewrite !decide_True by done. apply IH1.
    + rewrite decide_True by done. rewrite Utils.append_nil_l.
      destruct n as [|n]; [done|]. by apply IH2.
  - intros n word Hw. cbn [split_max_from Utils.split_from].
    destruct (Utils.is_whitespace c).
    + rewrite !decide_False by done. cbn [pred take]. by rewrite IH1.
    + rewrite decide_False by done. apply IH2. by destruct word.
Qed.

Lemma split_max_take (n : nat) (s : string) :
  take n (split_max n s) = take n (Utils.split s).
Proof. apply split_max_from_take. Qed.

(** X18.  [retrieve_repository_info] reads the first three words of the
    entry, whatever follows them.  With fewer than three words it raises
    [Invalid sources.list entry] and requests nothing.  Otherwise it
    requests the release file of the second and third word, once, and when
    it returns, the answer was 200, the release has both required keys, the
    URI is the second word, the suite is the third word unless the release
    names one, and [binary] and [source] tell whether the first word is
    [deb] or [deb-src]: never both, and neither for any other word. *)
Theorem retrieve_repository_info_fields (sources_list_entry : string)
    (requested : list string) :
  let run := retrieve_repository_info sources_list_entry requested in
  match Utils.split sources_list_entry with
  | repository_type :: url :: distribution :: _ =>
      run.2 = requested ++ [release_file_url url distribution]
      ∧ match run.1 with
        | Return info =>
            (∃ response release,
               requests_get (release_file_url url distribution)
               = Return response
               ∧ status_code response = 200
               ∧ release = deb822_Release (text response)
               ∧ release_is_empty release = false
               ∧ Utils.split <$> release_get release "architectures"
                 = Some (info_architectures info)
               ∧ Utils.split <$> release_get release "components"
                 = Some (info_components info)
               ∧ info_suite info
                 = default distribution (release_get release "suite")
               ∧ info_codename info = release_get release "codename")
            ∧ info_uri info = url
            ∧ info_binary info = bool_decide (repository_type = "deb")
            ∧ info_source info = bool_decide (repository_type = "deb-src")
            ∧ info_binary info && info_source info = false
        | Raise e => e ≠ InvalidEntry
        end
  | _ => run = (Raise InvalidEntry, requested)
  end.
Proof.
  intros run. subst run. unfold retrieve_repository_info.
  pose proof (split_max_take 3 sources_list_entry) as Htake.
  destruct (Utils.split sources_list_entry) as [|a [|b [|c rest]]];
    destruct (split_max 3 sources_list_entry) as [|a' [|b' [|c' rest']]];
    try done.
  cbn [take] in Htake. injection Htake as -> -> ->.
  unfold get_release_file, mbind, M_bind, modify, mret, M_ret, raise.
  destruct (requests_get (release_file_url b c)) as [response|original];
    [|done].
  destruct (decide (status_code response ≠ 200)) as [|Hstatus]; [done|].
  apply dec_stable in Hstatus.
  destruct (release_is_empty (deb822_Release (text response))) eqn:Hempty;
    [done|].
  destruct (release_get _ "architectures") as [architectures|] eqn:Ha;
    [|done].
  destruct (release_get _ "components") as [components|] eqn:Hc; [|done].
  cbn. split; [done|]. split_and!; try done.
  - exists response, (deb822_Release (text response)).
    rewrite Ha, Hc. by split_and!.
  - repeat case_bool_decide; simplify_eq; done.
Qed.

End Retrieve.

End RepositoryInfo.

(** *** [GenerateNewsFromRepositoryUpdates] *)

(** A loop that returns has kept an invariant its body keeps, whatever
    the state. *)
Lemma for_each_kept {S E A} (I : list A → S → Prop) (l : list A)
    (body : A → M S E unit) (s s' : S) :
  for_each l body s = (Return tt, s') →
  I [] s →
  (∀ handled x rest s1 s2,
     l = handled ++ x :: rest →
     body x s1 = (Return tt, s2) → I handled s1 → I (handled ++ [x]) s2) →
  I l s'.
Proof.
  intros Hrun Hinit Hbody.
  assert (Hgen : ∀ rest handled s1,
            l = handled ++ rest →
            for_each rest body s1 = (Return tt, s') →
            I handled s1 → I l s').
  { induction rest as [|x rest IH]; intros handled s1 Hl Hr HI.
    - cbn in Hr. injection Hr as <-. by rewrite Hl, app_nil_r.
    - cbn [for_each] in Hr. unfold mbind, M_bind in Hr.
      destruct (body x s1) as [[[]|e1] s2] eqn:Hx; [|done].
      apply (IH (handled ++ [x]) s2); [by rewrite <-app_assoc|done|].
      by eapply Hbody. }
  by apply (Hgen l [] s).
Qed.

(** A loop whose body returns on every item returns. *)
Lemma for_each_returns {S E A} (l : list A) (body : A → M S E unit) (s : S) :
  (∀ x s1, x ∈ l → ∃ s2, body x s1 = (Return tt, s2)) →
  ∃ s', for_each l body s = (Return tt, s').
Proof.
  revert s. induction l as [|x l IH]; intros s Hbody.
  - by exists s.
  - destruct (Hbody x s) as [s1 Hx]; [by left|].
    destruct (IH s1) as [s' Hrest].
    { intros y s2 Hy. apply Hbody. by right. }
    exists s'. cbn [for_each]. unfold mbind, M_bind. by rewrite Hx.
Qed.

Module GenerateNews.

(** A dictionary with lists as values; the keys are kept in the order in
    which they were added. *)
Definition Dict (K V : Type) : Type := list (K * list V).

Section Dict.
Context {K V : Type} `{EqDecision K}.

(** [d.get(key)] *)
Fixpoint dict_lookup (key : K) (d : Dict K V) : option (list V) :=
  match d with
  | [] => None
  | (k, l) :: rest => if decide (k = key) then Some l else dict_lookup key rest
  end.

(** [d.setdefault(key, [])] *)
Fixpoint setdefault (key : K) (d : Dict K V) : Dict K V :=
  match d with
  | [] => [(key, [])]
  | (k, l) :: rest =>
      if decide (k = key) then (k, l) :: rest
      else (k, l) :: setdefault key rest
  end.

(** [d[key].append(x)], for a key of [d] *)
Fixpoint append_at (key : K) (x : V) (d : Dict K V) : Dict K V :=
  match d with
  | [] => []
  | (k, l) :: rest =>
      if decide (k = key) then (k, l ++ [x]) :: rest
      else (k, l) :: append_at key x rest
  end.

(** The list at a key, empty when the key is missing. *)
Definition values_at (key : K) (d : Dict K V) : list V :=
  default [] (dict_lookup key d).

Lemma dict_lookup_keys (key : K) (d : Dict K V) :
  is_Some (dict_lookup key d) ↔ key ∈ d.*1.
Proof.
  induction d as [|[k l] d IH]; cbn.
  - split; [by intros [? ?]|by intros ?%elem_of_nil].
  - destruct (decide (k = key)) as [->|Hne].
    + split; [intros _; by left|by eexists].
    + rewrite IH. split; [by right|].
      by intros [?|?]%elem_of_cons.
Qed.

Lemma dict_lookup_values (key : K) (d : Dict K V) l :
  dict_lookup key d = Some l ↔ key ∈ d.*1 ∧ values_at key d = l.
Proof.
  rewrite <-dict_lookup_keys. unfold values_at.
  destruct (dict_lookup key d) as [l'|]; cbn.
  - split; [intros [= ->]; by split|by intros [_ ->]].
  - split; [done|by intros [[? ?] _]].
Qed.

Lemma elem_of_dict (key : K) (l : list V) (d : Dict K V) :
  NoDup d.*1 → (key, l) ∈ d ↔ dict_lookup key d = Some l.
Proof.
  induction d as [|[k l'] d IH]; cbn; intros Hnd.
  - split; [by intros ?%elem_of_nil|done].
  - apply NoDup_cons in Hnd as [Hk Hnd].
    destruct (decide (k = key)) as [->|Hne].
    + split.
      * intros [[= ->]|Hin]%elem_of_cons; [done|].
        destruct Hk. by apply (list_elem_of_fmap_2 fst _ (key, l)).
      * intros [= ->]. by left.
    + rewrite <-(IH Hnd). split.
      * by intros [[= ? ?]|?]%elem_of_cons.
      * by right.
Qed.

Lemma setdefault_keys (key k' : K) (d : Dict K V) :
  k' ∈ (setdefault key d).*1 ↔ k' = key ∨ k' ∈ d.*1.
Proof.
  induction d as [|[k l] d IH]; cbn.
  - rewrite list_elem_of_singleton. split; [by left|].
    by intros [?|?%elem_of_nil].
  - destruct (decide (k = key)) as [->|Hne]; cbn.
    + split; [by right|]. intros [->|?]; [by left|done].
    + rewrite !elem_of_cons, IH. tauto.
Qed.

Lemma setdefault_NoDup (key : K) (d : Dict K V) :
  NoDup d.*1 → NoDup (setdefault key d).*1.
Proof.
  induction d as [|[k l] d IH]; cbn; intros Hnd.
  - apply NoDup_singleton.
  - destruct (decide (k = key)) as [->|Hne]; [done|]. cbn.
    apply NoDup_cons in Hnd as [Hk Hnd]. apply NoDup_cons. split; [|auto].
    rewrite setdefault_keys. by intros [?|?].
Qed.

Lemma setdefault_values (key k' : K) (d : Dict K V) :
  values_at k' (setdefault key d) = values_at k' d.
Proof.
  unfold values_at. induction d as [|[k l] d IH]; cbn.
  - by destruct (decide (key = k')).
  - destruct (decide (k = key)) as [->|Hne]; cbn; [done|].
    by destruct (decide (k = k')).
Qed.

Lemma append_at_keys (key : K) (x : V) (d : Dict K V) :
  (append_at key x d).*1 = d.*1.
Proof.
  induction d as [|[k l] d IH]; cbn; [done|].
  destruct (decide (k = key)); cbn; [done|]. by rewrite IH.
Qed.

Lemma append_at_values (key k' : K) (x : V) (d : Dict K V) :
  key ∈ d.*1 →
  values_at k' (append_at key x d)
  = values_at k' d ++ (if decide (k' = key) then [x] else []).
Proof.
  unfold values_at. induction d as [|[k l] d IH]; cbn.
  - by intros ?%elem_of_nil.
  - intros Hin. destruct (decide (k = key)) as [->|Hne]; cbn.
    + destruct (decide (key = k')) as [->|Hne'].
      * by rewrite decide_True by done.
      * rewrite decide_False by done. by rewrite app_nil_r.
    + apply elem_of_cons in Hin as [?|Hin]; [done|].
      destruct (decide (k = k')) as [->|Hne'].
      * rewrite decide_False by done. cbn. by rewrite app_nil_r.
      * by apply IH.
Qed.

End Dict.

(** A row of [News]. *)
Record News := mkNews {
  news_package : PackageName;
  news_title : string;
  _db_content : option string
}.

(** The state is the table of the news. *)
Abbreviation Generate := (M (list News) Exception).

Definition lift {A} (r : Result Exception A) : Generate A :=
  λ news, (r, news).

(** [News.objects.create] *)
Definition News_create (row : News) : Generate unit :=
  modify (λ news, news ++ [row]).

(** The text of a value, as [format] and the lookup [name__in] make it. *)
Definition text_of (value : Arg) : string :=
  match value with
  | Str s => s
  | Int n => pretty n
  end.

(** [d[key]] *)
Definition dict_item {V} (key : Arg) (d : Dict Arg V)
  : Result Exception (list V) :=
  match dict_lookup key d with
  | Some l => Return l
  | None => Raise (KeyError (text_of key))
  end.

(** The three titles. *)
Inductive Template :=
| Accepted
| Migrated
| Removed.

(** [title.format(pkg=.., repo=.., ver=..)] *)
Definition format (title : Template) (pkg repo ver : string) : string :=
  match title with
  | Accepted => "Accepted " +:+ pkg +:+ " version " +:+ ver +:+ " to " +:+ repo
  | Migrated => pkg +:+ " version " +:+ ver +:+ " MIGRATED to " +:+ repo
  | Removed => pkg +:+ " version " +:+ ver +:+ " REMOVED from " +:+ repo
  end.

(** The first loop of [execute]: the events are grouped by package name,
    and the versions of the events [new-source-package-version] are
    gathered by package name. *)
Fixpoint group_events (events : list Event)
    (package_changes : Dict Arg Event) (new_source_versions : Dict Arg Arg)
  : Result Exception (Dict Arg Event * Dict Arg Arg) :=
  match events with
  | [] => Return (package_changes, new_source_versions)
  | event :: rest =>
      if decide (event_name event = "source-files-extracted") then
        group_events rest package_changes new_source_versions
      else
        match argument "name" event with
        | Raise e => Raise e
        | Return package_name =>
            match argument "version" event with
            | Raise e => Raise e
            | Return version =>
                let package_changes :=
                  append_at package_name event
                    (setdefault package_name package_changes) in
                let new_source_versions :=
                  setdefault package_name new_source_versions in
                let new_source_versions :=
                  if decide (event_name event = "new-source-package-version")
                  then append_at package_name version new_source_versions
                  else new_source_versions in
                group_events rest package_changes new_source_versions
            end
        end
  end.

(** The events of a package are grouped by repository. *)
Fixpoint group_repository_events (events : list Event)
    (repository_events : Dict Arg Event)
  : Result Exception (Dict Arg Event) :=
  match events with
  | [] => Return repository_events
  | event :: rest =>
      if decide (event_name event = "new-source-package-version") then
        group_repository_events rest repository_events
      else
        match argument "repository" event with
        | Raise e => Raise e
        | Return repository =>
            group_repository_events rest
              (append_at repository event
                 (setdefault repository repository_events))
        end
  end.

Section Task.
(** [generate_accepted_news_content(package, version)]: the content, unless
    it fails. *)
Variable generate_accepted_news_content :
  PackageName → Arg → Result Exception string.

(** The body of the innermost loop of [execute]: the news of one event. *)
Definition report_event (package : PackageName)
    (new_source_versions : Dict Arg Arg) (repository_has_new_version : bool)
    (event : Event) : Generate unit :=
  version ← lift (argument "version" event);
  versions ← lift (dict_item (Str (pn_name package)) new_source_versions);
  let new_source_version := bool_decide (version ∈ versions) in
  '(title, content) ←
    (if decide (event_name event = "new-source-package-version-in-repository")
     then
       if new_source_version then
         content ← lift (generate_accepted_news_content package version);
         mret (Some Accepted, Some content)
       else mret (Some Migrated, None)
     else if decide (event_name event
                     = "lost-source-package-version-in-repository")
     then
       if negb repository_has_new_version then mret (Some Removed, None)
       else mret (None, None)
     else mret (None, None));
  match title with
  | Some title =>
      repo ← lift (argument "repository" event);
      News_create
        (mkNews package
           (format title (pn_name package) (text_of repo) (text_of version))
           content)
  | None => mret tt
  end.

(** The body of the loop over the repositories of a package. *)
Definition report_repository (package : PackageName)
    (new_source_versions : Dict Arg Arg) (item : Arg * list Event)
  : Generate unit :=
  let '(repository_name, events) := item in
  let event_names := event_name <$> events in
  let repository_has_new_version :=
    bool_decide ("new-source-package-version-in-repository" ∈ event_names) in
  for_each events
    (report_event package new_source_versions repository_has_new_version).

(** The body of the loop over the packages. *)
Definition report_package (package_changes : Dict Arg Event)
    (new_source_versions : Dict Arg Arg) (package : PackageName)
  : Generate unit :=
  events ← lift (dict_item (Str (pn_name package)) package_changes);
  repository_events ← lift (group_repository_events events []);
  for_each repository_events (report_repository package new_source_versions).

(** [execute]; [all_events] is what [get_all_events] returns and [s] the
    store. *)
Definition execute (all_events : list Event) (s : Store) : Generate unit :=
  '(package_changes, new_source_versions) ←
    lift (group_events all_events [] []);
  let packages :=
    filter (λ p, pn_name p ∈ text_of <$> package_changes.*1)
      (SourcePackageName_all s) in
  for_each packages (report_package package_changes new_source_versions).

(** **** Properties *)

(** The events grouped under a package name, and the versions gathered
    for it. *)
Definition named (package_name : Arg) (event : Event) : Prop :=
  event_name event ≠ "source-files-extracted"
  ∧ arguments_get "name" (event_arguments event) = Some package_name.

Definition first_versions (package_name : Arg) (events : list Event)
  : list Arg :=
  omap (λ event, arguments_get "version" (event_arguments event))
    (filter (λ event, event_name event = "new-source-package-version")
       (filter (named package_name) events)).

Lemma argument_Return key event value :
  argument key event = Return value
  ↔ arguments_get key (event_arguments event) = Some value.
Proof.
  unfold argument. destruct (arguments_get key _); split; congruence.
Qed.

Lemma group_events_from (events : list Event) package_changes
    new_source_versions package_changes' new_source_versions' :
  group_events events package_changes new_source_versions
  = Return (package_changes', new_source_versions') →
  Forall (λ event,
            event_name event ≠ "source-files-extracted" →
            is_Some (arguments_get "name" (event_arguments event))
            ∧ is_Some (arguments_get "version" (event_arguments event)))
    events
  ∧ (∀ k, k ∈ package_changes'.*1
          ↔ k ∈ package_changes.*1 ∨ filter (named k) events ≠ [])
  ∧ (∀ k, values_at k package_changes'
          = values_at k package_changes ++ filter (named k) events)
  ∧ (∀ k, k ∈ new_source_versions'.*1
          ↔ k ∈ new_source_versions.*1 ∨ filter (named k) events ≠ [])
  ∧ (∀ k, values_at k new_source_versions'
          = values_at k new_source_versions ++ first_versions k events).
Proof.
  revert package_changes new_source_versions.
  induction events as [|event events IH]; intros pc nsv; cbn [group_events].
  - intros [= <- <-]. split_and!; [done| | | |].
    + intros k. rewrite filter_nil. naive_solver.
    + intros k. by rewrite filter_nil, app_nil_r.
    + intros k. rewrite filter_nil. naive_solver.
    + intros k. unfold first_versions. by rewrite app_nil_r.
  - destruct (decide (event_name event = "source-files-extracted"))
      as [Hout|Hin].
    + intros Hrun. destruct (IH _ _ Hrun) as (Hall & Hk & Hv & Hk' & Hv').
      assert (Hf : ∀ k, filter (named k) (event :: events)
                        = filter (named k) events).
      { intros k. apply filter_cons_False. by intros [? _]. }
      split_and!; [by constructor| | | |]; intros k;
        unfold first_versions; rewrite ?Hf; auto.
    + destruct (argument "name" event) as [package_name|e] eqn:Hname;
        [|done].
      destruct (argument "version" event) as [version|e] eqn:Hversion;
        [|done].
      apply argument_Return in Hname, Hversion.
      intros Hrun. destruct (IH _ _ Hrun) as (Hall & Hk & Hv & Hk' & Hv').
      assert (Hf : ∀ k, filter (named k) (event :: events)
                        = (if decide (k = package_name) then [event] else [])
                          ++ filter (named k) events).
      { intros k. destruct (decide (k = package_name)) as [->|Hne].
        - by rewrite filter_cons_True by done.
        - rewrite filter_cons_False; [done|]. intros [_ H]. congruence. }
      split_and!.
      * constructor; [|done]. intros _. by rewrite Hname, Hversion.
      * intros k. rewrite Hk, append_at_keys, setdefault_keys, Hf.
        destruct (decide (k = package_name)); cbn; naive_solver.
      * intros k. rewrite Hv, Hf, app_assoc. f_equal.
        rewrite append_at_values by (apply setdefault_keys; by left).
        by rewrite setdefault_values.
      * intros k. rewrite Hk', Hf.
        assert (Hkeys : k ∈ (setdefault package_name nsv).*1
                        ↔ k = package_name ∨ k ∈ nsv.*1)
          by apply setdefault_keys.
        destruct (decide (event_name event = "new-source-package-version"));
          rewrite ?append_at_keys, Hkeys;
          destruct (decide (k = package_name)); cbn; naive_solver.
      * intros k. rewrite Hv'. unfold first_versions. rewrite Hf.
        destruct (decide (event_name event = "new-source-package-version"))
          as [Hnew|Hold].
        -- rewrite append_at_values by (apply setdefault_keys; by left).
           rewrite setdefault_values, <-app_assoc. f_equal.
           destruct (decide (k = package_name)); [|done]. cbn [app].
           rewrite filter_cons_True by done. cbn. by rewrite Hversion.
        -- rewrite setdefault_values. f_equal.
           destruct (decide (k = package_name)); [|done]. cbn [app].
           by rewrite filter_cons_False by done.
Qed.

(** The events grouped under a repository. *)
Definition in_repository (repository : Arg) (event : Event) : Prop :=
  event_name event ≠ "new-source-package-version"
  ∧ arguments_get "repository" (event_arguments event) = Some repository.

Lemma group_repository_events_from (events : list Event) repository_events
    repository_events' :
  group_repository_events events repository_events
  = Return repository_events' →
  Forall (λ event,
            event_name event ≠ "new-source-package-version" →
            is_Some (arguments_get "repository" (event_arguments event)))
    events
  ∧ (NoDup repository_events.*1 → NoDup repository_events'.*1)
  ∧ (∀ k, k ∈ repository_events'.*1
          ↔ k ∈ repository_events.*1 ∨ filter (in_repository k) events ≠ [])
  ∧ (∀ k, values_at k repository_events'
          = values_at k repository_events
            ++ filter (in_repository k) events).
Proof.
  revert repository_events.
  induction events as [|event events IH]; intros d;
    cbn [group_repository_events].
  - intros [= <-]. split_and!; [done|done| |].
    + intros k. rewrite filter_nil. naive_solver.
    + intros k. by rewrite filter_nil, app_nil_r.
  - destruct (decide (event_name event = "new-source-package-version"))
      as [Hout|Hin].
    + intros Hrun. destruct (IH _ Hrun) as (Hall & Hnd & Hk & Hv).
      assert (Hf : ∀ k, filter (in_repository k) (event :: events)
                        = filter (in_repository k) events).
      { intros k. apply filter_cons_False. by intros [? _]. }
      split_and!; [by constructor|done| |]; intros k; rewrite ?Hf; auto.
    + destruct (argument "repository" event) as [repository|e] eqn:Hrepo;
        [|done].
      apply argument_Return in Hrepo.
      intros Hrun. destruct (IH _ Hrun) as (Hall & Hnd & Hk & Hv).
      assert (Hf : ∀ k, filter (in_repository k) (event :: events)
                        = (if decide (k = repository) then [event] else [])
                          ++ filter (in_repository k) events).
      { intros k. destruct (decide (k = repository)) as [->|Hne].
        - by rewrite filter_cons_True by done.
        - rewrite filter_cons_False; [done|]. intros [_ H]. congruence. }
      split_and!.
      * constructor; [|done]. intros _. by rewrite Hrepo.
      * intros Hd. apply Hnd. rewrite append_at_keys.
        by apply setdefault_NoDup.
      * intros k. rewrite Hk, append_at_keys, setdefault_keys, Hf.
        destruct (decide (k = repository)); cbn; naive_solver.
      * intros k. rewrite Hv, Hf, app_assoc. f_equal.
        rewrite append_at_values by (apply setdefault_keys; by left).
        by rewrite setdefault_values.
Qed.

(** The news of an event of a package: [accepted] tells whether a version
    is new, [replaced] whether a repository has got a new version of the
    package. *)
Definition news_of_event (package : PackageName) (accepted replaced : Arg → Prop)
    (event : Event) (n : News) : Prop :=
  ∃ version repository,
    arguments_get "version" (event_arguments event) = Some version
    ∧ arguments_get "repository" (event_arguments event) = Some repository
    ∧ ((event_name event = "new-source-package-version-in-repository"
        ∧ accepted version
        ∧ ∃ content,
            generate_accepted_news_content package version = Return content
            ∧ n = mkNews package
                    (format Accepted (pn_name package) (text_of repository)
                       (text_of version))
                    (Some content))
       ∨ (event_name event = "new-source-package-version-in-repository"
          ∧ ¬ accepted version
          ∧ n = mkNews package
                  (format Migrated (pn_name package) (text_of repository)
                     (text_of version))
                  None)
       ∨ (event_name event = "lost-source-package-version-in-repository"
          ∧ ¬ replaced repository
          ∧ n = mkNews package
                  (format Removed (pn_name package) (text_of repository)
                     (text_of version))
                  None)).

Lemma news_of_event_iff package (accepted accepted' replaced replaced' : Arg → Prop)
    event n :
  (∀ version, accepted version ↔ accepted' version) →
  (∀ repository,
     arguments_get "repository" (event_arguments event) = Some repository →
     (replaced repository ↔ replaced' repository)) →
  news_of_event package accepted replaced event n
  ↔ news_of_event package accepted' replaced' event n.
Proof.
  intros Ha Hr. unfold news_of_event.
  split; intros (version & repository & Hv & Hrepo & H);
    exists version, repository; (split; [done|]); (split; [done|]);
    rewrite ?Ha, ?(Hr repository Hrepo) in *;
    [|rewrite <-?Ha, <-?(Hr repository Hrepo) in *]; done.
Qed.

Lemma report_event_returned package new_source_versions versions
    (repository_has_new_version : bool) event (news news' : list News) :
  dict_lookup (Str (pn_name package)) new_source_versions = Some versions →
  report_event package new_source_versions repository_has_new_version event
    news = (Return tt, news') →
  ∀ n, n ∈ news'
       ↔ n ∈ news
         ∨ news_of_event package (λ version, version ∈ versions)
             (λ _, repository_has_new_version = true) event n.
Proof.
  intros Hversions. unfold report_event, dict_item, lift, News_create.
  rewrite Hversions. unfold mbind, M_bind, mret, M_ret, modify.
  destruct (argument "version" event) as [version|e] eqn:Hv; [|done].
  apply argument_Return in Hv. cbn beta iota.
  unfold news_of_event. rewrite Hv.
  destruct (decide (event_name event
                    = "new-source-package-version-in-repository")) as [Hnew|Hnew].
  - destruct (bool_decide (version ∈ versions)) eqn:Hin;
      [apply bool_decide_eq_true in Hin|apply bool_decide_eq_false in Hin].
    + destruct (generate_accepted_news_content package version)
        as [content|e] eqn:Hcontent; [|done].
      destruct (argument "repository" event) as [repo|e] eqn:Hr; [|done].
      apply argument_Return in Hr. rewrite Hr.
      intros [= <-] n. rewrite elem_of_app, list_elem_of_singleton.
      split.
      * intros [?| ->]; [by left|right]. exists version, repo.
        split_and!; try done. left. split_and!; try done. by exists content.
      * intros [?|(v0 & r0 & Hv0 & Hr0 & Hc)]; [by left|right].
        simplify_eq.
        destruct Hc as [(_ & _ & c & Hc & ->)|[(_ & ? & _)|(? & _)]];
          [|done|congruence].
        by assert (c = content) as -> by congruence.
    + destruct (argument "repository" event) as [repo|e] eqn:Hr; [|done].
      apply argument_Return in Hr. rewrite Hr.
      intros [= <-] n. rewrite elem_of_app, list_elem_of_singleton.
      split.
      * intros [?| ->]; [by left|right]. exists version, repo.
        split_and!; try done. right. left. by split_and!.
      * intros [?|(v0 & r0 & Hv0 & Hr0 & Hc)]; [by left|right].
        simplify_eq.
        destruct Hc as [(_ & ? & _)|[(_ & _ & ->)|(? & _)]];
          [done|done|congruence].
  - destruct (decide (event_name event
                      = "lost-source-package-version-in-repository"))
      as [Hlost|Hlost].
    + destruct repository_has_new_version; cbn [negb].
      * intros [= <-] n. split; [by left|].
        intros [?|(v0 & r0 & Hv0 & Hr0 & Hc)]; [done|].
        destruct Hc as [(? & _)|[(? & _)|(_ & ? & _)]]; done.
      * destruct (argument "repository" event) as [repo|e] eqn:Hr; [|done].
        apply argument_Return in Hr. rewrite Hr.
        intros [= <-] n. rewrite elem_of_app, list_elem_of_singleton.
        split.
        -- intros [?| ->]; [by left|right]. exists version, repo.
           split_and!; try done. right. right. by split_and!.
        -- intros [?|(v0 & r0 & Hv0 & Hr0 & Hc)]; [by left|right].
           simplify_eq.
           destruct Hc as [(? & _)|[(? & _)|(_ & _ & ->)]]; done.
    + intros [= <-] n. split; [by left|].
      intros [?|(v0 & r0 & Hv0 & Hr0 & Hc)]; [done|].
      destruct Hc as [(? & _)|[(? & _)|(? & _)]]; done.
Qed.

Lemma report_repository_returned package new_source_versions versions
    repository events (news news' : list News) :
  dict_lookup (Str (pn_name package)) new_source_versions = Some versions →
  report_repository package new_source_versions (repository, events) news
  = (Return tt, news') →
  ∀ n, n ∈ news'
       ↔ n ∈ news
         ∨ ∃ event,
             event ∈ events
             ∧ news_of_event package (λ version, version ∈ versions)
                 (λ _, "new-source-package-version-in-repository"
                       ∈ event_name <$> events) event n.
Proof.
  intros Hversions Hrun. unfold report_repository in Hrun.
  set (has_new := bool_decide _) in Hrun.
  assert (Hhas : has_new = true
                 ↔ "new-source-package-version-in-repository"
                   ∈ event_name <$> events)
    by apply bool_decide_eq_true.
  apply (for_each_kept
    (λ handled news1,
       ∀ n, n ∈ news1
            ↔ n ∈ news
              ∨ ∃ event,
                  event ∈ handled
                  ∧ news_of_event package (λ version, version ∈ versions)
                      (λ _, "new-source-package-version-in-repository"
                            ∈ event_name <$> events) event n)
    _ _ _ _ Hrun).
  { intros n. split; [by left|]. intros [?|(? & ?%elem_of_nil & _)]; done. }
  intros handled event rest news1 news2 _ Hbody Hinv n.
  rewrite (report_event_returned _ _ _ _ _ _ _ Hversions Hbody n), Hinv.
  rewrite (news_of_event_iff package _ (λ version, version ∈ versions)
             (λ _, has_new = true)
             (λ _, "new-source-package-version-in-repository"
                   ∈ event_name <$> events) event n) by done.
  split.
  - intros [[?|(event' & Hin & H)]|H]; [by left| |].
    + right. exists event'. split; [|done]. apply elem_of_app. by left.
    + right. exists event. split; [|done]. apply elem_of_app. right.
      by apply list_elem_of_singleton.
  - intros [?|(event' & [Hin| ->%list_elem_of_singleton]%elem_of_app & H)].
    + left. by left.
    + left. right. by exists event'.
    + by right.
Qed.

(** Whether the repository has got a new version of the package that the
    events are about. *)
Definition new_in_repository (events : list Event) (repository : Arg)
  : Prop :=
  ∃ event,
    event ∈ events
    ∧ event_name event = "new-source-package-version-in-repository"
    ∧ arguments_get "repository" (event_arguments event) = Some repository.

Lemma report_package_returned package_changes new_source_versions versions
    events package (news news' : list News) :
  dict_lookup (Str (pn_name package)) new_source_versions = Some versions →
  dict_lookup (Str (pn_name package)) package_changes = Some events →
  report_package package_changes new_source_versions package news
  = (Return tt, news') →
  ∀ n, n ∈ news'
       ↔ n ∈ news
         ∨ ∃ event,
             event ∈ events
             ∧ news_of_event package (λ version, version ∈ versions)
                 (new_in_repository events) event n.
Proof.
  intros Hversions Hevents. unfold report_package, dict_item, lift.
  rewrite Hevents. unfold mbind, M_bind. 
  destruct (group_repository_events events []) as [repository_events|e]
    eqn:Hgroup; [|done].
  destruct (group_repository_events_from _ _ _ Hgroup)
    as (_ & Hnd & Hkeys & Hvalues).
  specialize (Hnd (NoDup_nil_2)).
  intros Hrun.
  assert (Hitems : ∀ repository evs,
            (repository, evs) ∈ repository_events
            ↔ evs ≠ [] ∧ evs = filter (in_repository repository) events).
  { intros repository evs. rewrite (elem_of_dict _ _ _ Hnd).
    rewrite dict_lookup_values, Hkeys, Hvalues. cbn.
    split.
    - intros [[?%elem_of_nil|Hne] <-]; done.
    - intros [Hne ->]. split; [by right|done]. }
  assert (Hnew : ∀ repository,
            "new-source-package-version-in-repository"
            ∈ event_name <$> filter (in_repository repository) events
            ↔ new_in_repository events repository).
  { intros repository. rewrite list_elem_of_fmap. unfold new_in_repository.
    split.
    - intros (event & Hname & [[_ Hr] Hin]%list_elem_of_filter).
      by exists event.
    - intros (event & Hin & Hname & Hr). exists event. split; [done|].
      apply list_elem_of_filter. split; [|done]. split; [|done].
      by rewrite Hname. }
  pose proof (for_each_kept
    (λ handled news1,
       ∀ n, n ∈ news1
            ↔ n ∈ news
              ∨ ∃ repository event,
                  (repository, filter (in_repository repository) events)
                  ∈ handled
                  ∧ event ∈ filter (in_repository repository) events
                  ∧ news_of_event package (λ version, version ∈ versions)
                      (new_in_repository events) event n)
    _ _ _ _ Hrun) as Hloop.
  cbn beta in Hloop.
  assert (Hall : ∀ n, n ∈ news'
            ↔ n ∈ news
              ∨ ∃ repository event,
                  (repository, filter (in_repository repository) events)
                  ∈ repository_events
                  ∧ event ∈ filter (in_repository repository) events
                  ∧ news_of_event package (λ version, version ∈ versions)
                      (new_in_repository events) event n).
  { apply Hloop.
    - intros n. split; [by left|].
      intros [?|(? & ? & ?%elem_of_nil & _)]; done.
    - intros handled [repository evs] rest news1 news2 Hsplit Hbody Hinv n.
      assert (Hitem : (repository, evs) ∈ repository_events).
      { rewrite Hsplit. apply elem_of_app. right. by left. }
      apply Hitems in Hitem as [Hne ->].
      rewrite (report_repository_returned _ _ _ _ _ _ _ Hversions Hbody n).
      rewrite Hinv. split.
      + intros [[?|(r & event & Hin & He & H)]|(event & He & H)].
        * by left.
        * right. exists r, event. split_and!; try done.
          apply elem_of_app. by left.
        * right. exists repository, event. split_and!; try done.
          -- apply elem_of_app. right. by apply list_elem_of_singleton.
          -- revert H. apply news_of_event_iff; [done|].
             intros r Hr. rewrite Hnew.
             apply list_elem_of_filter in He as [[_ Hr'] _].
             by replace r with repository by congruence.
      + intros [?|(r & event & [Hin|Hin]%elem_of_app & He & H)].
        * left. by left.
        * left. right. by exists r, event.
        * apply list_elem_of_singleton in Hin. injection Hin as -> _.
          right. exists event. split; [done|].
          revert H. apply news_of_event_iff; [done|].
          intros r Hr. rewrite Hnew.
          apply list_elem_of_filter in He as [[_ Hr'] _].
          by replace r with repository by congruence. }
  intros n. rewrite Hall. split.
  - intros [?|(r & event & _ & [_ He]%list_elem_of_filter & H)]; [by left|].
    right. by exists event.
  - intros [?|(event & He & H)]; [by left|]. right.
    destruct H as (version & repository & Hv & Hr & Hcases).
    assert (Hin : in_repository repository event).
    { split; [|done]. destruct Hcases as [[-> _]|[[-> _]|[-> _]]]; done. }
    exists repository, event. split_and!.
    + apply Hitems. split; [|done]. intros Hnil.
      assert (event ∈ filter (in_repository repository) events)
        by by apply list_elem_of_filter.
      rewrite Hnil in *. by eapply elem_of_nil.
    + by apply list_elem_of_filter.
    + by exists version, repository.
Qed.

(** Whether the version is new in this run: an event
    [new-source-package-version] of the package names it. *)
Definition first_seen (all_events : list Event) (package : PackageName)
    (version : Arg) : Prop :=
  ∃ event,
    event ∈ all_events
    ∧ named (Str (pn_name package)) event
    ∧ event_name event = "new-source-package-version"
    ∧ arguments_get "version" (event_arguments event) = Some version.

(** Whether the repository has got a new version of the package in this
    run. *)
Definition replaced (all_events : list Event) (package : PackageName)
    (repository : Arg) : Prop :=
  ∃ event,
    event ∈ all_events
    ∧ named (Str (pn_name package)) event
    ∧ event_name event = "new-source-package-version-in-repository"
    ∧ arguments_get "repository" (event_arguments event) = Some repository.

Lemma elem_of_first_versions all_events package version :
  version ∈ first_versions (Str (pn_name package)) all_events
  ↔ first_seen all_events package version.
Proof.
  unfold first_versions, first_seen. rewrite list_elem_of_omap.
  split.
  - intros (event & [Hname [Hnamed Hin]%list_elem_of_filter]%list_elem_of_filter
            & Hv).
    by exists event.
  - intros (event & Hin & Hnamed & Hname & Hv). exists event.
    split; [|done]. by rewrite !list_elem_of_filter.
Qed.

Lemma new_in_repository_named all_events package repository :
  new_in_repository (filter (named (Str (pn_name package))) all_events)
    repository
  ↔ replaced all_events package repository.
Proof.
  unfold new_in_repository, replaced. split.
  - intros (event & [Hnamed Hin]%list_elem_of_filter & Hname & Hr).
    by exists event.
  - intros (event & Hin & Hnamed & Hname & Hr). exists event.
    split; [|done]. by apply list_elem_of_filter.
Qed.

(** The dictionaries of a run. *)
Lemma group_events_all (all_events : list Event) package_changes
    new_source_versions :
  group_events all_events [] [] = Return (package_changes, new_source_versions) →
  ∀ k, dict_lookup k package_changes
       = (if decide (filter (named k) all_events = []) then None
          else Some (filter (named k) all_events))
       ∧ dict_lookup k new_source_versions
         = (if decide (filter (named k) all_events = []) then None
            else Some (first_versions k all_events)).
Proof.
  intros Hgroup k.
  destruct (group_events_from _ _ _ _ _ Hgroup) as (_ & Hk & Hv & Hk' & Hv').
  destruct (decide (filter (named k) all_events = [])) as [Hnil|Hne].
  - split.
    + destruct (dict_lookup k package_changes) as [l|] eqn:Hl; [|done].
      assert (Hin : k ∈ package_changes.*1)
        by (apply dict_lookup_keys; by rewrite Hl).
      apply Hk in Hin as [?%elem_of_nil|?]; done.
    + destruct (dict_lookup k new_source_versions) as [l|] eqn:Hl; [|done].
      assert (Hin : k ∈ new_source_versions.*1)
        by (apply dict_lookup_keys; by rewrite Hl).
      apply Hk' in Hin as [?%elem_of_nil|?]; done.
  - split; apply dict_lookup_values.
    + split; [apply Hk; by right|]. by rewrite Hv.
    + split; [apply Hk'; by right|]. by rewrite Hv'.
Qed.

(** X19.  The news of a run.  When [execute] returns, the news it has
    created are exactly these: for every source package name of the store
    and every event about it, other than [source-files-extracted], that
    names a version and a repository,
    - [Accepted pkg version ver to repo], with the generated content, for
      an event [new-source-package-version-in-repository] whose version an
      event [new-source-package-version] of the package names;
    - [pkg version ver MIGRATED to repo], without content, for such an
      event with any other version;
    - [pkg version ver REMOVED from repo], without content, for an event
      [lost-source-package-version-in-repository], unless the same
      repository has got a new version of the package in this run.
    Events about names that are not source package names of the store,
    and events of other kinds, give no news, and no news is changed or
    deleted. *)
Theorem execute_news (all_events : list Event) (s : Store)
    (news news' : list News) :
  execute all_events s news = (Return tt, news') →
  ∀ n, n ∈ news'
       ↔ n ∈ news
         ∨ ∃ package event,
             package ∈ SourcePackageName_all s
             ∧ event ∈ all_events
             ∧ named (Str (pn_name package)) event
             ∧ news_of_event package (first_seen all_events package)
                 (replaced all_events package) event n.
Proof.
  unfold execute, lift, mbind, M_bind.
  destruct (group_events all_events [] [])
    as [[package_changes new_source_versions]|e] eqn:Hgroup; [|done].
  pose proof (group_events_all _ _ _ Hgroup) as Hdicts.
  intros Hrun.
  pose proof (for_each_kept
    (λ handled news1,
       ∀ n, n ∈ news1
            ↔ n ∈ news
              ∨ ∃ package event,
                  package ∈ handled
                  ∧ event ∈ all_events
                  ∧ named (Str (pn_name package)) event
                  ∧ news_of_event package (first_seen all_events package)
                      (replaced all_events package) event n)
    _ _ _ _ Hrun) as Hloop.
  cbn beta in Hloop.
  assert (Hall : ∀ n, n ∈ news'
            ↔ n ∈ news
              ∨ ∃ package event,
                  package
                  ∈ filter (λ p, pn_name p ∈ text_of <$> package_changes.*1)
                      (SourcePackageName_all s)
                  ∧ event ∈ all_events
                  ∧ named (Str (pn_name package)) event
                  ∧ news_of_event package (first_seen all_events package)
                      (replaced all_events package) event n).
  { apply Hloop.
    - intros n. split; [by left|].
      intros [?|(? & ? & ?%elem_of_nil & _)]; done.
    - intros handled package rest news1 news2 _ Hbody Hinv n.
      destruct (Hdicts (Str (pn_name package))) as [Hpc Hnsv].
      destruct (decide (filter (named (Str (pn_name package))) all_events
                        = [])) as [Hnil|Hne].
      { unfold report_package, dict_item, lift, mbind, M_bind in Hbody.
        by rewrite Hpc in Hbody. }
      rewrite (report_package_returned _ _ _ _ _ _ _ Hnsv Hpc Hbody n), Hinv.
      assert (Hnews : ∀ event,
                news_of_event package
                  (λ version,
                     version ∈ first_versions (Str (pn_name package))
                                 all_events)
                  (new_in_repository
                     (filter (named (Str (pn_name package))) all_events))
                  event n
                ↔ news_of_event package (first_seen all_events package)
                    (replaced all_events package) event n).
      { intros event. apply news_of_event_iff.
        - intros version. apply elem_of_first_versions.
        - intros repository _. apply new_in_repository_named. }
      split.
      + intros [[?|(p & event & Hp & He & Hn & H)]|(event & He & H)].
        * by left.
        * right. exists p, event. split_and!; try done.
          apply elem_of_app. by left.
        * apply list_elem_of_filter in He as [Hnamed He].
          right. exists package, event. split_and!; try done.
          -- apply elem_of_app. right. by apply list_elem_of_singleton.
          -- by apply Hnews.
      + intros [?|(p & event & [Hp|Hp]%elem_of_app & He & Hn & H)].
        * left. by left.
        * left. right. by exists p, event.
        * apply list_elem_of_singleton in Hp as ->.
          right. exists event. split; [by apply list_elem_of_filter|].
          by apply Hnews. }
  intros n. rewrite Hall. split.
  - intros [?|(p & event & [_ Hp]%list_elem_of_filter & H)]; [by left|].
    right. by exists p, event.
  - intros [?|(p & event & Hp & He & Hn & H)]; [by left|].
    right. exists p, event. split_and!; try done.
    apply list_elem_of_filter. split; [|done].
    apply list_elem_of_fmap. exists (Str (pn_name p)). split; [done|].
    apply dict_lookup_keys. destruct (Hdicts (Str (pn_name p))) as [-> _].
    rewrite decide_False; [done|].
    intros Hnil.
    assert (event ∈ filter (named (Str (pn_name p))) all_events)
      by by apply list_elem_of_filter.
    rewrite Hnil in *. by eapply elem_of_nil.
Qed.

Lemma group_events_returns (events : list Event) package_changes
    new_source_versions :
  Forall (λ event,
            event_name event ≠ "source-files-extracted" →
            is_Some (arguments_get "name" (event_arguments event))
            ∧ is_Some (arguments_get "version" (event_arguments event)))
    events →
  ∃ result,
    group_events events package_changes new_source_versions = Return result.
Proof.
  revert package_changes new_source_versions.
  induction events as [|event events IH]; intros pc nsv Hall;
    cbn [group_events]; [by eexists|].
  apply Forall_cons in Hall as [He Hall].
  destruct (decide (event_name event = "source-files-extracted"));
    [by apply IH|].
  destruct (He n) as [[name Hname] [version Hversion]].
  unfold argument. rewrite Hname, Hversion. by apply IH.
Qed.

Lemma group_repository_events_returns (events : list Event)
    repository_events :
  Forall (λ event,
            event_name event ≠ "new-source-package-version" →
            is_Some (arguments_get "repository" (event_arguments event)))
    events →
  ∃ result,
    group_repository_events events repository_events = Return result.
Proof.
  revert repository_events.
  induction events as [|event events IH]; intros d Hall;
    cbn [group_repository_events]; [by eexists|].
  apply Forall_cons in Hall as [He Hall].
  destruct (decide (event_name event = "new-source-package-version"));
    [by apply IH|].
  destruct (He n) as [repository Hrepo].
  unfold argument. rewrite Hrepo. by apply IH.
Qed.

Lemma group_repository_events_items (events : list Event)
    repository_events repository evs :
  group_repository_events events [] = Return repository_events →
  (repository, evs) ∈ repository_events →
  evs = filter (in_repository repository) events.
Proof.
  intros Hgroup Hin.
  destruct (group_repository_events_from _ _ _ Hgroup)
    as (_ & Hnd & Hkeys & Hvalues).
  specialize (Hnd (NoDup_nil_2)).
  apply (elem_of_dict _ _ _ Hnd), dict_lookup_values in Hin as [_ <-].
  by rewrite Hvalues.
Qed.

Lemma report_event_returns package new_source_versions
    (repository_has_new_version : bool) event (news : list News) :
  is_Some (dict_lookup (Str (pn_name package)) new_source_versions) →
  is_Some (arguments_get "version" (event_arguments event)) →
  is_Some (arguments_get "repository" (event_arguments event)) →
  (∀ version, ∃ content,
     generate_accepted_news_content package version = Return content) →
  ∃ news',
    report_event package new_source_versions repository_has_new_version
      event news = (Return tt, news').
Proof.
  intros [versions Hversions] [version Hv] [repo Hr] Hcontent.
  unfold report_event, dict_item, lift, News_create, argument.
  rewrite Hversions, Hv, Hr.
  unfold mbind, M_bind, mret, M_ret, modify. cbn beta iota.
  destruct (Hcontent version) as [content ->].
  destruct (decide (event_name event
                    = "new-source-package-version-in-repository")).
  - destruct (bool_decide (version ∈ versions)); by eexists.
  - destruct (decide (event_name event
                      = "lost-source-package-version-in-repository"));
      [|by eexists].
    destruct repository_has_new_version; by eexists.
Qed.

(** X20.  [execute] returns when every event, other than
    [source-files-extracted], has a text as [name] and has a [version],
    every such event other than [new-source-package-version] has a
    [repository], and the content of accepted news can be generated. *)
Theorem execute_returns (all_events : list Event) (s : Store)
    (news : list News) :
  (∀ event, event ∈ all_events →
     event_name event ≠ "source-files-extracted" →
     (∃ name,
        arguments_get "name" (event_arguments event) = Some (Str name))
     ∧ is_Some (arguments_get "version" (event_arguments event))) →
  (∀ event, event ∈ all_events →
     event_name event ≠ "source-files-extracted" →
     event_name event ≠ "new-source-package-version" →
     is_Some (arguments_get "repository" (event_arguments event))) →
  (∀ package version, ∃ content,
     generate_accepted_news_content package version = Return content) →
  ∃ news', execute all_events s news = (Return tt, news').
Proof.
  intros Hnames Hrepos Hcontent. unfold execute, lift, mbind, M_bind.
  destruct (group_events_returns all_events [] [])
    as [[package_changes new_source_versions] Hgroup].
  { apply Forall_forall. intros event Hin Hrel.
    destruct (Hnames event Hin Hrel) as [[name Hname] Hversion].
    split; [by rewrite Hname|done]. }
  rewrite Hgroup.
  pose proof (group_events_all _ _ _ Hgroup) as Hdicts.
  destruct (group_events_from _ _ _ _ _ Hgroup) as (_ & Hkeys & _).
  apply for_each_returns. intros package news1 Hpackage.
  apply list_elem_of_filter in Hpackage as [Hselected _].
  (* the package name is a key *)
  assert (Hne : filter (named (Str (pn_name package))) all_events ≠ []).
  { apply list_elem_of_fmap in Hselected as (key & Htext & Hkey).
    apply Hkeys in Hkey as [?%elem_of_nil|Hne]; [done|].
    destruct (filter (named key) all_events) as [|event l] eqn:Hf; [done|].
    assert (Hin : event ∈ filter (named key) all_events)
      by (rewrite Hf; by left).
    apply list_elem_of_filter in Hin as [[Hrel Hname] Hin].
    destruct (Hnames event Hin Hrel) as [[name Hname'] _].
    assert (key = Str name) as -> by congruence.
    cbn in Htext. subst name. by rewrite Hf. }
  destruct (Hdicts (Str (pn_name package))) as [Hpc Hnsv].
  rewrite decide_False in Hpc by done. rewrite decide_False in Hnsv by done.
  unfold report_package, dict_item, lift, mbind, M_bind. rewrite Hpc.
  set (events := filter (named (Str (pn_name package))) all_events) in *.
  assert (Hevents : ∀ event, event ∈ events →
            event ∈ all_events
            ∧ event_name event ≠ "source-files-extracted").
  { intros event [[Hrel _] Hin]%list_elem_of_filter. by split. }
  destruct (group_repository_events_returns events [])
    as [repository_events Hgroup2].
  { apply Forall_forall. intros event Hin Hnew.
    destruct (Hevents event Hin) as [Hin' Hrel]. by apply Hrepos. }
  rewrite Hgroup2.
  apply for_each_returns. intros [repository evs] news2 Hitem.
  apply (group_repository_events_items _ _ _ _ Hgroup2) in Hitem as ->.
  unfold report_repository.
  apply for_each_returns. intros event news3 [[Hnew Hr] Hin]%list_elem_of_filter.
  destruct (Hevents event Hin) as [Hin' Hrel].
  apply report_event_returns; [by rewrite Hnsv| |by rewrite Hr|done].
  by destruct (Hnames event Hin' Hrel) as [_ ?].
Qed.

End Task.

End GenerateNews.

(** *** [UpdatePackageGeneralInformation], [UpdateVersionInformation] and
        [UpdateSourceToBinariesInformation] *)

Module ExtractedInfo.

Inductive Error :=
| MultipleObjectsReturned
| Failed (e : Exception).

Section Tasks.
(** The values stored with a package, and the value of a row that was
    just created. *)
Variable Value : Type.
Variable default_value : Value.

(** A row of [PackageExtractedInfo]. *)
Record PackageExtractedInfo := mkPackageExtractedInfo {
  info_key : string;
  info_package : PackageName;
  info_value : Value
}.

(** The task with the table it writes. *)
Record Update := mkUpdate {
  infos : list PackageExtractedInfo;
  raised : list Event
}.

Definition set_infos (l : list PackageExtractedInfo) (x : Update) : Update :=
  mkUpdate l (raised x).

Abbreviation Updating := (M Update Error).

Definition lift {A} (r : Result Exception A) : Updating A :=
  λ x, (match r with
        | Return a => Return a
        | Raise e => Raise (Failed e)
        end, x).

(** The rows with this key and package. *)
Definition same (key : string) (package : PackageName)
    (row : PackageExtractedInfo) : Prop :=
  info_key row = key ∧ info_package row = package.

Global Instance same_dec key package row : Decision (same key package row).
Proof. unfold same. apply _. Defined.

(** [PackageExtractedInfo.objects.get_or_create(key=key, package=package)] *)
Definition PackageExtractedInfo_get_or_create (key : string)
    (package : PackageName) : Updating (PackageExtractedInfo * bool) :=
  x ← get;
  match filter (same key package) (infos x) with
  | [] =>
      let row := mkPackageExtractedInfo key package default_value in
      modify (λ x, set_infos (infos x ++ [row]) x) ;;
      mret (row, true)
  | [row] => mret (row, false)
  | _ => raise MultipleObjectsReturned
  end.

(** [row.value = value; row.save()]: key and package identify the row,
    which [get_or_create] has just found or created. *)
Definition save_value (row : PackageExtractedInfo) (value : Value)
  : Updating unit :=
  modify (λ x,
    set_infos
      ((λ stored,
          if decide (same (info_key row) (info_package row) stored)
          then mkPackageExtractedInfo (info_key row) (info_package row) value
          else stored) <$> infos x) x).

(** [with transaction.commit_on_success():] *)
Definition commit_on_success {A} (block : Updating A) : Updating A :=
  λ x, match block x with
       | (Return a, x') => (Return a, x')
       | (Raise e, x') => (Raise e, set_infos (infos x) x')
       end.

(** Modelled from the spec: the decorator [clear_all_events_on_exception]
    ([pts.core.tasks]) is not part of the sources; see the repository
    update. *)
Definition clear_all_events_on_exception {A} (method : Updating A)
  : Updating A :=
  λ x, match method x with
       | (Return a, x') => (Return a, x')
       | (Raise e, x') => (Raise e, mkUpdate (infos x') [])
       end.

(** [package.main_entry] *)
Variable main_entry : Store → PackageName → option SourcePackageRepositoryEntry.
(** [_get_info_from_entry], [_extract_versions_for_package] and
    [_get_all_binaries], each with the failures of what it reads. *)
Variable _get_info_from_entry :
  SourcePackageRepositoryEntry → Result Exception Value.
Variable _extract_versions_for_package :
  Store → PackageName → Result Exception Value.
Variable _get_all_binaries : Store → PackageName → Result Exception Value.

(** [SourcePackageName.objects.filter(name__in=package_names)]; the set
    of names is kept as the list it is made from. *)
Definition named_in (package_names : list Arg) (s : Store)
  : list PackageName :=
  filter (λ p, pn_name p ∈ GenerateNews.text_of <$> package_names)
    (SourcePackageName_all s).

(** [UpdatePackageGeneralInformation.execute] *)
Definition UpdatePackageGeneralInformation_execute
    (all_events : list Event) (s : Store) : Updating unit :=
  clear_all_events_on_exception (
    package_names ← lift (collect (argument "name") all_events);
    commit_on_success (
      let qs := named_in package_names s in
      for_each qs (λ package,
        match main_entry s package with
        | None => mret tt
        | Some entry =>
            '(general, _) ←
              PackageExtractedInfo_get_or_create "general" package;
            value ← lift (_get_info_from_entry entry);
            save_value general value
        end))).

(** [UpdateVersionInformation.execute] *)
Definition UpdateVersionInformation_execute
    (all_events : list Event) (s : Store) : Updating unit :=
  clear_all_events_on_exception (
    package_names ← lift (collect (argument "name") all_events);
    commit_on_success (
      let qs := named_in package_names s in
      for_each qs (λ package,
        '(versions, _) ←
          PackageExtractedInfo_get_or_create "versions" package;
        value ← lift (_extract_versions_for_package s package);
        save_value versions value))).

(** [UpdateSourceToBinariesInformation.execute] *)
Definition UpdateSourceToBinariesInformation_execute
    (all_events : list Event) (s : Store) : Updating unit :=
  clear_all_events_on_exception (
    package_names ← lift (collect (argument "name") all_events);
    commit_on_success (
      let qs := named_in package_names s in
      for_each qs (λ package,
        '(binaries, _) ←
          PackageExtractedInfo_get_or_create "binaries" package;
        value ← lift (_get_all_binaries s package);
        save_value binaries value))).

(** **** Properties *)

(** What the three tasks have in common: the row of a key and a package is
    found or created, and gets the value, when there is one to compute. *)
Definition upsert (key : string) (package : PackageName)
    (compute : option (Result Exception Value)) : Updating unit :=
  match compute with
  | None => mret tt
  | Some compute =>
      '(row, _) ← PackageExtractedInfo_get_or_create key package;
      value ← lift compute;
      save_value row value
  end.

(** The value a package gets. *)
Definition value_of (compute : PackageName → option (Result Exception Value))
    (package : PackageName) : option Value :=
  match compute package with
  | Some (Return value) => Some value
  | _ => None
  end.

Lemma filter_same_saved key package value (l : list PackageExtractedInfo)
    k p :
  filter (same k p)
    ((λ stored, if decide (same key package stored)
                then mkPackageExtractedInfo key package value
                else stored) <$> l)
  = if decide (k = key ∧ p = package)
    then replicate (length (filter (same key package) l))
           (mkPackageExtractedInfo key package value)
    else filter (same k p) l.
Proof.
  induction l as [|row l IH]; [by case_decide|].
  rewrite fmap_cons.
  destruct (decide (same key package row)) as [Hrow|Hrow].
  - rewrite (filter_cons_True (same key package) row l) by done.
    destruct (decide (k = key ∧ p = package)) as [[-> ->]|Hne].
    + rewrite filter_cons_True by done. cbn. by rewrite IH.
    + rewrite filter_cons_False by (intros [? ?]; by apply Hne).
      rewrite IH. destruct Hrow as [Hk Hp].
      rewrite filter_cons_False; [done|].
      intros [? ?]. apply Hne. split; congruence.
  - rewrite (filter_cons_False (same key package) row l) by done.
    destruct (decide (k = key ∧ p = package)) as [[-> ->]|Hne].
    + by rewrite filter_cons_False by done.
    + destruct (decide (same k p row)).
      * rewrite !filter_cons_True by done. by rewrite IH.
      * rewrite !filter_cons_False by done. by rewrite IH.
Qed.

(** One package: when the step returns, its row has the value, it is the
    only row of the key and the package, and the rows of every other key
    or package are what they were. *)
Lemma upsert_returned key package compute (x x' : Update) :
  upsert key package compute x = (Return tt, x') →
  raised x' = raised x
  ∧ ∀ k p,
      filter (same k p) (infos x')
      = match (if decide (k = key ∧ p = package)
               then compute ≫= (λ c, match c with
                                     | Return value => Some value
                                     | Raise _ => None
                                     end)
               else None) with
        | Some value => [mkPackageExtractedInfo key package value]
        | None => filter (same k p) (infos x)
        end.
Proof.
  unfold upsert. destruct compute as [[value|e]|]; cbn [mbind option_bind].
  - unfold PackageExtractedInfo_get_or_create, lift, save_value.
    unfold mbind, M_bind, get, modify, mret, M_ret. cbn beta iota.
    destruct (filter (same key package) (infos x)) as [|row [|row' l]]
      eqn:Hf; [| |done].
    + intros [= <-]. split; [done|]. intros k p. cbn.
      rewrite filter_same_saved.
      destruct (decide (k = key ∧ p = package)) as [[-> ->]|Hne].
      * rewrite filter_app, Hf.
        by rewrite (filter_cons_True (same key package)) by done.
      * rewrite filter_app, filter_cons_False; [by rewrite app_nil_r|].
        intros [? ?]. by apply Hne.
    + assert (Hrow : same key package row).
      { assert (Hin : row ∈ filter (same key package) (infos x))
          by (rewrite Hf; by left).
        by apply list_elem_of_filter in Hin as [? _]. }
      destruct Hrow as [Hk Hp].
      intros [= <-]. split; [done|]. intros k p. cbn.
      rewrite Hk, Hp, filter_same_saved, Hf.
      by destruct (decide (k = key ∧ p = package)).
  - unfold PackageExtractedInfo_get_or_create, lift, save_value.
    unfold mbind, M_bind, get, modify, mret, M_ret. cbn beta iota.
    by destruct (filter (same key package) (infos x)) as [|row [|row' l]].
  - intros [= <-]. split; [done|]. intros k p. by case_decide.
Qed.

Lemma upsert_each_returned key
    (compute : PackageName → option (Result Exception Value))
    (l : list PackageName) (x x' : Update) :
  for_each l (λ package, upsert key package (compute package)) x
  = (Return tt, x') →
  raised x' = raised x
  ∧ ∀ k p,
      filter (same k p) (infos x')
      = match (if decide (k = key ∧ p ∈ l) then value_of compute p
               else None) with
        | Some value => [mkPackageExtractedInfo key p value]
        | None => filter (same k p) (infos x)
        end.
Proof.
  intros Hrun.
  apply (for_each_kept
    (λ handled x1,
       raised x1 = raised x
       ∧ ∀ k p,
           filter (same k p) (infos x1)
           = match (if decide (k = key ∧ p ∈ handled)
                    then value_of compute p else None) with
             | Some value => [mkPackageExtractedInfo key p value]
             | None => filter (same k p) (infos x)
             end)
    _ _ _ _ Hrun).
  { split; [done|]. intros k p.
    rewrite decide_False; [done|]. by intros [_ ?%elem_of_nil]. }
  intros handled package rest x1 x2 _ Hbody [Hraised Hinv].
  destruct (upsert_returned _ _ _ _ _ Hbody) as [Hraised2 Hstep].
  split; [congruence|]. intros k p. rewrite Hstep.
  destruct (decide (k = key ∧ p = package)) as [[-> ->]|Hne].
  - rewrite (decide_True (P := key = key ∧ package ∈ handled ++ [package])).
    2:{ split; [done|]. apply elem_of_app. right.
        by apply list_elem_of_singleton. }
    unfold value_of.
    destruct (compute package) as [[value|e]|] eqn:Hc; cbn; [done| |].
    + (* a failing computation does not return *)
      exfalso. unfold upsert in Hbody. revert Hbody.
      unfold PackageExtractedInfo_get_or_create, lift, save_value.
      unfold mbind, M_bind, get, modify, mret, M_ret. cbn beta iota.
      by destruct (filter (same key package) (infos x1)) as [|row [|row' l0]].
    + rewrite Hinv.
      destruct (decide (key = key ∧ package ∈ handled)); [|done].
      unfold value_of. by rewrite Hc.
  - rewrite Hinv.
    destruct (decide (k = key ∧ p ∈ handled)) as [[-> Hin]|Hout].
    + rewrite decide_True; [done|]. split; [done|].
      apply elem_of_app. by left.
    + rewrite decide_False; [done|]. intros [-> Hin].
      apply elem_of_app in Hin as [Hin|Hin%list_elem_of_singleton].
      * by apply Hout.
      * by apply Hne.
Qed.

(** What a run of one of the tasks does: when it fails, the table is what
    it was and the task has no event; when it returns, every source package
    name of the store that an event names and that has a value has exactly
    one row of the key, with this value, and the rows of every other
    package or key are what they were. *)
Definition updated (key : string)
    (compute : PackageName → option (Result Exception Value))
    (all_events : list Event) (s : Store) (x : Update)
    (run : Result Error unit * Update) : Prop :=
  match run with
  | (Raise e, x') => infos x' = infos x ∧ raised x' = []
  | (Return _, x') =>
      raised x' = raised x
      ∧ ∃ package_names,
          collect (argument "name") all_events = Return package_names
          ∧ ∀ k p,
              filter (same k p) (infos x')
              = match (if decide (k = key ∧ p ∈ named_in package_names s)
                       then value_of compute p else None) with
                | Some value => [mkPackageExtractedInfo key p value]
                | None => filter (same k p) (infos x)
                end
  end.

Lemma for_each_ext {A} (l : list A) (body1 body2 : A → Updating unit) :
  (∀ a, body1 a = body2 a) → for_each l body1 = for_each l body2.
Proof.
  intros Hbody. induction l as [|a l IH]; [done|].
  cbn [for_each]. by rewrite Hbody, IH.
Qed.

Lemma run_updated key compute all_events s (x : Update)
    (body : PackageName → Updating unit) :
  (∀ package, body package = upsert key package (compute package)) →
  updated key compute all_events s x
    (clear_all_events_on_exception (
       package_names ← lift (collect (argument "name") all_events);
       commit_on_success (for_each (named_in package_names s) body)) x).
Proof.
  intros Hbody.
  unfold clear_all_events_on_exception, commit_on_success, lift.
  unfold mbind, M_bind.
  destruct (collect (argument "name") all_events) as [package_names|e]
    eqn:Hcollect; [|done].
  rewrite (for_each_ext _ body
             (λ package, upsert key package (compute package)) Hbody).
  destruct (for_each (named_in package_names s) _ x) as [[[]|e] x'] eqn:Hrun;
    [|done].
  destruct (upsert_each_returned _ _ _ _ _ Hrun) as [Hraised Hrows].
  unfold updated. split; [done|]. exists package_names. by split.
Qed.

(** X23.  [UpdatePackageGeneralInformation.execute] gives a value to the
    source package names of the store that an event names and that have a
    main entry: the value computed from the main entry. *)
Theorem general_information_updated (all_events : list Event) (s : Store)
    (x : Update) :
  updated "general"
    (λ package, _get_info_from_entry <$> main_entry s package)
    all_events s x
    (UpdatePackageGeneralInformation_execute all_events s x).
Proof.
  unfold UpdatePackageGeneralInformation_execute.
  apply (run_updated "general"
           (λ package, _get_info_from_entry <$> main_entry s package)).
  intros package. unfold upsert. by destruct (main_entry s package).
Qed.

(** X24.  [UpdateVersionInformation.execute] and
    [UpdateSourceToBinariesInformation.execute] give a value to every
    source package name of the store that an event names, with or without
    a main entry: the versions of the package under the key [versions], its
    binary packages under the key [binaries]. *)
Theorem version_and_binaries_information_updated (all_events : list Event)
    (s : Store) (x : Update) :
  updated "versions"
    (λ package, Some (_extract_versions_for_package s package))
    all_events s x
    (UpdateVersionInformation_execute all_events s x)
  ∧ updated "binaries"
      (λ package, Some (_get_all_binaries s package))
      all_events s x
      (UpdateSourceToBinariesInformation_execute all_events s x).
Proof.
  split.
  - unfold UpdateVersionInformation_execute.
    by apply (run_updated "versions"
                (λ package, Some (_extract_versions_for_package s package))).
  - unfold UpdateSourceToBinariesInformation_execute.
    by apply (run_updated "binaries"
                (λ package, Some (_get_all_binaries s package))).
Qed.

End Tasks.

End ExtractedInfo.

(** *** Worked examples *)

(** A vendor without an [allow_package] rule, and a parser that finds no
    further data. *)
Definition example_allow_package (stanza : Stanza) : option bool * bool :=
  (None, false).

Definition example_extract (stanza : Stanza) : SourcesEntry :=
  mkSourcesEntry None None None None [].

(** Three cached files: one lists two versions of [pkg-a], one lists
    version 2.0 only, and one has a paragraph without version. *)
Definition example_sources (file_name : string) : option (list Stanza) :=
  if decide (file_name = "R_main_Sources") then
    Some [ [("package", "pkg-a"); ("version", "1.0")];
           [("package", "pkg-a"); ("version", "2.0")] ]
  else if decide (file_name = "R_contrib_Sources") then
    Some [ [("package", "pkg-a"); ("version", "2.0")] ]
  else if decide (file_name = "R_broken_Sources") then
    Some [ [("package", "pkg-b"); ("version", "0.1")];
           [("package", "pkg-c")] ]
  else None.




(** The mapping built for a file that was not updated keeps, for a package
    name that occurs twice, the version of the later paragraph. *)
Lemma packages_of_keeps_later :
  (λ packages, packages !! "pkg-a")
    <$> (match packages_of
                 [ [("package", "pkg-a"); ("version", "1.0")];
                   [("package", "pkg-a"); ("version", "2.0")] ] ∅ with
         | Return packages => Some packages
         | Raise _ => None
         end)
  = Some (Some "2.0").
Proof. by vm_compute. Qed.

(** A store in which repository [R] has version 1.0 of [pkg-a]. *)
Definition example_version : SourcePackage :=
  mkSourcePackage 1 "pkg-a" "1.0" [] [] None [] [].

Definition example_entry : SourcePackageRepositoryEntry :=
  mkEntry 1 "R" example_version "" "".

Definition example_task : Task :=
  mkTask
    (mkStore [mkPackageName "pkg-a" SOURCE_PACKAGE_TYPE] [example_version]
       [example_entry] [] [] [] [] 2 2)
    [] [] false [].

Lemma example_task_well_formed : well_formed (db example_task).
Proof.
  split; cbn.
  - apply NoDup_singleton.
  - intros e ->%list_elem_of_singleton. cbn. lia.
  - by intros p q ->%list_elem_of_singleton ->%list_elem_of_singleton.
  - intros e ->%list_elem_of_singleton. by apply list_elem_of_singleton.
  - by intros e1 e2 ->%list_elem_of_singleton ->%list_elem_of_singleton.
Qed.

Definition example_cached_files (repository : Repository) : list string :=
  ["R_contrib_Sources"].


(** The update reports the file with the paragraph that has no version. *)
Definition example_update_repositories (force : bool)
  : Result Exception
      (list (Repository * string) * list (Repository * string)) :=
  Return ([("R", "R_broken_Sources")], []).

Lemma execute_raises_nothing_kept_witness :
  let run :=
    execute example_allow_package example_extract example_sources
      example_update_repositories example_cached_files example_task in
  run.1 = Raise (KeyError "version")
  ∧ events run.2 = [] ∧ db run.2 = db example_task.
Proof.
  intros run. split; [by vm_compute|].
  apply (execute_raises_nothing_kept example_allow_package example_extract
           example_sources example_update_repositories example_cached_files
           example_task run.2 (KeyError "version")).
  by vm_compute.
Defined.

(** A task on the store of the pseudo package example: two pseudo packages
    and the source package name [dpkg], none of them with a version. *)
Definition example_names_task : Task :=
  mkTask pseudo_example_store [] [] false [].

(** C3 as stated fails for a package name that is not a source package
    name: the pseudo package has no version, before and after, and is
    not deleted, while the source package name without version is. *)
Lemma pseudo_package_name_survives :
  let pseudo := mkPackageName "bugs.debian.org" PSEUDO_PACKAGE_TYPE in
  let other := mkPackageName "ftp.debian.org" PSEUDO_PACKAGE_TYPE in
  let source := mkPackageName "dpkg" SOURCE_PACKAGE_TYPE in
  let s := db example_names_task in
  let s' := db (_remove_obsolete_packages example_names_task).2 in
  package_names s = [pseudo; source; other]
  ∧ count_source_package_versions s' pseudo = 0
  ∧ count_source_package_versions s' source = 0
  ∧ package_names s' = [pseudo; other]
  ∧ bool_decide (pseudo ∈ package_names s') = true.
Proof. by vm_compute. Qed.

(** C4 as stated fails likewise: the second stage raises
    [lost-source-package] for the source package name only and deletes
    nothing else; the pseudo packages without version raise no event and
    stay. *)
Lemma pseudo_package_name_not_announced :
  let t' := (_remove_obsolete_packages example_names_task).2 in
  events t'
  = [mkEvent "lost-source-package" [("name", Str "dpkg")]]
  ∧ journal t'
    = [Raised (mkEvent "lost-source-package" [("name", Str "dpkg")]);
       Deleted (RowPackageName (mkPackageName "dpkg" SOURCE_PACKAGE_TYPE))]
  ∧ package_names (db t')
    = [mkPackageName "bugs.debian.org" PSEUDO_PACKAGE_TYPE;
       mkPackageName "ftp.debian.org" PSEUDO_PACKAGE_TYPE]
  ∧ source_packages (db t') = [].
Proof. by vm_compute. Qed.

(** *** Witnesses of the further properties *)

Lemma garbage_collection_keeps_keys_witness :
  let s' := db (_remove_obsolete_packages example_task).2 in
  well_formed s'
  ∧ repository_entries s' = repository_entries (db example_task)
  ∧ ∀ e, e ∈ repository_entries s' →
         entry_source_package e ∈ source_packages s'.
Proof.
  apply (garbage_collection_keeps_keys example_task).
  exact example_task_well_formed.
Defined.


Lemma _update_sources_file_settles_witness :
  let t1 :=
    (_update_sources_file example_allow_package example_extract
       example_sources "R" "R_main_Sources" example_task).2 in
  ∃ ids,
    _update_sources_file example_allow_package example_extract
      example_sources "R" "R_main_Sources" t1
    = (Return tt,
       set_all_repository_entries (_all_repository_entries t1 ++ ids) t1).
Proof.
  intros t1.
  apply (_update_sources_file_settles example_allow_package example_extract
           example_sources "R" "R_main_Sources" example_task t1).
  - exact example_task_well_formed.
  - by vm_compute.
Defined.

(** A store in which a second repository, [S], has the same version, and
    an update that reports a file of [R] only. *)
Definition example_other_entry : SourcePackageRepositoryEntry :=
  mkEntry 2 "S" example_version "" "".

Definition example_two_repositories_task : Task :=
  mkTask
    (mkStore [mkPackageName "pkg-a" SOURCE_PACKAGE_TYPE] [example_version]
       [example_entry; example_other_entry] [] [] [] [] 2 3)
    [] [] false [].

Definition example_update_contrib (force : bool)
  : Result Exception
      (list (Repository * string) * list (Repository * string)) :=
  Return ([("R", "R_contrib_Sources")], []).

Lemma execute_other_repositories_untouched_witness :
  filter (λ e, entry_repository e ∉ [("R", "R_contrib_Sources")].*1)
    (repository_entries
       (db (execute example_allow_package example_extract example_sources
              example_update_contrib example_cached_files
              example_two_repositories_task).2))
  = filter (λ e, entry_repository e ∉ [("R", "R_contrib_Sources")].*1)
      (repository_entries (db example_two_repositories_task)).
Proof.
  apply (execute_other_repositories_untouched example_allow_package
           example_extract example_sources example_update_contrib
           example_cached_files example_two_repositories_task
           [("R", "R_contrib_Sources")] []).
  reflexivity.
Defined.

(** A cache with one [Sources] file, of repository [R]. *)
Definition example_listdir (directory : string) : option (list string) :=
  Some ["deb_dists_stable_main_source_Sources"; "lock"].

Definition example_sources_list : list (list string) :=
  [ ["http://deb/ stable/main deb_dists_stable_main_source_Sources"] ].

Definition example_component_urls (repository : Repository) : list string :=
  ["http://deb/stable/main"].

Definition example_fetch (force_download : bool)
  : Result AptCache.Error (list string) :=
  Return ["deb_dists_stable_main_source_Sources"].

Lemma fetched_sources_file_is_cached_witness :
  let f := "deb_dists_stable_main_source_Sources" in
  let path := "/srv/cache/var/lib/apt/lists/deb_dists_stable_main_source_Sources" in
  ∃ matched,
    AptCache._match_index_file_to_repository example_sources_list ["R"]
      example_component_urls f = Return matched
    ∧ (matched, AptCache._index_file_full_path "/srv/cache" f)
      ∈ [(Some "R", path)]
    ∧ (matched = Some "R" →
       AptCache._index_file_full_path "/srv/cache" f ∈ [path]).
Proof.
  intros f path.
  apply (AptCache.fetched_sources_file_is_cached "/srv/cache"
           example_listdir (λ _, true) example_sources_list ["R"]
           example_component_urls example_fetch true "R" [f]
           [(Some "R", path)] [] [path] f).
  - reflexivity.
  - by vm_compute.
  - by vm_compute.
  - apply (bool_decide_unpack _). by vm_compute.
  - apply (bool_decide_unpack _). by vm_compute.
  - by vm_compute.
Defined.

(** The events of a run in which [pkg-a] 2.0 is new and enters [R], while
    1.0 leaves [R] and [S]. *)
Definition example_news_events : list Event :=
  [ mkEvent "new-source-package-version"
      [("name", Str "pkg-a"); ("version", Str "2.0"); ("pk", Int 2)];
    mkEvent "new-source-package-version-in-repository"
      [("name", Str "pkg-a"); ("version", Str "2.0"); ("repository", Str "R")];
    mkEvent "lost-source-package-version-in-repository"
      [("name", Str "pkg-a"); ("version", Str "1.0"); ("repository", Str "R")];
    mkEvent "lost-source-package-version-in-repository"
      [("name", Str "pkg-a"); ("version", Str "1.0"); ("repository", Str "S")];
    mkEvent "source-files-extracted" [] ].

Definition example_content (package : PackageName) (version : Arg)
  : Result Exception string :=
  Return "Format: 1.0".

Lemma execute_news_witness :
  let news' :=
    (GenerateNews.execute example_content example_news_events
       (db example_task) []).2 in
  let n :=
    GenerateNews.mkNews (mkPackageName "pkg-a" SOURCE_PACKAGE_TYPE)
      "Accepted pkg-a version 2.0 to R" (Some "Format: 1.0") in
  n ∈ news'
  ↔ n ∈ []
    ∨ ∃ package event,
        package ∈ SourcePackageName_all (db example_task)
        ∧ event ∈ example_news_events
        ∧ GenerateNews.named (Str (pn_name package)) event
        ∧ GenerateNews.news_of_event example_content package
            (GenerateNews.first_seen example_news_events package)
            (GenerateNews.replaced example_news_events package)
            event n.
Proof.
  intros news' n.
  apply (GenerateNews.execute_news example_content example_news_events
           (db example_task) [] news').
  by vm_compute.
Defined.

(** The news of that run: the new version is accepted to [R], the old one
    is removed from [S] only. *)
Lemma example_news :
  GenerateNews.news_title
    <$> (GenerateNews.execute example_content example_news_events
           (db example_task) []).2
  = ["Accepted pkg-a version 2.0 to R"; "pkg-a version 1.0 REMOVED from S"].
Proof. by vm_compute. Qed.

Lemma execute_returns_witness :
  ∃ news',
    GenerateNews.execute example_content example_news_events
      (db example_task) [] = (Return tt, news').
Proof.
  apply (GenerateNews.execute_returns example_content example_news_events
           (db example_task) []).
  - intros event Hin Hrel. unfold example_news_events in Hin.
    repeat (apply elem_of_cons in Hin as [->|Hin]);
      try (by destruct Hrel);
      try (split; [by exists "pkg-a"|by eexists]).
    by apply elem_of_nil in Hin.
  - intros event Hin Hrel Hnew. unfold example_news_events in Hin.
    repeat (apply elem_of_cons in Hin as [->|Hin]);
      try (by destruct Hnew); try (by destruct Hrel); try (by eexists).
    by apply elem_of_nil in Hin.
  - intros package version. by exists "Format: 1.0".
Defined.




Lemma example_two_repositories_well_formed :
  well_formed (db example_two_repositories_task).
Proof.
  split; cbn.
  - apply (bool_decide_unpack _). by vm_compute.
  - intros e [->| ->%list_elem_of_singleton]%elem_of_cons; cbn; lia.
  - by intros p q ->%list_elem_of_singleton ->%list_elem_of_singleton.
  - intros e [->| ->%list_elem_of_singleton]%elem_of_cons;
      by apply list_elem_of_singleton.
  - intros e1 e2 [->| ->%list_elem_of_singleton]%elem_of_cons
      [->| ->%list_elem_of_singleton]%elem_of_cons; by cbn.
Qed.

Lemma execute_leaves_no_orphan_witness :
  let t' :=
    (execute example_allow_package example_extract example_sources
       example_update_contrib example_cached_files
       example_two_repositories_task).2 in
  well_formed (db t')
  ∧ _all_repository_entries t' = []
  ∧ (∀ v, v ∈ source_packages (db t') →
          ∃ e, e ∈ repository_entries (db t') ∧ entry_source_package e = v)
  ∧ (∀ p, p ∈ SourcePackageName_all (db t') →
          ∃ v, v ∈ source_packages (db t') ∧ sp_name v = pn_name p)
  ∧ (∀ b, b ∈ binary_package_names (db t') →
          ∃ v, v ∈ source_packages (db t') ∧ b ∈ sp_binary_packages v).
Proof.
  intros t'.
  apply (execute_leaves_no_orphan example_allow_package example_extract
           example_sources example_update_contrib example_cached_files
           example_two_repositories_task t').
  - exact example_two_repositories_well_formed.
  - reflexivity.
  - by vm_compute.
Defined.

End RetrieveData.
